(** * dipy.core.qball: spherical-harmonic index lists, the ODF model and
      the masked parameter store

    A shallow embedding of [src/dipy/core/qball.py].  Python exceptions are
    values of an error monad, integer arrays are lists of [Z] read in scan
    (C) order, array views are offset/stride descriptors over a buffer, and
    the floating-point kernels of NumPy and SciPy are parameters of the
    development. *)

From stdpp Require Import prelude strings pretty sorting.

Open Scope Z_scope.

(** ** Exceptions and the error monad *)

Inductive exn :=
  | ValueError (msg : string)
  | IndexError (msg : string)
  | AttributeError (msg : string)
  | TypeError (msg : string)
  | LinAlgError (msg : string).

Inductive result (A : Type) :=
  | Ok (a : A)
  | Raise (e : exn).
Arguments Ok {A} a.
Arguments Raise {A} e.

#[global] Instance result_ret : MRet result := λ A a, Ok a.
#[global] Instance result_bind : MBind result := λ A B f m,
  match m with Ok a => f a | Raise e => Raise e end.

(** The messages of the [ValueError]s the module raises itself. *)
Definition msg_sh_order : string := "sh_order must be an even integer >= 0".
Definition msg_data_mask : string :=
  "the number of data elements does not match mask".

(** ** Python and NumPy primitives on integers *)

(** [slice.indices]: the start, step and number of elements a slice
    [start:stop:step] selects on an axis of length [len]; [clip_index] brings
    a bound of the slice into the axis. *)
Definition clip_index (len lower upper v : Z) : Z :=
  if v <? 0 then Z.max (v + len) lower else Z.min v upper.

Definition slice_adjust (len : Z) (start stop step : option Z)
  : result (Z * Z * Z) :=
  let st := default 1 step in
  if st =? 0 then Raise (ValueError "slice step cannot be zero") else
  let lower := if st <? 0 then -1 else 0 in
  let upper := if st <? 0 then len - 1 else len in
  let b := match start with
           | None => if st <? 0 then upper else lower
           | Some v => clip_index len lower upper v
           end in
  let e := match stop with
           | None => if st <? 0 then lower else upper
           | Some v => clip_index len lower upper v
           end in
  let n := if st <? 0
           then (if e <? b then (b - e - st - 1) `div` (- st) else 0)
           else (if b <? e then (e - b + st - 1) `div` st else 0) in
  Ok (b, st, n).

(** [np.arange(start, stop, step)] for integers and a positive step. *)
Definition np_arange (start stop step : Z) : list Z :=
  (λ i, start + i * step) <$> seqZ 0 ((stop - start + step - 1) `div` step).

(** [np.repeat(a, counts)]: element [i] of [a] repeated [counts[i]] times. *)
Fixpoint np_repeat (a counts : list Z) : result (list Z) :=
  match a, counts with
  | x :: a', c :: counts' =>
      if c <? 0 then Raise (ValueError "count < 0") else
      r ← np_repeat a' counts'; mret (replicate (Z.to_nat c) x ++ r)
  | [], [] => mret []
  | _, _ => Raise (ValueError "operands could not be broadcast together")
  end.

(** [l[a:b] = vals] on a one-dimensional array: the values must have the
    length of the selection, or length one (broadcast). *)
Definition set_slice (l : list Z) (a b : Z) (vals : list Z)
  : result (list Z) :=
  '(start, _, n) ← slice_adjust (Z.of_nat (length l)) (Some a) (Some b) None;
  let s := Z.to_nat start in
  let k := Z.to_nat n in
  if decide (length vals = k) then
    mret (take s l ++ vals ++ drop (s + k) l)
  else match vals with
       | [v] => mret (take s l ++ replicate k v ++ drop (s + k) l)
       | _ => Raise (ValueError "could not broadcast input array")
       end.

(** An integer array as a value: its shape and its elements in scan order. *)
Record intarray := IntArray { ishape : list Z; idata : list Z }.

Definition isize (a : intarray) : Z := Z.of_nat (length (idata a)).

(** [a[..., np.newaxis]] on a one-dimensional array. *)
Definition column (l : list Z) : intarray :=
  IntArray [Z.of_nat (length l); 1] l.

(** ** [sph_harm_ind_list] *)

Section IndexList.

(** What [np.empty] finds in memory: position [i] of a fresh array holds
    [uninit i]. *)
Variable uninit : nat → Z.

Definition np_empty (n : Z) : result (list Z) :=
  if n <? 0 then Raise (ValueError "negative dimensions are not allowed")
  else mret (uninit <$> seq 0 (Z.to_nat n)).

(** The body of the loop [for ii in n_range], on the pair
    [(m_list, offset)]. *)
Definition fill_step (st : list Z * Z) (ii : Z) : result (list Z * Z) :=
  let '(m_list, offset) := st in
  m_list' ← set_slice m_list offset (offset + 2 * ii + 1)
                      (np_arange (- ii) (ii + 1) 1);
  mret (m_list', offset + 2 * ii + 1).

Fixpoint fill_loop (st : list Z * Z) (n_range : list Z)
  : result (list Z * Z) :=
  match n_range with
  | [] => mret st
  | ii :: rest => st' ← fill_step st ii; fill_loop st' rest
  end.

Definition sph_harm_ind_list (sh_order : Z) : result (intarray * intarray) :=
  if negb (sh_order `mod` 2 =? 0) then Raise (ValueError msg_sh_order) else
  let n_range := np_arange 0 (sh_order + 1) 2 in
  n_list ← np_repeat n_range ((λ n, n * 2 + 1) <$> n_range);
  let ncoef := ((sh_order + 2) * (sh_order + 1)) `div` 2 in
  let offset := 0 in
  m_list ← np_empty ncoef;
  '(m_list, _) ← fill_loop (m_list, offset) n_range;
  mret (column m_list, column n_list).

End IndexList.

(** The index list in the words of the specification: the pairs [(m, n)]
    for the even degrees [n] of [0..sh_order] and the orders [m] of
    [-n..n], by increasing [n] and then increasing [m]. *)
Definition orders (n : Z) : list Z := seqZ (- n) (2 * n + 1).

Definition indexList_spec (sh_order : Z) : list (Z * Z) :=
  n ← filter (λ n, Z.even n = true) (seqZ 0 (sh_order + 1));
  (λ m, (m, n)) <$> orders n.

(** The order of the list: by degree, then by order. *)
Definition index_lt (p q : Z * Z) : Prop :=
  p.2 < q.2 ∨ (p.2 = q.2 ∧ p.1 < q.1).

(** ** NumPy arrays as views

    An array is a buffer with an offset and, for every axis, a length and a
    stride.  Basic indexing (integers, slices and one [...]) computes a new
    offset and new axes over the same buffer. *)

Record view := View { offset : Z; axes : list (Z * Z) }.

Record ndarray (T : Type) := NdArray { buf : list T; vw : view }.
Arguments NdArray {T} buf vw.
Arguments buf {T} _.
Arguments vw {T} _.

Definition vshape (v : view) : list Z := fst <$> axes v.
Definition shape {T} (a : ndarray T) : list Z := vshape (vw a).
Definition ndim {T} (a : ndarray T) : Z := Z.of_nat (length (axes (vw a))).

Definition prod_list (l : list Z) : Z := foldr Z.mul 1 l.

(** The axes of a freshly allocated (C-contiguous) array of a shape. *)
Fixpoint c_axes (shp : list Z) : list (Z * Z) :=
  match shp with
  | [] => []
  | d :: rest => (d, prod_list rest) :: c_axes rest
  end.

Definition c_view (shp : list Z) : view := View 0 (c_axes shp).

(** A fresh array holding [data], in scan order, with shape [shp]. *)
Definition fresh {T} (shp : list Z) (data : list T) : ndarray T :=
  NdArray data (c_view shp).

(** The buffer positions a view visits, in scan (C) order. *)
Fixpoint addrs (ax : list (Z * Z)) (off : Z) : list Z :=
  match ax with
  | [] => [off]
  | (d, s) :: rest => j ← seqZ 0 d; addrs rest (off + j * s)
  end.

Definition vaddrs (v : view) : list Z := addrs (axes v) (offset v).

(** The elements of an array in scan order ([a.flat]). *)
Definition elems {T} `{Inhabited T} (a : ndarray T) : list T :=
  (λ p, buf a !!! Z.to_nat p) <$> vaddrs (vw a).

Inductive item :=
  | Int (i : Z)
  | Slice (start stop step : option Z)
  | Ellipsis.

Definition is_Ellipsis (it : item) : bool :=
  match it with Ellipsis => true | _ => false end.

Definition full_slice : item := Slice None None None.

Definition is_Int (it : item) : bool :=
  match it with Int _ => true | _ => false end.

(** An index of integers only, one for every axis, selects one element:
    NumPy returns it as a scalar, not as an array without axes. *)
Definition selects_scalar (nd : nat) (index : list item) : bool :=
  forallb is_Int index && bool_decide (length index = nd).

(** [...] stands for as many full slices as the index leaves axes
    unaddressed. *)
Definition expand_item (k : nat) (it : item) : list item :=
  match it with
  | Ellipsis => replicate k full_slice
  | _ => [it]
  end.

Definition expand_index (nd : nat) (index : list item) : result (list item) :=
  let given := length (filter (λ it, is_Ellipsis it = false) index) in
  if decide (1 < length (filter (λ it, is_Ellipsis it = true) index))%nat then
    Raise (IndexError "an index can only have a single ellipsis")
  else if decide (nd < given)%nat then
    Raise (IndexError "too many indices for array")
  else
    mret (index ≫= expand_item (nd - given)).

Fixpoint index_axes (index : list item) (ax : list (Z * Z)) (off : Z)
  : result view :=
  match index with
  | [] => mret (View off ax)
  | it :: index' =>
      match ax with
      | [] => Raise (IndexError "too many indices for array")
      | (d, s) :: ax' =>
          match it with
          | Int i =>
              let i' := if i <? 0 then i + d else i in
              if (0 <=? i') && (i' <? d)
              then index_axes index' ax' (off + i' * s)
              else Raise (IndexError "index out of bounds")
          | Slice a b c =>
              '(start, step, n) ← slice_adjust d a b c;
              v ← index_axes index' ax' (off + start * s);
              mret (View (offset v) ((n, s * step) :: axes v))
          | Ellipsis =>
              Raise (IndexError "an index can only have a single ellipsis")
          end
      end
  end.

(** [a[index]] for a tuple of integers, slices and [...]: a view of the
    same buffer. *)
Definition view_getitem (v : view) (index : list item) : result view :=
  index' ← expand_index (length (axes v)) index;
  index_axes index' (axes v) (offset v).

Definition getitem {T} (a : ndarray T) (index : list item)
  : result (ndarray T) :=
  v ← view_getitem (vw a) index; mret (NdArray (buf a) v).

(** C-contiguity, as NumPy computes the flag: an empty array is contiguous,
    axes of length one are skipped. *)
Fixpoint contiguous_from (ax : list (Z * Z)) : option Z :=
  match ax with
  | [] => Some 1
  | (d, s) :: rest =>
      sd ← contiguous_from rest;
      if d =? 1 then Some sd
      else if s =? sd then Some (sd * d) else None
  end.

Definition is_c_contiguous (v : view) : bool :=
  bool_decide (0 ∈ vshape v) || bool_decide (is_Some (contiguous_from (axes v))).

(** The shape a tuple denotes for an array of [total] elements: at most one
    entry may be negative (usually [-1]), it stands for the dimension that
    is not given and is inferred from the others. *)
Definition infer_shape (total : Z) (value : list Z) : result (list Z) :=
  let known := prod_list (filter (λ d, 0 ≤ d) value) in
  match length (filter (λ d, d < 0) value) with
  | O => if total =? known then mret value
         else Raise (ValueError "cannot reshape array")
  | 1%nat =>
      if (known =? 0) || negb (total `mod` known =? 0)
      then Raise (ValueError "cannot reshape array")
      else mret ((λ d, if d <? 0 then total `div` known else d) <$> value)
  | _ => Raise (ValueError "can only specify one unknown dimension")
  end.

(** *** Reshaping a view that is not contiguous

    For a view that is not C-contiguous NumPy looks for strides that visit
    the elements in the same order under the new shape.  The axes of length
    one of the view are dropped; new dimensions and old axes are then taken
    in groups of equal product, from the first axis on; the old axes of a
    group must combine into one axis, which the new dimensions of the group
    split; the new dimensions that are left at the end (of length one) take
    the last stride. *)

Definition squeeze_axes (ax : list (Z * Z)) : list (Z * Z) :=
  filter (λ ds, ds.1 ≠ 1) ax.

(** One group: from the products [np] and [op] of the new dimensions [ng]
    and of the old axes [og] taken so far, the next new dimension is taken
    while [np < op] and the next old axis while [op < np].  The result is
    the group and what is left of [new] and [old]; the lists cannot run out
    when the products of all new and all old dimensions agree. *)
Fixpoint take_group (fuel : nat) (np op : Z) (ng : list Z) (og : list (Z * Z))
    (new : list Z) (old : list (Z * Z))
  : option (list Z * list (Z * Z) * list Z * list (Z * Z)) :=
  if np =? op then Some (ng, og, new, old) else
  match fuel with
  | O => None
  | S fuel =>
      if np <? op then
        match new with
        | d :: new' => take_group fuel (np * d) op (ng ++ [d]) og new' old
        | [] => None
        end
      else
        match old with
        | (d, s) :: old' =>
            take_group fuel np (op * d) ng (og ++ [(d, s)]) new old'
        | [] => None
        end
  end.

(** The axes of a group combine into one axis when the stride of each is the
    stride of the next times its length. *)
Fixpoint mergeable (og : list (Z * Z)) : bool :=
  match og with
  | (_, s1) :: rest =>
      match rest with
      | (d2, s2) :: _ => (s1 =? d2 * s2) && mergeable rest
      | [] => true
      end
  | [] => true
  end.

(** The axes of the new dimensions of a group whose last stride is [s]: the
    stride of an axis is the stride of the next times its length. *)
Fixpoint group_axes (dims : list Z) (s : Z) : list (Z * Z) :=
  match dims with
  | [] => []
  | d :: rest => (d, prod_list rest * s) :: group_axes rest s
  end.

Fixpoint nocopy_axes (fuel : nat) (new : list Z) (old : list (Z * Z))
    (last_stride : Z) : option (list (Z * Z)) :=
  match new, old with
  | d :: new', (od, os) :: old' =>
      match fuel with
      | O => None
      | S fuel =>
          '(ng, og, new'', old'') ←
            take_group (length new' + length old') d od [d] [(od, os)]
                       new' old';
          if mergeable og then
            let s := default os (snd <$> last og) in
            rest ← nocopy_axes fuel new'' old'' s;
            Some (group_axes ng s ++ rest)
          else None
      end
  | _, _ => Some ((λ d, (d, last_stride)) <$> new)
  end.

(** [a.shape = value]: reshaping in place, without a copy.  A value that is
    the shape already changes nothing; a C-contiguous view takes the strides
    of a fresh array of the new shape; any other view takes the strides
    found for it, and [AttributeError] is raised when there are none. *)
Definition set_shape (v : view) (value : list Z) : result view :=
  if bool_decide (value = vshape v) then mret v else
  shp ← infer_shape (prod_list (vshape v)) value;
  if is_c_contiguous v then mret (View (offset v) (c_axes shp))
  else match nocopy_axes (length shp) shp (squeeze_axes (axes v)) 1 with
       | Some ax => mret (View (offset v) ax)
       | None =>
           Raise (AttributeError "incompatible shape for a non-contiguous array")
       end.

(** A view moved by [δ] positions in its buffer, and a view with one more
    axis at the end. *)
Definition shift_view (δ : Z) (v : view) : view :=
  View (offset v + δ) (axes v).

Definition add_axis (l : Z * Z) (v : view) : view :=
  View (offset v) (axes v ++ [l]).

(** An array whose last axis holds one vector per voxel, seen as the array of
    its voxels: the view without the last axis. *)
Definition voxels {T} (a : ndarray T) : ndarray T :=
  NdArray (buf a) (View (offset (vw a)) (removelast (axes (vw a)))).

(** The length and the stride of the last axis. *)
Definition last_axis {T} (a : ndarray T) : option (Z * Z) :=
  last (axes (vw a)).

(** A view is well formed when no axis has a negative length, and an array
    that is written through is a view that visits no position of its buffer
    twice. *)
Definition wf_view (v : view) : Prop := Forall (λ ds, 0 ≤ ds.1) (axes v).

Definition wf_array (v : view) : Prop := wf_view v ∧ NoDup (vaddrs v).

(** ** NumPy primitives on flat data *)

(** The wrap-around of a conversion to [int32]. *)
Definition wrap32 (x : Z) : Z := (x + 2 ^ 31) `mod` 2 ^ 32 - 2 ^ 31.

Fixpoint cumsum_from (acc : Z) (l : list Z) : list Z :=
  match l with
  | [] => []
  | x :: rest => (acc + x) :: cumsum_from (acc + x) rest
  end.

(** [a.cumsum()] of a one-dimensional array. *)
Definition np_cumsum (l : list Z) : list Z := cumsum_from 0 l.

(** [a[mask]] for a boolean array of the shape of [a]. *)
Fixpoint select {T} (mask : list bool) (a : list T) : list T :=
  match mask, a with
  | b :: mask', x :: a' => if b then x :: select mask' a' else select mask' a'
  | _, _ => []
  end.

Fixpoint mask_assign {T} (a : list T) (mask : list bool) (vals : list T)
  : list T :=
  match a, mask with
  | x :: a', b :: mask' =>
      if b then
        match vals with
        | v :: vals' => v :: mask_assign a' mask' vals'
        | [] => x :: mask_assign a' mask' []
        end
      else x :: mask_assign a' mask' vals
  | _, _ => a
  end.

Definition count_true (mask : list bool) : nat := length (filter (λ b, b = true) mask).

(** [n] values from [vals]: as they are, or one value repeated. *)
Definition broadcast_rows {T} (n : nat) (vals : list T) : result (list T) :=
  if decide (length vals = n) then mret vals
  else match vals with
       | [v] => mret (replicate n v)
       | _ => Raise (ValueError "shape mismatch: value array could not be broadcast")
       end.

(** [a[mask] = vals] for a boolean array of the shape of [a]. *)
Definition setitem_mask {T} (a : list T) (mask : list bool) (vals : list T)
  : result (list T) :=
  if decide (length mask = length a) then
    vals' ← broadcast_rows (count_true mask) vals;
    mret (mask_assign a mask vals')
  else Raise (IndexError "boolean index did not match indexed array").

(** [l[-1]]. *)
Definition py_last {T} (l : list T) : result T :=
  match last l with
  | Some x => mret x
  | None => Raise (IndexError "index -1 is out of bounds for axis 0 with size 0")
  end.

(** [np.zeros(shape, 'int32')]. *)
Definition np_zeros (shp : list Z) : result (ndarray Z) :=
  if bool_decide (Exists (λ d, d < 0) shp)
  then Raise (ValueError "negative dimensions are not allowed")
  else mret (fresh shp (replicate (Z.to_nat (prod_list shp)) 0)).

(** ** The compacted data array and the heap

    The data array of a store is shared by the views taken of the store and
    written through them, so it lives in a heap and stores refer to it by
    location.  A data array has at least one axis; its rows (the per-voxel
    parameter vectors) are values of a type [A]. *)

Inductive np_dtype := bool_ | int32 | int64 | float64.

#[global] Instance np_dtype_eq_dec : EqDecision np_dtype.
Proof. solve_decision. Defined.

Record dataarray (A : Type) :=
  DataArray { ddtype : np_dtype; drowshape : list Z; drows : list A }.
Arguments DataArray {A} ddtype drowshape drows.
Arguments ddtype {A} _.
Arguments drowshape {A} _.
Arguments drows {A} _.

(** [data.shape]. *)
Definition dshape {A} (d : dataarray A) : list Z :=
  Z.of_nat (length (drows d)) :: drowshape d.

Abbreviation heap A := (list (dataarray A)).

Definition deref {A} (h : heap A) (l : nat) : result (dataarray A) :=
  match h !! l with
  | Some d => mret d
  | None => Raise (TypeError "dangling reference")
  end.

(** A boolean array as a value: its shape and its elements in scan order. *)
Record boolarray := BoolArray { bshape : list Z; bdata : list bool }.

(** A mask is well formed when it has as many elements as its shape says. *)
Definition wf_mask (m : boolarray) : Prop :=
  Forall (λ d, 0 ≤ d) (bshape m) ∧
  Z.of_nat (length (bdata m)) = prod_list (bshape m).

(** [data[rows]] for a one-dimensional integer array [rows]: a fresh array
    of the rows addressed; negative row numbers count from the end. *)
Definition take_rows {A} (d : dataarray A) (rows : list Z)
  : result (dataarray A) :=
  let n := Z.of_nat (length (drows d)) in
  rs ← mapM (λ r, let r' := if r <? 0 then r + n else r in
                  if (0 <=? r') && (r' <? n)
                  then match drows d !! Z.to_nat r' with
                       | Some x => Ok x
                       | None => Raise (IndexError "index out of bounds")
                       end
                  else Raise (IndexError "index out of bounds")) rows;
  mret (DataArray (ddtype d) (drowshape d) rs).

(** The writes of [data[rows] = values], in order: a row addressed twice
    keeps the last value. *)
Fixpoint write_rows {A} (rs : list A) (rows : list Z) (values : list A)
  : list A :=
  match rows, values with
  | r :: rows', v :: values' =>
      let r' := if r <? 0 then r + Z.of_nat (length rs) else r in
      write_rows (<[Z.to_nat r' := v]> rs) rows' values'
  | _, _ => rs
  end.

(** [data[rows] = values]: the row numbers are checked, the values are
    converted to the dtype of [data] ([cast]) and broadcast to the number of
    rows addressed, then written. *)
Definition assign_rows {A} (cast : np_dtype → A → A) (d : dataarray A)
    (rows : list Z) (values : list A) : result (dataarray A) :=
  let n := Z.of_nat (length (drows d)) in
  if bool_decide (Forall (λ r, - n ≤ r < n) rows) then
    values' ← broadcast_rows (length rows) (cast (ddtype d) <$> values);
    mret (DataArray (ddtype d) (drowshape d) (write_rows (drows d) rows values'))
  else Raise (IndexError "index out of bounds").

(** [dtype == self.dtype], for an argument that may be [None]. *)
Definition dtype_matches (dt : option np_dtype) (t : np_dtype) : bool :=
  match dt with
  | Some t' => bool_decide (t' = t)
  | None => false
  end.

(** The index volume in the words of the specification: [-1] outside the
    mask and, inside it, the next unused row number, in scan order. *)
Fixpoint index_volume_spec (next : Z) (mask : list bool) : list Z :=
  match mask with
  | [] => []
  | true :: rest => next :: index_volume_spec (next + 1) rest
  | false :: rest => -1 :: index_volume_spec next rest
  end.

(** ** [ModelParams] *)

Module ModelParams.

(** The index volume [_imask] and the location of the data array.  After
    an index of integers only, [_imask] is a NumPy scalar: it is kept as
    the view without axes of the element, and [_imask_scalar] is set. *)
Record t := Make { _imask : ndarray Z; _imask_scalar : bool; _data : nat }.

Section Methods.
Context {A : Type}.

(** The conversion of a row to a dtype, in [astype] and in an
    assignment to an array of that dtype. *)
Variable cast : np_dtype → A → A.

(** [a.astype(dtype)]; [None] stands for the default dtype. *)
Definition astype (dt : option np_dtype) (d : dataarray A) : dataarray A :=
  let t := default float64 dt in
  DataArray t (drowshape d) (cast t <$> drows d).

(** [mask.astype('bool')] of a mask that is boolean already. *)
Definition astype_bool (mask : boolarray) : boolarray := mask.

Definition __init__ (h : heap A) (mask : boolarray) (data : nat)
  : result t :=
  let mask := astype_bool mask in
  imask ← np_zeros (bshape mask);
  let indexes := np_cumsum (Z.b2z <$> select (bdata mask) (bdata mask)) in
  ibuf ← setitem_mask (buf imask) (bdata mask) (wrap32 <$> indexes);
  let imask := NdArray ((λ x, wrap32 (x - 1)) <$> ibuf) (vw imask) in
  d ← deref h data;
  last_index ← py_last indexes;
  if Z.of_nat (length (drows d)) =? last_index
  then mret (Make imask false data)
  else Raise (ValueError msg_data_mask).

Definition mask (self : t) : boolarray :=
  BoolArray (shape (_imask self))
            ((λ x, bool_decide (0 ≤ x)) <$> elems (_imask self)).

Definition dtype (h : heap A) (self : t) : result np_dtype :=
  d ← deref h (_data self); mret (ddtype d).

Definition _get_shape (self : t) : list Z := shape (_imask self).

(** The shape of an array can be assigned, the shape of a scalar
    cannot. *)
Definition _set_shape (self : t) (value : list Z) : result t :=
  if _imask_scalar self then
    Raise (AttributeError
      "attribute 'shape' of 'numpy.generic' objects is not writable")
  else
    v ← set_shape (vw (_imask self)) value;
    mret (Make (NdArray (buf (_imask self)) v) false (_data self)).

(** [self._imask[self.mask]]: the row numbers of the masked positions. *)
Definition masked_rows (self : t) : list Z :=
  select (bdata (mask self)) (elems (_imask self)).

Definition copy (h : heap A) (self : t) : result (t * heap A) :=
  d ← deref h (_data self);
  data ← take_rows d (masked_rows self);
  let h' := h ++ [data] in
  new ← __init__ h' (mask self) (length h);
  mret (new, h').

Definition __getitem__ (self : t) (index : list item) : result t :=
  let new_mp := self in
  imask ← getitem (_imask self) index;
  mret (Make imask (selects_scalar (length (axes (vw (_imask self)))) index)
             (_data new_mp)).

Definition __setitem__ (h : heap A) (self : t) (index : list item)
    (values : list A) : result (heap A) :=
  imask ← getitem (_imask self) index;
  let rows := select ((λ x, bool_decide (0 ≤ x)) <$> elems imask)
                     (elems imask) in
  d ← deref h (_data self);
  d' ← assign_rows cast d rows values;
  mret (<[_data self := d']> h).

Definition __array__ (h : heap A) (self : t) (dt : option np_dtype)
  : result (dataarray A) :=
  self_dtype ← dtype h self;
  d ← deref h (_data self);
  if dtype_matches dt self_dtype
  then take_rows d (masked_rows self)
  else r ← take_rows d (masked_rows self); mret (astype dt r).

End Methods.

(** *** Invariants of a store *)

(** The store is compact: the entries of the index volume are [-1] or row
    numbers, and the row numbers, read in scan order, are
    [0, 1, ..., rowCount - 1]. *)
Definition compact {A} (h : heap A) (self : t) : Prop :=
  wf_array (vw (_imask self)) ∧
  ∃ d, h !! _data self = Some d ∧
       Forall (λ x, -1 ≤ x) (elems (_imask self)) ∧
       filter (λ x, 0 ≤ x) (elems (_imask self))
       = seqZ 0 (Z.of_nat (length (drows d))).

(** The weaker invariant of a view of a store: every entry of the index
    volume is [-1] or the number of a row of the data array, and no row
    number occurs twice. *)
Definition index_ok {A} (h : heap A) (self : t) : Prop :=
  wf_array (vw (_imask self)) ∧
  ∃ d, h !! _data self = Some d ∧
       Forall (λ x, x = -1 ∨ 0 ≤ x < Z.of_nat (length (drows d)))
              (elems (_imask self)) ∧
       NoDup (filter (λ x, 0 ≤ x) (elems (_imask self))).

End ModelParams.

(** ** More of NumPy: broadcasting, indexing the last axis, [np.dot] *)

#[global] Instance result_fmap : FMap result := λ A B f m,
  match m with Ok a => Ok (f a) | Raise e => Raise e end.

(** [l[i]] for an integer [i]; a negative [i] counts from the end. *)
Definition py_index {T} (l : list T) (i : Z) : result T :=
  let n := Z.of_nat (length l) in
  let i' := if i <? 0 then i + n else i in
  if (0 <=? i') && (i' <? n)
  then match l !! Z.to_nat i' with
       | Some x => Ok x
       | None => Raise (IndexError "index out of bounds")
       end
  else Raise (IndexError "index out of bounds").

(** The broadcast of two shapes, both given last axis first. *)
Fixpoint broadcast_rev (s1 s2 : list Z) : result (list Z) :=
  match s1, s2 with
  | [], _ => mret s2
  | _, [] => mret s1
  | d1 :: r1, d2 :: r2 =>
      r ← broadcast_rev r1 r2;
      if d1 =? d2 then mret (d1 :: r)
      else if d1 =? 1 then mret (d2 :: r)
      else if d2 =? 1 then mret (d1 :: r)
      else Raise (ValueError "shape mismatch: objects cannot be broadcast to a single shape")
  end.

(** [np.broadcast(a, b).shape]. *)
Definition broadcast_shapes (s1 s2 : list Z) : result (list Z) :=
  reverse <$> broadcast_rev (reverse s1) (reverse s2).

(** The axes of a view broadcast to a shape, both given last axis first: a
    missing axis and an axis of length one that is stretched get stride 0. *)
Fixpoint broadcast_axes_rev (ax : list (Z * Z)) (shp : list Z)
  : list (Z * Z) :=
  match shp with
  | [] => []
  | d :: shp' =>
      match ax with
      | [] => (d, 0) :: broadcast_axes_rev [] shp'
      | (d', s) :: ax' =>
          (if d' =? d then (d, s) else (d, 0)) :: broadcast_axes_rev ax' shp'
      end
  end.

Definition broadcast_to {T} (a : ndarray T) (shp : list Z) : ndarray T :=
  NdArray (buf a)
    (View (offset (vw a))
          (reverse (broadcast_axes_rev (reverse (axes (vw a))) (reverse shp)))).

(** [a.T]. *)
Definition transpose {T} (a : ndarray T) : ndarray T :=
  NdArray (buf a) (View (offset (vw a)) (reverse (axes (vw a)))).

(** [a.flat[:]]: the elements of [a] as a fresh one-dimensional array. *)
Definition flat {T} `{Inhabited T} (a : ndarray T) : ndarray T :=
  fresh [Z.of_nat (length (elems a))] (elems a).

(** An elementwise operation on one array and on two broadcast arrays. *)
Definition map_array {T U} `{Inhabited T} (f : T → U) (a : ndarray T)
  : ndarray U :=
  fresh (shape a) (f <$> elems a).

Definition map2_arrays {T U V} `{Inhabited T, Inhabited U} (f : T → U → V)
    (a : ndarray T) (b : ndarray U) : result (ndarray V) :=
  shp ← broadcast_shapes (shape a) (shape b);
  mret (fresh shp (zip_with f (elems (broadcast_to a shp))
                              (elems (broadcast_to b shp)))).

(** The leading axes and the last axis of an array. *)
Definition split_last (ax : list (Z * Z)) : option (list (Z * Z) * (Z * Z)) :=
  match reverse ax with
  | [] => None
  | l :: rl => Some (reverse rl, l)
  end.

(** [a[..., js]] for positions [js] of the last axis that are in range. *)
Definition gather_last {T} `{Inhabited T} (a : ndarray T) (js : list Z)
  : result (ndarray T) :=
  match split_last (axes (vw a)) with
  | None => Raise (IndexError "too many indices for array")
  | Some (lead, (d, s)) =>
      mret (fresh ((fst <$> lead) ++ [Z.of_nat (length js)])
                  (base ← addrs lead (offset (vw a));
                   (λ j, buf a !!! Z.to_nat (base + j * s)) <$> js))
  end.

(** [np.nonzero] of a one-dimensional boolean array. *)
Definition where_true (mask : list bool) : list Z :=
  select mask (seqZ 0 (Z.of_nat (length mask))).

(** [a[..., mask]] for a one-dimensional boolean array. *)
Definition take_mask_last {T} `{Inhabited T} (a : ndarray T)
    (mask : list bool) : result (ndarray T) :=
  match split_last (axes (vw a)) with
  | None => Raise (IndexError "too many indices for array")
  | Some (_, (d, _)) =>
      if Z.of_nat (length mask) =? d then gather_last a (where_true mask)
      else Raise (IndexError "boolean index did not match indexed array")
  end.

(** [a[..., idx]] for a one-dimensional integer array. *)
Definition take_idx_last {T} `{Inhabited T} (a : ndarray T) (idx : list Z)
  : result (ndarray T) :=
  match split_last (axes (vw a)) with
  | None => Raise (IndexError "too many indices for array")
  | Some (_, (d, _)) =>
      js ← mapM (λ i, let i' := if i <? 0 then i + d else i in
                      if (0 <=? i') && (i' <? d) then Ok i'
                      else Raise (IndexError "index out of bounds")) idx;
      gather_last a js
  end.

(** An integer array as an array of the view model. *)
Definition of_intarray (a : intarray) : ndarray Z := fresh (ishape a) (idata a).

(** ** Computations logged

    The calls of the numerical kernels are recorded, in order, next to the
    result or the exception of a computation. *)

Inductive event :=
  | EvArctan2 | EvArccos | EvSphHarm | EvLegendre | EvPinv | EvDot
  | EvArith | EvRandom.

Definition M (X : Type) : Type := list event * result X.

#[global] Instance M_ret : MRet M := λ X x, ([], Ok x).
#[global] Instance M_bind : MBind M := λ X Y f m,
  match m with
  | (l, Ok x) => let '(l', r) := f x in (l ++ l', r)
  | (l, Raise e) => (l, Raise e)
  end.

Definition lift {X} (r : result X) : M X := ([], r).
Definition log (ev : event) : M unit := ([ev], Ok ()).
Definition raise {X} (e : exn) : M X := ([], Raise e).

(** The linear-algebra work among the kernels. *)
Definition linear_algebra (ev : event) : bool :=
  match ev with EvPinv | EvDot => true | _ => false end.

(** ** [real_sph_harm]

    The floating-point numbers are values of a type [F]; the kernels of
    NumPy and SciPy on them are parameters. *)

Section SphHarm.
Context {F : Type}.

(** Uninitialised memory of [np.empty] on doubles,
    [scipy.special.sph_harm] (real and imaginary part), [np.sqrt(2)] and
    the product of doubles. *)
Variable uninit_f : F.
Variable sph_harm : Z → Z → F → F → F * F.
Variable sqrt2 : F.
Variable fmul : F → F → F.

#[local] Instance SphHarm_inhabited : Inhabited F := populate uninit_f.

(** [np.atleast_1d]. *)
Definition atleast_1d {T} (a : ndarray T) : ndarray T :=
  match axes (vw a) with
  | [] => NdArray (buf a) (View (offset (vw a)) [(1, 1)])
  | _ => a
  end.

Definition real_sph_harm (m n : ndarray Z) (theta phi : ndarray F)
  : M (ndarray F) :=
  let m := atleast_1d m in
  shp ← lift (s ← broadcast_shapes (shape m) (shape n);
              s ← broadcast_shapes s (shape theta);
              broadcast_shapes s (shape phi));
  let mb := elems (broadcast_to m shp) in
  let m_eq0 := (λ x, bool_decide (x = 0)) <$> mb in
  let m_gt0 := (λ x, bool_decide (0 < x)) <$> mb in
  let m_lt0 := (λ x, bool_decide (x < 0)) <$> mb in
  log EvSphHarm;;
  let sh := zip_with (λ mn tp, sph_harm mn.1 mn.2 tp.1 tp.2)
              (zip mb (elems (broadcast_to n shp)))
              (zip (elems (broadcast_to theta shp))
                   (elems (broadcast_to phi shp))) in
  let real_sh := replicate (length sh) uninit_f in
  real_sh ← lift (setitem_mask real_sh m_eq0 (fst <$> select m_eq0 sh));
  real_sh ← lift (setitem_mask real_sh m_gt0
                    ((λ c, fmul c.1 sqrt2) <$> select m_gt0 sh));
  real_sh ← lift (setitem_mask real_sh m_lt0
                    ((λ c, fmul c.2 sqrt2) <$> select m_lt0 sh));
  mret (fresh shp real_sh).

(** One entry of the result, in the words of the docstring: the real part
    of the harmonic for [m = 0], [sqrt 2] times the real part for [m > 0]
    and [sqrt 2] times the imaginary part for [m < 0]. *)
Definition real_harm (m n : Z) (theta phi : F) : F :=
  let c := sph_harm m n theta phi in
  if m =? 0 then c.1
  else if 0 <? m then fmul c.1 sqrt2
  else fmul c.2 sqrt2.

End SphHarm.

(** ** The [ODF] class *)

(** An index: a tuple of items, or one item that is not a tuple. *)
Inductive pyindex :=
  | Single (it : item)
  | Tuple (its : list item).

(** [index] itself when it is a tuple, [(index,)] otherwise. *)
Definition index_items (index : pyindex) : list item :=
  match index with
  | Tuple its => its
  | Single it => [it]
  end.

(** The slice of an array of per-voxel vectors that an index of its voxels
    denotes: the voxels the index selects, each with its whole vector, over
    the same buffer. *)
Definition slice_voxels {T} (a : ndarray T) (index : list item)
  : result (ndarray T) :=
  v ← getitem (voxels a) index;
  match last_axis a with
  | Some l => mret (NdArray (buf a) (add_axis l (vw v)))
  | None => Raise (IndexError "too many indices for array")
  end.

Module ODF.

Record t (F : Type) := Make {
  sh_order : Z;
  ngrad : Z;
  fit_matrix : ndarray F;
  b0 : ndarray F;
  _coef : ndarray F;
  _resid : option (ndarray F)
}.
Arguments Make {F} _ _ _ _ _ _.
Arguments sh_order {F} _.
Arguments ngrad {F} _.
Arguments fit_matrix {F} _.
Arguments b0 {F} _.
Arguments _coef {F} _.
Arguments _resid {F} _.

Section Methods.
Context {F : Type}.

(** Uninitialised memory: of [np.empty] on integers and on doubles. *)
Variable uninit : nat → Z.
Variable uninit_f : F.

(** [b > 0], [np.arctan2], [np.arccos], [scipy.special.sph_harm] (real
    and imaginary part), [np.sqrt(2)], the arithmetic of doubles, the
    Legendre polynomials and their derivatives ([scipy.special.lpn]),
    the inner product behind [np.dot], [np.linalg.pinv] on the row-major
    data of a [rows x cols] matrix ([None] when the singular value
    decomposition does not converge, as on a matrix with a NaN), and
    [np.random.permutation]. *)
Variable fpos : F → bool.
Variable arctan2 : F → F → F.
Variable arccos : F → F.
Variable sph_harm : Z → Z → F → F → F * F.
Variable sqrt2 : F.
Variables fadd fsub fmul fdiv : F → F → F.
Variables legendre_P legendre_dP : Z → Z → F.
Variable fdot : list F → list F → F.
Variable pinv : Z → Z → list F → option (list F).
Variable rand_perm : Z → list Z.

#[local] Instance F_inhabited : Inhabited F := populate uninit_f.

Definition np_arctan2 (a b : ndarray F) : M (ndarray F) :=
  log EvArctan2;; lift (map2_arrays arctan2 a b).

Definition np_arccos (a : ndarray F) : M (ndarray F) :=
  log EvArccos;; mret (map_array arccos a).

Definition np_arith (f : F → F → F) (a b : ndarray F) : M (ndarray F) :=
  log EvArith;; lift (map2_arrays f a b).

(** [a *= b]: the product must have the shape of [a]. *)
Definition np_imul (a b : ndarray F) : M (ndarray F) :=
  r ← np_arith fmul a b;
  if decide (shape r = shape a) then mret r
  else raise (ValueError "non-broadcastable output operand").

(** [a[mask]] for a one-dimensional boolean array on the first axis. *)
Definition take_mask_first (a : ndarray F) (mask : list bool)
  : result (ndarray F) :=
  match axes (vw a) with
  | [] => Raise (IndexError "too many indices for array")
  | (d, s) :: rest =>
      if Z.of_nat (length mask) =? d then
        mret (fresh (Z.of_nat (count_true mask) :: (fst <$> rest))
                    (j ← where_true mask;
                     (λ p, buf a !!! Z.to_nat p)
                       <$> addrs rest (offset (vw a) + j * s)))
      else Raise (IndexError "boolean index did not match indexed array")
  end.

(** [np.dot(a, b)] for [b] of two axes: the inner products of the
    vectors along the last axis of [a] with the columns of [b]. *)
Definition np_dot (a b : ndarray F) : M (ndarray F) :=
  match split_last (axes (vw a)), axes (vw b) with
  | Some (lead, (n, s)), [(n', s1); (q, s2)] =>
      if n =? n' then
        log EvDot;;
        mret (fresh ((fst <$> lead) ++ [q])
                (base ← addrs lead (offset (vw a));
                 col ← seqZ 0 q;
                 [fdot ((λ i, buf a !!! Z.to_nat (base + i * s))
                          <$> seqZ 0 n)
                       ((λ i, buf b !!! Z.to_nat
                                (offset (vw b) + i * s1 + col * s2))
                          <$> seqZ 0 n)]))
      else raise (ValueError "shapes not aligned")
  | _, _ => raise (TypeError "np.dot: operands outside the model")
  end.

(** [np.linalg.pinv(a)]. *)
Definition np_pinv (a : ndarray F) : M (ndarray F) :=
  match axes (vw a) with
  | [(r, _); (c, _)] =>
      log EvPinv;;
      match pinv r c (elems a) with
      | Some inv => mret (fresh [c; r] inv)
      | None => raise (LinAlgError "SVD did not converge")
      end
  | _ => raise (LinAlgError "array must be two-dimensional")
  end.

(** [lpn(n, z)]: the values and the derivatives of the Legendre
    polynomials of degrees [0..n] at [z]. *)
Definition lpn (n z : Z) : M (ndarray F * ndarray F) :=
  log EvLegendre;;
  mret (fresh [n + 1] ((λ k, legendre_P k z) <$> seqZ 0 (n + 1)),
        fresh [n + 1] ((λ k, legendre_dP k z) <$> seqZ 0 (n + 1))).

Definition _getshape (self : t F) : list Z :=
  removelast (shape (_coef self)).

Definition _getndim (self : t F) : Z := ndim (_coef self) - 1.

Definition __getitem__ (self : t F) (index : pyindex) : result (t F) :=
  let index := index_items index in
  if Z.of_nat (length index) >? _getndim self
  then Raise (IndexError "invalid index") else
  let index := if existsb is_Ellipsis index
               then index ++ [full_slice] else index in
  let new_odf := self in
  coef ← getitem (_coef self) index;
  resid ← match _resid new_odf with
          | Some r => Some <$> getitem r index
          | None => mret None
          end;
  mret (Make (sh_order new_odf) (ngrad new_odf) (fit_matrix new_odf)
             (b0 new_odf) coef resid).

Definition msg_too_few (ngrad : Z) : string :=
  "sh_order seems too high, there are only " +:+ pretty ngrad
  +:+ " diffusion weighted images in data".

Definition __init__ (data : ndarray F) (sh_order : Z)
    (grad_table b_values : ndarray F) (keep_resid : bool) : M (t F) :=
  if negb (sh_order `mod` 2 =? 0) || (sh_order <? 0)
  then raise (ValueError msg_sh_order) else
  let dwi := fpos <$> elems b_values in
  let ngrad := Z.of_nat (count_true dwi) in
  gy ← lift (row ← getitem grad_table [Int 1]; take_mask_first row dwi);
  gx ← lift (row ← getitem grad_table [Int 0]; take_mask_first row dwi);
  theta ← np_arctan2 gy gx;
  gz ← lift (row ← getitem grad_table [Int 2]; take_mask_first row dwi);
  phi ← np_arccos gz;
  '(m_list, n_list) ← lift (sph_harm_ind_list uninit sh_order);
  if isize m_list >? ngrad then raise (ValueError (msg_too_few ngrad)) else
  comp_mat ← real_sph_harm uninit_f sph_harm sqrt2 fmul
                (of_intarray m_list) (of_intarray n_list) theta phi;
  fit_matrix ← np_pinv comp_mat;
  '(legendre0, junk) ← lpn sh_order 0;
  funk_radon ← lift (fresh (ishape n_list)
                       <$> mapM (py_index (elems legendre0)) (idata n_list));
  fit_matrix ← np_imul fit_matrix (transpose funk_radon);
  b0 ← lift (take_mask_last data (negb <$> dwi));
  dw ← lift (take_mask_last data dwi);
  coef ← np_dot dw fit_matrix;
  resid ← (if keep_resid then
             unfit ← np_arith fdiv comp_mat funk_radon;
             dw ← lift (take_mask_last data dwi);
             fitted ← np_dot coef unfit;
             r ← np_arith fsub dw fitted;
             mret (Some r)
           else mret None);
  mret (Make sh_order ngrad fit_matrix b0 coef resid).

Definition evaluate_at (self : t F) (theta_e phi_e : ndarray F)
  : M (ndarray F) :=
  '(m_list, n_list) ← lift (sph_harm_ind_list uninit (sh_order self));
  comp_mat ← real_sph_harm uninit_f sph_harm sqrt2 fmul
                (of_intarray m_list) (of_intarray n_list)
                (flat theta_e) (flat phi_e);
  values ← np_dot (_coef self) comp_mat;
  bshp ← lift (broadcast_shapes (shape theta_e) (shape phi_e));
  v ← lift (set_shape (vw values) (_getshape self ++ bshp));
  mret (NdArray (buf values) v).

Definition evaluate_boot (self : t F) (theta_e phi_e : ndarray F)
    (permute : option (list Z)) : M (ndarray F) :=
  '(m_list, n_list) ← lift (sph_harm_ind_list uninit (sh_order self));
  comp_mat ← real_sph_harm uninit_f sph_harm sqrt2 fmul
                (of_intarray m_list) (of_intarray n_list)
                (flat theta_e) (flat phi_e);
  permute ← match permute with
            | None => log EvRandom;; mret (rand_perm (ngrad self))
            | Some p => mret p
            end;
  resid ← match _resid self with
          | Some r => mret r
          | None => raise (TypeError "'NoneType' object is not subscriptable")
          end;
  permuted ← lift (take_idx_last resid permute);
  correction ← np_dot permuted (fit_matrix self);
  coef ← np_arith fadd (_coef self) correction;
  values ← np_dot coef comp_mat;
  mret values.

End Methods.

End ODF.

(** ** Concrete inputs

    Stores whose rows are integers, and an interpretation of the kernels on
    integers to run the ODF model on concrete inputs: the shapes, the
    exceptions and the log of a run do not depend on the interpretation. *)

Module Examples.

Definition no_cast : np_dtype → Z → Z := λ _ x, x.

(** The conversion of an integer to a dtype: [int32] wraps around. *)
Definition int_cast : np_dtype → Z → Z := λ t x,
  match t with int32 => wrap32 x | _ => x end.

(** A store of two masked voxels over a data array of two rows. *)
Definition heap2 : heap Z := [DataArray int32 [] [10; 20]].
Definition mask2 : boolarray := BoolArray [2] [true; true].
Definition store2 : ModelParams.t :=
  ModelParams.Make (fresh [2] [0; 1]) false 0.
Definition store2_1 : ModelParams.t :=
  ModelParams.Make (NdArray [0; 1] (View 1 [])) true 0.

(** A volume of three voxels, the second outside the mask. *)
Definition heap3 : heap Z := [DataArray int32 [] [10; 20]].
Definition mask3 : boolarray := BoolArray [3] [true; false; true].
Definition store3 : ModelParams.t :=
  ModelParams.Make (fresh [3] [0; -1; 1]) false 0.

(** A volume of two voxels, the first in the mask. *)
Definition heap1 : heap Z := [DataArray int32 [] [7]].
Definition mask1 : boolarray := BoolArray [2] [true; false].
Definition store1 : ModelParams.t :=
  ModelParams.Make (fresh [2] [0; -1]) false 0.

(** No masked voxel, no row. *)
Definition heap0 : heap Z := [DataArray float64 [] []].
Definition mask0 : boolarray := BoolArray [2] [false; false].

Definition inner (a b : list Z) : Z := foldr Z.add 0 (zip_with Z.mul a b).

Definition init :=
  @ODF.__init__ Z (λ _, 0) 0 (λ b, 0 <? b) (λ y x, y - x) (λ z, z)
    (λ m n theta phi, (1, 0)) 1 Z.sub Z.mul Z.div (λ k z, 1) (λ k z, 0)
    inner (λ r c data, Some data).

(** Two voxels; one acquisition without and two with diffusion weighting. *)
Definition data : ndarray Z := fresh [2; 3] [5; 1; 2; 6; 3; 4].
Definition grad_table : ndarray Z := fresh [3; 3] [0; 1; 0; 0; 0; 1; 1; 0; 0].
Definition b_values : ndarray Z := fresh [3] [0; 1000; 1000].

(** A model of order 0 over two voxels and two directions, with its
    residuals, all zero. *)
Definition odf : ODF.t Z :=
  ODF.Make 0 2 (fresh [2; 1] [1; 1]) (fresh [2; 1] [5; 6])
           (fresh [2; 1] [3; 7]) (Some (fresh [2; 2] [0; 0; 0; 0])).

(** The same model and a query on a 2 x 2 grid of directions, for any
    numbers: the fit matrix [f1, f2], the signal [s1, s2] without
    weighting, the coefficients [c1, c2], the residuals all [zero], and
    the angles [a1 .. a4]. *)
Definition odf_of {F} (f1 f2 s1 s2 c1 c2 zero : F) : ODF.t F :=
  ODF.Make 0 2 (fresh [2; 1] [f1; f2]) (fresh [2; 1] [s1; s2])
           (fresh [2; 1] [c1; c2])
           (Some (fresh [2; 2] [zero; zero; zero; zero])).

Definition query_of {F} (a1 a2 a3 a4 : F) : ndarray F :=
  fresh [2; 2] [a1; a2; a3; a4].

End Examples.

(** * Properties *)

(** ** The index list of [sph_harm_ind_list] *)

Lemma bind_Ok {A B} (f : A → result B) a : (Ok a ≫= f) = f a.
Proof. done. Qed.

Lemma np_arange_evens k : 0 ≤ k →
  np_arange 0 (2 * k + 1) 2 = (λ i, 2 * i) <$> seqZ 0 (k + 1).
Proof.
  intros Hk. unfold np_arange.
  replace ((2 * k + 1 - 0 + 2 - 1) `div` 2) with (k + 1)
    by (apply Z.div_unique with 0; lia).
  apply list_fmap_ext. intros; lia.
Qed.

Lemma np_arange_orders n :
  np_arange (- n) (n + 1) 1 = seqZ (- n) (2 * n + 1).
Proof.
  unfold np_arange. rewrite Z.div_1_r.
  replace (n + 1 - - n + 1 - 1) with (2 * n + 1) by lia.
  replace (seqZ (- n) (2 * n + 1)) with (seqZ (- n + 0) (2 * n + 1))
    by (f_equal; lia).
  rewrite <- fmap_add_seqZ. apply list_fmap_ext. intros; lia.
Qed.

Lemma np_repeat_degrees ns :
  Forall (λ n, 0 ≤ n) ns →
  np_repeat ns ((λ n, n * 2 + 1) <$> ns)
  = Ok (n ← ns; replicate (Z.to_nat (2 * n + 1)) n).
Proof.
  induction 1 as [|n ns Hn _ IH]; [done|]. cbn [np_repeat fmap list_fmap].
  destruct (Z.ltb_spec (n * 2 + 1) 0); [lia|]. rewrite IH. cbn.
  by replace (n * 2 + 1) with (2 * n + 1) by lia.
Qed.

Lemma set_slice_exact pre old suf vals :
  length old = length vals →
  set_slice (pre ++ old ++ suf) (Z.of_nat (length pre))
            (Z.of_nat (length pre) + Z.of_nat (length vals)) vals
  = Ok (pre ++ vals ++ suf).
Proof.
  intros Hlen. unfold set_slice, slice_adjust, clip_index. cbn.
  rewrite !length_app.
  set (p := Z.of_nat (length pre)). set (v := Z.of_nat (length vals)).
  assert (0 ≤ p) by lia. assert (0 ≤ v) by lia.
  destruct (Z.ltb_spec p 0); [lia|]. destruct (Z.ltb_spec (p + v) 0); [lia|].
  rewrite !Nat2Z.inj_add, Hlen. fold p v.
  rewrite (Z.min_l p) by lia. rewrite (Z.min_l (p + v)) by lia.
  assert (Hn : (if p <? p + v then (p + v - p + 1 - 1) `div` 1 else 0) = v).
  { destruct (Z.ltb_spec p (p + v)); [rewrite Z.div_1_r; lia | lia]. }
  rewrite Hn. unfold p, v. rewrite !Nat2Z.id.
  rewrite decide_True by done. cbn.
  rewrite take_app_length. do 2 f_equal.
  rewrite drop_app_add', <- Hlen by done. by rewrite drop_app_length.
Qed.

Lemma seqZ_1 a : seqZ a 1 = [a].
Proof. done. Qed.

Lemma length_orders n : 0 ≤ n → length (orders n) = Z.to_nat (2 * n + 1).
Proof. intros. unfold orders. by rewrite length_seqZ. Qed.

Lemma fill_loop_spec ns : ∀ pre suf,
  Forall (λ n, 0 ≤ n) ns →
  (length (ns ≫= orders) ≤ length suf)%nat →
  fill_loop (pre ++ suf, Z.of_nat (length pre)) ns
  = Ok (pre ++ (ns ≫= orders) ++ drop (length (ns ≫= orders)) suf,
        Z.of_nat (length pre) + Z.of_nat (length (ns ≫= orders))).
Proof.
  induction ns as [|n ns IH]; intros pre suf Hns Hlen.
  { cbn. by rewrite drop_0, Z.add_0_r. }
  apply Forall_cons in Hns as [Hn Hns].
  cbn [mbind list_bind] in Hlen |- *. rewrite length_app in Hlen.
  cbn [fill_loop fill_step]. rewrite np_arange_orders. fold (orders n).
  rewrite <- (take_drop (length (orders n)) suf) at 1.
  replace (Z.of_nat (length pre) + 2 * n + 1)
    with (Z.of_nat (length pre) + Z.of_nat (length (orders n)))
    by (rewrite length_orders by done; lia).
  rewrite set_slice_exact by (rewrite length_take; lia).
  rewrite bind_Ok. cbn [mret result_ret]. rewrite bind_Ok, (assoc (++) pre).
  replace (Z.of_nat (length pre) + Z.of_nat (length (orders n)))
    with (Z.of_nat (length (pre ++ orders n)))
    by (rewrite length_app; lia).
  rewrite IH by (try done; rewrite length_drop; lia).
  rewrite drop_drop, !length_app, <- !(assoc (++)).
  do 2 f_equal. lia.
Qed.

Lemma length_bind_orders (j : nat) :
  Z.of_nat (length (((λ i, 2 * i) <$> seqZ 0 (Z.of_nat j)) ≫= orders))
  = Z.of_nat j * (2 * Z.of_nat j - 1).
Proof.
  induction j as [|j IH]; [done|].
  rewrite Nat2Z.inj_succ, <- Z.add_1_r, seqZ_app by lia.
  rewrite fmap_app, bind_app, length_app, Nat2Z.inj_add, IH.
  rewrite seqZ_1. cbn. rewrite app_nil_r, length_orders by lia. lia.
Qed.

Lemma evens_seqZ (j : nat) :
  filter (λ n, Z.even n = true) (seqZ 0 (2 * Z.of_nat j + 1))
  = (λ i, 2 * i) <$> seqZ 0 (Z.of_nat j + 1).
Proof.
  induction j as [|j IH]; [done|].
  replace (2 * Z.of_nat (S j) + 1) with ((2 * Z.of_nat j + 1) + 2) by lia.
  replace (Z.of_nat (S j) + 1) with ((Z.of_nat j + 1) + 1) by lia.
  rewrite (seqZ_app _ (2 * Z.of_nat j + 1)), (seqZ_app _ (Z.of_nat j + 1))
    by lia.
  rewrite filter_app, fmap_app, IH. f_equal.
  rewrite seqZ_1.
  assert (seqZ (0 + (2 * Z.of_nat j + 1)) 2
    = [2 * Z.of_nat j + 1; 2 * (Z.of_nat j + 1)]) as ->.
  { unfold seqZ. change (Z.to_nat 2) with 2%nat. cbn.
    repeat (f_equal; try lia). }
  rewrite filter_cons_False, filter_cons_True, filter_nil.
  - cbn. f_equal. 
  - by rewrite Z.even_mul.
  - rewrite Z.add_comm, Z.even_add_mul_2. done.
Qed.

Lemma zip_bind_degrees ns :
  Forall (λ n, 0 ≤ n) ns →
  zip (ns ≫= orders) (ns ≫= λ n, replicate (Z.to_nat (2 * n + 1)) n)
  = ns ≫= λ n, (λ m, (m, n)) <$> orders n.
Proof.
  induction 1 as [|n ns Hn _ IH]; [done|]. cbn [mbind list_bind].
  rewrite zip_with_app
    by (by rewrite length_orders, length_replicate).
  f_equal; [|apply IH].
  by rewrite zip_with_replicate_r_eq by (by rewrite length_orders).
Qed.

Lemma StronglySorted_seqZ a n : StronglySorted Z.lt (seqZ a n).
Proof.
  unfold seqZ. generalize (Z.to_nat n). intros k.
  apply StronglySorted_fmap with (R1 := lt); [intros ???; lia|].
  generalize 0%nat. induction k as [|k IH]; intros s; cbn; constructor.
  - apply IH.
  - apply Forall_forall. intros x Hx%elem_of_seq. lia.
Qed.

Lemma StronglySorted_filter {A} (R : relation A) (P : A → Prop)
    `{∀ x, Decision (P x)} l :
  StronglySorted R l → StronglySorted R (filter P l).
Proof.
  induction 1 as [|x l _ IH Hx]; [constructor|].
  rewrite filter_cons. case_decide; [|done]. constructor; [done|].
  apply Forall_forall. intros y [_ Hy]%list_elem_of_filter.
  by eapply Forall_forall in Hx.
Qed.

Lemma StronglySorted_bind {A B} (R' : relation A) (R : relation B)
    (f : A → list B) l :
  StronglySorted R' l →
  (∀ x, StronglySorted R (f x)) →
  (∀ x y a b, R' x y → a ∈ f x → b ∈ f y → R a b) →
  StronglySorted R (l ≫= f).
Proof.
  intros Hl Hf Hc. induction Hl as [|x l _ IH Hx]; [constructor|].
  cbn [mbind list_bind]. apply StronglySorted_app_2; [|done..].
  intros a b Ha [y [Hb Hy]]%list_elem_of_bind.
  eapply Hc; [|done..]. by eapply Forall_forall in Hx.
Qed.

Lemma indexList_spec_elem sh m n :
  (m, n) ∈ indexList_spec sh ↔
  0 ≤ n ≤ sh ∧ Z.even n = true ∧ - n ≤ m ≤ n.
Proof.
  unfold indexList_spec. rewrite list_elem_of_bind. split.
  - intros (k & Hm & Hk). apply list_elem_of_filter in Hk as [Hev Hk].
    apply elem_of_seqZ in Hk. apply list_elem_of_fmap in Hm as (m' & [= -> ->] & Hm').
    apply elem_of_seqZ in Hm'. split_and!; [lia..|done|lia|lia].
  - intros (Hn & Hev & Hm). exists n. split.
    + apply list_elem_of_fmap. exists m. split; [done|]. apply elem_of_seqZ. lia.
    + apply list_elem_of_filter. split; [done|]. apply elem_of_seqZ. lia.
Qed.

Lemma indexList_spec_sorted sh : StronglySorted index_lt (indexList_spec sh).
Proof.
  unfold indexList_spec.
  apply StronglySorted_bind with (R' := Z.lt).
  - apply StronglySorted_filter, StronglySorted_seqZ.
  - intros n. apply StronglySorted_fmap with (R1 := Z.lt);
      [|apply StronglySorted_seqZ].
    intros m1 m2 Hm. right. by cbn.
  - intros n1 n2 a b Hn (m1 & -> & _)%list_elem_of_fmap
      (m2 & -> & _)%list_elem_of_fmap. by left.
Qed.

Lemma indexList_spec_even (j : nat) :
  indexList_spec (2 * Z.of_nat j)
  = ((λ i, 2 * i) <$> seqZ 0 (Z.of_nat j + 1)) ≫= λ n, (λ m, (m, n)) <$> orders n.
Proof. unfold indexList_spec. by rewrite evens_seqZ. Qed.

Lemma even_half sh_order :
  0 ≤ sh_order → sh_order `mod` 2 = 0 → ∃ j : nat, sh_order = 2 * Z.of_nat j.
Proof.
  intros Hsh Hev. exists (Z.to_nat (sh_order `div` 2)).
  rewrite Z2Nat.id by (apply Z.div_pos; lia).
  pose proof (Z.div_mod sh_order 2). lia.
Qed.

(** The run of [sph_harm_ind_list] on the order [2 j]: the loop fills the
    whole of [m_list], whatever it held. *)
Lemma sph_harm_ind_list_run uninit (j : nat) :
  let ns := (λ i, 2 * i) <$> seqZ 0 (Z.of_nat j + 1) in
  sph_harm_ind_list uninit (2 * Z.of_nat j)
  = Ok (column (ns ≫= orders),
        column (ns ≫= λ n, replicate (Z.to_nat (2 * n + 1)) n)) ∧
  Z.of_nat (length (ns ≫= orders))
  = ((2 * Z.of_nat j + 2) * (2 * Z.of_nat j + 1)) `div` 2 ∧
  Forall (λ n, 0 ≤ n) ns.
Proof.
  intros ns.
  set (ncoef := ((2 * Z.of_nat j + 2) * (2 * Z.of_nat j + 1)) `div` 2).
  assert (ncoef = Z.of_nat (S j) * (2 * Z.of_nat (S j) - 1)) as Hncoef.
  { unfold ncoef. symmetry. apply Z.div_unique with 0; lia. }
  assert (Forall (λ n, 0 ≤ n) ns) as Hns.
  { apply Forall_fmap, Forall_seqZ. intros; cbn; lia. }
  assert (Z.of_nat (length (ns ≫= orders)) = ncoef) as Hlen.
  { rewrite Hncoef, <- length_bind_orders. unfold ns.
    by rewrite Nat2Z.inj_succ, <- Z.add_1_r. }
  split_and!; [|done..].
  unfold sph_harm_ind_list.
  replace ((2 * Z.of_nat j) `mod` 2) with 0
    by (symmetry; rewrite Z.mul_comm; apply Z.mod_mul; lia).
  cbn [Z.eqb negb]. fold ncoef.
  rewrite np_arange_evens by lia. fold ns.
  rewrite np_repeat_degrees, bind_Ok by done.
  unfold np_empty. destruct (Z.ltb_spec ncoef 0); [lia|].
  cbn [mret result_ret]. rewrite bind_Ok.
  set (init := uninit <$> seq 0 (Z.to_nat ncoef)).
  pose proof (fill_loop_spec ns [] init Hns) as Hfill. cbn [app length] in Hfill.
  change (Z.of_nat 0) with 0 in Hfill.
  rewrite Hfill, bind_Ok by (unfold init; rewrite length_fmap, length_seq; lia).
  by rewrite drop_ge, app_nil_r
    by (unfold init; rewrite length_fmap, length_seq; lia).
Qed.

Lemma sph_harm_ind_list_size uninit sh_order :
  0 ≤ sh_order → sh_order `mod` 2 = 0 →
  ∃ m_list n_list,
    sph_harm_ind_list uninit sh_order = Ok (m_list, n_list) ∧
    isize m_list = ((sh_order + 2) * (sh_order + 1)) `div` 2.
Proof.
  intros Hsh Hev. destruct (even_half _ Hsh Hev) as [j ->].
  destruct (sph_harm_ind_list_run uninit j) as (Hrun & Hlen & _).
  eexists _, _. split; [exact Hrun|]. exact Hlen.
Qed.

(** C3: for a non-negative even [sh_order], [sph_harm_ind_list] returns
    [(sh_order + 2)(sh_order + 1)/2] pairs [(m, n)]: the even degrees [n] of
    [0..sh_order] with, for each, the orders [m] of [-n..n], by increasing
    [n] and then increasing [m], whatever the memory [np.empty] returns. *)
Theorem indexList_even uninit sh_order :
  0 ≤ sh_order → sh_order `mod` 2 = 0 →
  ∃ m_list n_list,
    sph_harm_ind_list uninit sh_order = Ok (m_list, n_list) ∧
    zip (idata m_list) (idata n_list) = indexList_spec sh_order ∧
    Z.of_nat (length (zip (idata m_list) (idata n_list)))
      = ((sh_order + 2) * (sh_order + 1)) `div` 2 ∧
    isize m_list = ((sh_order + 2) * (sh_order + 1)) `div` 2 ∧
    isize n_list = ((sh_order + 2) * (sh_order + 1)) `div` 2 ∧
    (∀ m n, (m, n) ∈ zip (idata m_list) (idata n_list) ↔
            0 ≤ n ≤ sh_order ∧ Z.even n = true ∧ - n ≤ m ≤ n) ∧
    StronglySorted index_lt (zip (idata m_list) (idata n_list)).
Proof.
  intros Hsh Hev. destruct (even_half _ Hsh Hev) as [j ->].
  destruct (sph_harm_ind_list_run uninit j) as (Hrun & Hlen & Hns).
  eexists _, _. split; [exact Hrun|]. cbn [column idata].
  set (ns := (λ i, 2 * i) <$> seqZ 0 (Z.of_nat j + 1)) in *.
  assert (length (ns ≫= λ n, replicate (Z.to_nat (2 * n + 1)) n)
          = length (ns ≫= orders)) as Hlen'.
  { clear -Hns. induction Hns as [|n ns Hn _ IH]; [done|].
    cbn [mbind list_bind].
    by rewrite !length_app, IH, length_orders, length_replicate. }
  rewrite zip_bind_degrees by done. unfold ns.
  rewrite <- indexList_spec_even. fold ns. split_and!.
  - done.
  - rewrite indexList_spec_even. fold ns.
    rewrite <- zip_bind_degrees, length_zip_with by done. lia.
  - unfold isize. by cbn.
  - unfold isize. cbn. by rewrite Hlen'.
  - intros m n. apply indexList_spec_elem.
  - apply indexList_spec_sorted.
Qed.

Lemma indexList_even_witness :
  0 ≤ 4 ∧ 4 `mod` 2 = 0 ∧
  ∃ m_list n_list,
    sph_harm_ind_list (λ _, 0) 4 = Ok (m_list, n_list) ∧
    zip (idata m_list) (idata n_list) = indexList_spec 4 ∧
    Z.of_nat (length (zip (idata m_list) (idata n_list)))
      = ((4 + 2) * (4 + 1)) `div` 2 ∧
    isize m_list = ((4 + 2) * (4 + 1)) `div` 2 ∧
    isize n_list = ((4 + 2) * (4 + 1)) `div` 2 ∧
    (∀ m n, (m, n) ∈ zip (idata m_list) (idata n_list) ↔
            0 ≤ n ≤ 4 ∧ Z.even n = true ∧ - n ≤ m ≤ n) ∧
    StronglySorted index_lt (zip (idata m_list) (idata n_list)).
Proof.
  split; [lia|]. split; [reflexivity|].
  apply (indexList_even (λ _, 0) 4); [lia | reflexivity].
Defined.

(** C6: [sph_harm_ind_list] checks the parity of [sh_order] only: for the
    negative even order [-2] it returns two empty arrays, and for [-4] it
    returns three uninitialised orders and no degree, instead of raising. *)
Theorem indexList_negative_even uninit :
  sph_harm_ind_list uninit (-2) = Ok (column [], column []) ∧
  sph_harm_ind_list uninit (-4)
  = Ok (column [uninit 0%nat; uninit 1%nat; uninit 2%nat], column []).
Proof. split; reflexivity. Qed.

(** ** Views and basic indexing *)

Lemma bind_result_Ok {A B} (f : A → result B) (m : result A) b :
  m ≫= f = Ok b → ∃ a, m = Ok a ∧ f a = Ok b.
Proof. destruct m; [eauto | done]. Qed.

Lemma fmap_list_bind {A B C} (f : B → C) (g : A → list B) (l : list A) :
  f <$> (l ≫= g) = l ≫= λ x, f <$> g x.
Proof.
  induction l as [|x l IH]; [done|].
  cbn [mbind list_bind]. by rewrite fmap_app, IH.
Qed.

(** *** Addresses of views *)

Lemma seqZ_blocks (d : nat) off p : 0 ≤ p →
  seqZ 0 (Z.of_nat d) ≫= (λ j, seqZ (off + j * p) p)
  = seqZ off (Z.of_nat d * p).
Proof.
  intros Hp. induction d as [|d IH]; [done|].
  rewrite seqZ_S, bind_app, IH. cbn [mbind list_bind]. rewrite app_nil_r.
  replace (Z.of_nat (S d) * p) with (Z.of_nat d * p + p) by lia.
  rewrite seqZ_app by lia. by f_equal.
Qed.

Lemma prod_list_nonneg shp : Forall (λ d, 0 ≤ d) shp → 0 ≤ prod_list shp.
Proof. induction 1; cbn; [lia | by apply Z.mul_nonneg_nonneg]. Qed.

Lemma addrs_c_axes shp : ∀ off,
  Forall (λ d, 0 ≤ d) shp → addrs (c_axes shp) off = seqZ off (prod_list shp).
Proof.
  induction shp as [|d shp IH]; intros off Hshp; [done|].
  apply Forall_cons in Hshp as [Hd Hshp]. cbn [c_axes addrs prod_list foldr].
  fold (prod_list shp). rewrite <- (Z2Nat.id d Hd).
  rewrite <- seqZ_blocks by by apply prod_list_nonneg.
  apply list_bind_ext; [|done]. intros j. by apply IH.
Qed.

Lemma vshape_c_axes shp : fst <$> c_axes shp = shp.
Proof. induction shp; cbn; by f_equal. Qed.

Lemma addrs_empty ax : ∀ off, 0 ∈ (fst <$> ax) → addrs ax off = [].
Proof.
  induction ax as [|[d s] ax IH]; intros off Hin; [by apply elem_of_nil in Hin|].
  cbn in Hin. apply elem_of_cons in Hin as [<-|Hin]; [done|].
  cbn [addrs]. induction (seqZ 0 d) as [|j js IHj]; [done|].
  cbn [mbind list_bind]. by rewrite IH, IHj.
Qed.

Lemma prod_list_zero shp : 0 ∈ shp → prod_list shp = 0.
Proof.
  induction shp as [|d shp IH]; [by intros ?%elem_of_nil|].
  intros [<-|Hin]%elem_of_cons; cbn; [done|]. fold (prod_list shp). rewrite IH by done. lia.
Qed.

Lemma addrs_contiguous ax : ∀ off sd,
  Forall (λ ds, 0 ≤ ds.1) ax →
  contiguous_from ax = Some sd →
  sd = prod_list (fst <$> ax) ∧ addrs ax off = seqZ off sd.
Proof.
  induction ax as [|[d s] ax IH]; intros off sd Hax Hc.
  { injection Hc as <-. done. }
  apply Forall_cons in Hax as [Hd Hax]. cbn in Hd.
  cbn [contiguous_from] in Hc.
  destruct (contiguous_from ax) as [sd'|] eqn:Hsd'; [|done]. cbn in Hc.
  cbn [fmap list_fmap fst prod_list foldr addrs]. fold (prod_list (fst <$> ax)).
  destruct (Z.eqb_spec d 1) as [->|Hd1].
  - injection Hc as <-. destruct (IH off sd' Hax eq_refl) as [-> _].
    split; [lia|]. rewrite seqZ_1. cbn [mbind list_bind]. rewrite app_nil_r.
    replace (off + 0 * s) with off by lia. by apply IH.
  - destruct (Z.eqb_spec s sd') as [->|]; [|done]. injection Hc as <-.
    destruct (IH off sd' Hax eq_refl) as [Hsd _].
    split; [lia|]. rewrite <- (Z2Nat.id d Hd) at 2. rewrite (Z.mul_comm sd').
    rewrite <- seqZ_blocks by (rewrite Hsd; apply prod_list_nonneg;
      apply Forall_fmap; by eapply Forall_impl).
    rewrite Z2Nat.id by done.
    apply list_bind_ext; [|done]. intros j. by apply IH.
Qed.

Lemma vaddrs_contiguous v :
  wf_view v → is_c_contiguous v = true →
  vaddrs v = seqZ (offset v) (prod_list (vshape v)).
Proof.
  intros Hwf [Hz|Hc]%orb_true_iff.
  - apply bool_decide_eq_true in Hz. unfold vaddrs.
    rewrite addrs_empty by done. by rewrite prod_list_zero.
  - apply bool_decide_eq_true in Hc as [sd Hsd]. unfold vaddrs, vshape.
    by destruct (addrs_contiguous _ (offset v) _ Hwf Hsd) as [<- ->].
Qed.

Lemma length_bind_const {A B} (f : A → list B) (l : list A) c :
  (∀ x, length (f x) = c) → length (l ≫= f) = (length l * c)%nat.
Proof.
  intros Hf. induction l as [|x l IH]; [done|].
  cbn [mbind list_bind]. rewrite length_app, Hf, IH. done.
Qed.

Lemma length_addrs ax : ∀ off,
  Forall (λ ds, 0 ≤ ds.1) ax →
  Z.of_nat (length (addrs ax off)) = prod_list (fst <$> ax).
Proof.
  induction ax as [|[d s] ax IH]; intros off Hax; [done|].
  apply Forall_cons in Hax as [Hd Hax]. cbn in Hd.
  cbn [fmap list_fmap fst prod_list foldr addrs]. fold (prod_list (fst <$> ax)).
  rewrite (length_bind_const _ _ (Z.to_nat (prod_list (fst <$> ax)))).
  - rewrite length_seqZ, Nat2Z.inj_mul, !Z2Nat.id; [done| |done].
    apply prod_list_nonneg, Forall_fmap. by eapply Forall_impl.
  - intros j. by rewrite <- (IH (off + j * s)), Nat2Z.id.
Qed.

(** *** Slices and basic indexing *)

Lemma clip_index_range len lower upper v :
  lower ≤ upper → lower ≤ 0 → len - 1 ≤ upper →
  lower ≤ clip_index len lower upper v ≤ upper.
Proof. intros. unfold clip_index. destruct (Z.ltb_spec v 0); lia. Qed.

Lemma slice_count_pos b e st j :
  0 < st → b < e → 0 ≤ j < (e - b + st - 1) `div` st →
  b ≤ b + j * st < e.
Proof.
  intros Hst Hlt Hj.
  pose proof (Z.mul_div_le (e - b + st - 1) st ltac:(lia)) as H1.
  set (q := (e - b + st - 1) `div` st) in *. clearbody q.
  assert (j * st ≤ (q - 1) * st) by (apply Z.mul_le_mono_nonneg_r; lia).
  assert (0 ≤ j * st) by (apply Z.mul_nonneg_nonneg; lia). lia.
Qed.

Lemma slice_adjust_range d a b c start step n :
  0 ≤ d → slice_adjust d a b c = Ok (start, step, n) →
  0 ≤ n ∧ step ≠ 0 ∧ ∀ j, 0 ≤ j < n → 0 ≤ start + j * step < d.
Proof.
  intros Hd. unfold slice_adjust.
  destruct (Z.eqb_spec (default 1 c) 0) as [|Hst]; [done|].
  set (st := default 1 c) in *. clearbody st. cbv zeta.
  destruct (Z.ltb_spec st 0) as [Hneg|Hpos].
  - set (s0 := match a with Some v => _ | None => _ end).
    set (e0 := match b with Some v => _ | None => _ end).
    assert (-1 ≤ s0 ≤ d - 1) as Hs0
      by (unfold s0; destruct a; [apply clip_index_range | ]; lia).
    assert (-1 ≤ e0 ≤ d - 1) as He0
      by (unfold e0; destruct b; [apply clip_index_range | ]; lia).
    clearbody s0 e0. intros [= <- <- <-].
    destruct (Z.ltb_spec e0 s0) as [Hlt|Hge];
      [|split_and!; [lia|done|intros; lia]].
    replace (s0 - e0 - st - 1) with (s0 - e0 + (- st) - 1) by lia.
    split_and!; [apply Z.div_pos; lia|done|]. intros j Hj.
    pose proof (slice_count_pos (- s0) (- e0) (- st) j) as H. 
    replace (- e0 - - s0 + - st - 1) with (s0 - e0 + - st - 1) in H by lia.
    specialize (H ltac:(lia) ltac:(lia) Hj). lia.
  - assert (0 < st) as Hst' by lia.
    set (s0 := match a with Some v => _ | None => _ end).
    set (e0 := match b with Some v => _ | None => _ end).
    assert (0 ≤ s0 ≤ d) as Hs0
      by (unfold s0; destruct a; [apply clip_index_range | ]; lia).
    assert (0 ≤ e0 ≤ d) as He0
      by (unfold e0; destruct b; [apply clip_index_range | ]; lia).
    clearbody s0 e0. intros [= <- <- <-].
    destruct (Z.ltb_spec s0 e0) as [Hlt|Hge];
      [|split_and!; [lia|done|intros; lia]].
    split_and!; [apply Z.div_pos; lia|done|]. intros j Hj.
    pose proof (slice_count_pos s0 e0 st j Hst' Hlt Hj). lia.
Qed.

Lemma index_axes_shift index : ∀ ax off δ,
  index_axes index ax (off + δ)
  = v ← index_axes index ax off; mret (shift_view δ v).
Proof.
  induction index as [|it index IH]; intros ax off δ; [done|].
  destruct ax as [|[d s] ax]; [done|]. destruct it as [i|a b c|]; cbn [index_axes].
  - destruct (_ && _); [|done].
    replace (off + δ + (if i <? 0 then i + d else i) * s)
      with (off + (if i <? 0 then i + d else i) * s + δ) by lia.
    apply IH.
  - destruct (slice_adjust d a b c) as [[[start step] n]|e]; [|done].
    rewrite !bind_Ok.
    replace (off + δ + start * s) with (off + start * s + δ) by lia.
    rewrite IH. by destruct (index_axes index ax (off + start * s)).
  - done.
Qed.

Lemma index_axes_addrs index : ∀ ax off v,
  Forall (λ ds, 0 ≤ ds.1) ax →
  index_axes index ax off = Ok v →
  wf_view v ∧ addrs (axes v) (offset v) ⊆ addrs ax off.
Proof.
  induction index as [|it index IH]; intros ax off v Hax Hv.
  { injection Hv as <-. done. }
  destruct ax as [|[d s] ax]; [done|]. apply Forall_cons in Hax as [Hd Hax].
  cbn in Hd. destruct it as [i|a b c|]; cbn [index_axes] in Hv; [| |done].
  - set (i' := if i <? 0 then i + d else i) in *.
    destruct ((0 <=? i') && (i' <? d)) eqn:Hi; [|done].
    apply andb_true_iff in Hi as [H0%Z.leb_le H1%Z.ltb_lt].
    destruct (IH _ _ _ Hax Hv) as [Hwf Hsub]. split; [done|].
    intros p Hp. cbn [addrs]. apply list_elem_of_bind. exists i'.
    split; [by apply Hsub|]. apply elem_of_seqZ. lia.
  - destruct (slice_adjust d a b c) as [[[start step] n]|e] eqn:Hsl; [|done].
    rewrite bind_Ok in Hv.
    destruct (index_axes index ax (off + start * s)) as [v'|] eqn:Hv'; [|done].
    injection Hv as <-.
    destruct (slice_adjust_range _ _ _ _ _ _ _ Hd Hsl) as (Hn & _ & Hrange).
    destruct (IH _ _ _ Hax Hv') as [Hwf Hsub]. split.
    { apply Forall_cons. done. }
    cbn [axes offset addrs]. intros p (j & Hp & Hj)%list_elem_of_bind.
    apply elem_of_seqZ in Hj. apply list_elem_of_bind.
    exists (start + j * step). split; [|apply elem_of_seqZ; specialize (Hrange j); lia].
    pose proof (index_axes_shift index ax (off + start * s) (j * (s * step))) as Hsh.
    rewrite Hv', bind_Ok in Hsh.
    replace (off + (start + j * step) * s)
      with (off + start * s + j * (s * step)) by lia.
    by apply (IH _ _ _ Hax Hsh).
Qed.

(** *** Views that visit no position twice *)

Lemma NoDup_bind_block {A B} (f : A → list B) (l : list A) x :
  NoDup (l ≫= f) → x ∈ l → NoDup (f x).
Proof.
  induction l as [|y l IH]; [by intros _ ?%elem_of_nil|].
  cbn [mbind list_bind]. intros [Hy [_ Hl]]%NoDup_app [->|Hx]%elem_of_cons; auto.
Qed.

Lemma NoDup_bind_disjoint {A B} (f : A → list B) (l : list A) x1 x2 y :
  NoDup (l ≫= f) → x1 ∈ l → x2 ∈ l → y ∈ f x1 → y ∈ f x2 → x1 = x2.
Proof.
  induction l as [|x l IH]; [by intros _ ?%elem_of_nil|].
  cbn [mbind list_bind]. intros [Hx [Hdisj Hl]]%NoDup_app.
  intros [->|H1]%elem_of_cons [->|H2]%elem_of_cons Hy1 Hy2; [done| | |by apply IH].
  - exfalso. apply (Hdisj y Hy1). apply list_elem_of_bind. eauto.
  - exfalso. apply (Hdisj y Hy2). apply list_elem_of_bind. eauto.
Qed.

Lemma index_axes_NoDup index : ∀ ax off v,
  Forall (λ ds, 0 ≤ ds.1) ax →
  index_axes index ax off = Ok v →
  NoDup (addrs ax off) → NoDup (addrs (axes v) (offset v)).
Proof.
  induction index as [|it index IH]; intros ax off v Hax Hv Hnd.
  { by injection Hv as <-. }
  destruct ax as [|[d s] ax]; [done|]. apply Forall_cons in Hax as [Hd Hax].
  cbn in Hd. cbn [addrs] in Hnd.
  destruct it as [i|a b c|]; cbn [index_axes] in Hv; [| |done].
  - set (i' := if i <? 0 then i + d else i) in *.
    destruct ((0 <=? i') && (i' <? d)) eqn:Hi; [|done].
    apply andb_true_iff in Hi as [H0%Z.leb_le H1%Z.ltb_lt].
    apply (IH _ _ _ Hax Hv).
    apply (NoDup_bind_block _ _ i' Hnd). apply elem_of_seqZ. lia.
  - destruct (slice_adjust d a b c) as [[[start step] n]|e] eqn:Hsl; [|done].
    rewrite bind_Ok in Hv.
    destruct (index_axes index ax (off + start * s)) as [v'|] eqn:Hv'; [|done].
    injection Hv as <-. cbn [axes offset addrs].
    destruct (slice_adjust_range _ _ _ _ _ _ _ Hd Hsl) as (Hn & Hstep & Hrange).
    assert (∀ j, index_axes index ax (off + (start + j * step) * s)
                 = Ok (shift_view (j * (s * step)) v')) as Hsh.
    { intros j.
      replace (off + (start + j * step) * s)
        with (off + start * s + j * (s * step)) by lia.
      by rewrite index_axes_shift, Hv'. }
    apply NoDup_bind.
    + intros j1 j2 y Hj1%elem_of_seqZ Hj2%elem_of_seqZ Hy1 Hy2.
      assert (start + j1 * step = start + j2 * step) as Heq.
      { apply (NoDup_bind_disjoint _ _ _ _ y Hnd).
        - apply elem_of_seqZ. specialize (Hrange j1). lia.
        - apply elem_of_seqZ. specialize (Hrange j2). lia.
        - by apply (index_axes_addrs _ _ _ _ Hax (Hsh j1)).
        - by apply (index_axes_addrs _ _ _ _ Hax (Hsh j2)). }
      nia.
    + intros j Hj%elem_of_seqZ.
      apply (IH _ _ _ Hax (Hsh j)).
      apply (NoDup_bind_block _ _ _ Hnd). apply elem_of_seqZ.
      specialize (Hrange j). lia.
    + apply NoDup_seqZ.
Qed.

Lemma view_getitem_wf v index v' :
  wf_array v → view_getitem v index = Ok v' →
  wf_array v' ∧ vaddrs v' ⊆ vaddrs v.
Proof.
  intros [Hwf Hnd] Hv. unfold view_getitem in Hv.
  apply bind_result_Ok in Hv as (index' & _ & Hv).
  destruct (index_axes_addrs _ _ _ _ Hwf Hv) as [Hwf' Hsub].
  split; [split|]; [done| |done]. by apply (index_axes_NoDup _ _ _ _ Hwf Hv).
Qed.

(** Values read through a sub-view: what is distinct in the view stays
    distinct. *)
Lemma NoDup_filter_fmap_inj {A B} (f : A → B) (P : B → Prop)
    `{∀ y, Decision (P y)} (l : list A) :
  NoDup l → NoDup (filter P (f <$> l)) →
  ∀ p q, p ∈ l → q ∈ l → P (f p) → f p = f q → p = q.
Proof.
  induction l as [|x l IH]; [by intros _ _ p q ?%elem_of_nil|].
  intros [Hx Hl]%NoDup_cons. cbn [fmap list_fmap]. rewrite filter_cons.
  intros Hnd p q [->|Hp]%elem_of_cons [->|Hq]%elem_of_cons HP Heq; [done| | |].
  - exfalso. rewrite decide_True in Hnd by done.
    apply NoDup_cons in Hnd as [Hnot _]. apply Hnot.
    apply list_elem_of_filter. split; [done|]. rewrite Heq.
    by apply list_elem_of_fmap_2.
  - exfalso. rewrite decide_True in Hnd by (by rewrite <- Heq).
    apply NoDup_cons in Hnd as [Hnot _]. apply Hnot.
    apply list_elem_of_filter. split; [by rewrite <- Heq|]. rewrite <- Heq.
    by apply list_elem_of_fmap_2.
  - apply IH; try done. case_decide; [by apply NoDup_cons in Hnd as [_ ?]|done].
Qed.

Lemma NoDup_filter_fmap_sub {A B} (f : A → B) (P : B → Prop)
    `{∀ y, Decision (P y)} (l l' : list A) :
  NoDup l → NoDup (filter P (f <$> l)) → NoDup l' → l' ⊆ l →
  NoDup (filter P (f <$> l')).
Proof.
  intros Hl Hfl Hl' Hsub.
  pose proof (NoDup_filter_fmap_inj f P l Hl Hfl) as Hinj. clear Hfl.
  induction Hl' as [|x l' Hx Hl' IH]; [constructor|].
  cbn [fmap list_fmap]. rewrite filter_cons. case_decide as HP.
  - apply NoDup_cons. split; [|apply IH; set_solver].
    intros [_ (q & Heq & Hq)%list_elem_of_fmap]%list_elem_of_filter.
    assert (x = q) as -> by (apply Hinj; set_solver). done.
  - apply IH. set_solver.
Qed.

(** *** Reshaping without a copy *)

Lemma prod_list_app l q : prod_list (l ++ q) = prod_list l * prod_list q.
Proof.
  induction l as [|d l IH]; cbn [app prod_list foldr]; [unfold prod_list; lia|].
  fold (prod_list (l ++ q)) (prod_list l). rewrite IH. lia.
Qed.

Lemma prod_list_pos l : Forall (λ d, 0 < d) l → 0 < prod_list l.
Proof. induction 1; cbn; [lia | by apply Z.mul_pos_pos]. Qed.

Lemma prod_list_one l :
  Forall (λ d, 0 < d) l → prod_list l = 1 → Forall (λ d, d = 1) l.
Proof.
  induction 1 as [|d l Hd Hl IH]; [done|]. cbn [prod_list foldr].
  fold (prod_list l). intros Hp. pose proof (prod_list_pos _ Hl).
  assert (d = 1 ∧ prod_list l = 1) as [-> Hp'] by nia.
  constructor; [done|by apply IH].
Qed.

Lemma positive_dims l :
  Forall (λ d, 0 ≤ d) l → 0 < prod_list l → Forall (λ d, 0 < d) l.
Proof.
  induction 1 as [|d l Hd Hl IH]; [done|]. cbn [prod_list foldr].
  fold (prod_list l). intros Hp. pose proof (prod_list_nonneg _ Hl).
  constructor; [nia|]. apply IH. nia.
Qed.

Lemma bind_bind {A B C} (f : A → list B) (g : B → list C) (l : list A) :
  (l ≫= f) ≫= g = l ≫= λ x, f x ≫= g.
Proof.
  induction l as [|x l IH]; [done|]. cbn [mbind list_bind].
  by rewrite bind_app, IH.
Qed.

Lemma addrs_app ax1 ax2 : ∀ off,
  addrs (ax1 ++ ax2) off = addrs ax1 off ≫= addrs ax2.
Proof.
  induction ax1 as [|[d s] ax1 IH]; intros off.
  { cbn. by rewrite app_nil_r. }
  cbn [app addrs]. rewrite bind_bind.
  apply list_bind_ext; [|done]. intros j. apply IH.
Qed.

Lemma addrs_one_axis d s off :
  addrs [(d, s)] off = (λ j, off + j * s) <$> seqZ 0 d.
Proof.
  cbn [addrs]. induction (seqZ 0 d) as [|j js IH]; [done|].
  cbn [mbind list_bind fmap list_fmap app]. by rewrite IH.
Qed.

(** An axis of [d] blocks of [p] positions of stride [s] is one axis of
    [d * p] positions. *)
Lemma addrs_merge d p s off : 0 ≤ d → 0 ≤ p →
  seqZ 0 d ≫= (λ j, addrs [(p, s)] (off + j * (p * s)))
  = addrs [(d * p, s)] off.
Proof.
  intros Hd Hp. rewrite addrs_one_axis.
  rewrite <- (Z2Nat.id d Hd), <- (seqZ_blocks _ 0 p) by done.
  rewrite fmap_list_bind. apply list_bind_ext; [|done]. intros j.
  rewrite addrs_one_axis. replace (0 + j * p) with (j * p + 0) by lia.
  rewrite <- fmap_add_seqZ, <- list_fmap_compose. apply list_fmap_ext. intros _ i _. cbn. lia.
Qed.

Lemma addrs_ones ax : ∀ off, Forall (λ ds, ds.1 = 1) ax → addrs ax off = [off].
Proof.
  induction ax as [|[d s] ax IH]; intros off Hax; [done|].
  apply Forall_cons in Hax as [Hd Hax]. cbn in Hd. subst d.
  cbn [addrs]. rewrite seqZ_1. cbn [mbind list_bind]. rewrite app_nil_r.
  rewrite IH by done. f_equal. lia.
Qed.

Lemma addrs_squeeze ax : ∀ off, addrs (squeeze_axes ax) off = addrs ax off.
Proof.
  unfold squeeze_axes.
  induction ax as [|[d s] ax IH]; intros off; [done|]. rewrite filter_cons.
  cbn [fst]. destruct (decide (d ≠ 1)) as [Hd|Hd].
  - cbn [addrs]. apply list_bind_ext; [|done]. intros j. apply IH.
  - assert (d = 1) as -> by lia. cbn [addrs]. rewrite seqZ_1.
    cbn [mbind list_bind]. rewrite app_nil_r, IH. f_equal. lia.
Qed.

Lemma prod_squeeze ax :
  prod_list (fst <$> squeeze_axes ax) = prod_list (fst <$> ax).
Proof.
  unfold squeeze_axes. induction ax as [|[d s] ax IH]; [done|].
  rewrite filter_cons. cbn [fst]. destruct (decide (d ≠ 1)) as [Hd|Hd].
  - cbn [fmap list_fmap prod_list foldr fst].
    fold (prod_list (fst <$> filter (λ ds : Z * Z, ds.1 ≠ 1) ax))
         (prod_list (fst <$> ax)). by rewrite IH.
  - assert (d = 1) as -> by lia. cbn [fmap list_fmap prod_list foldr fst].
    fold (prod_list (fst <$> ax)). rewrite IH. lia.
Qed.

Lemma fst_group_axes dims s : fst <$> group_axes dims s = dims.
Proof. induction dims; cbn; by f_equal. Qed.

(** The axes that split a group visit the positions of the one axis of the
    group. *)
Lemma addrs_group_axes dims s : ∀ off,
  Forall (λ d, 0 ≤ d) dims →
  addrs (group_axes dims s) off = addrs [(prod_list dims, s)] off.
Proof.
  induction dims as [|d dims IH]; intros off Hd.
  { rewrite addrs_one_axis. change (prod_list []) with 1. rewrite seqZ_1.
    cbn [fmap list_fmap addrs group_axes]. f_equal. lia. }
  apply Forall_cons in Hd as [Hd Hdims].
  cbn [group_axes prod_list foldr]. fold (prod_list dims).
  rewrite <- addrs_merge by (done || by apply prod_list_nonneg).
  cbn [addrs]. apply list_bind_ext; [|done]. intros j. by rewrite IH.
Qed.

(** Axes that combine visit the positions of one axis, of the stride of the
    last of them. *)
Lemma mergeable_addrs og : ∀ dl sl,
  last og = Some (dl, sl) →
  Forall (λ ds, 0 ≤ ds.1) og → mergeable og = true →
  match og with
  | (_, s1) :: rest => s1 = prod_list (fst <$> rest) * sl
  | [] => True
  end ∧
  ∀ off, addrs og off = addrs [(prod_list (fst <$> og), sl)] off.
Proof.
  induction og as [|[d1 s1] og IH]; intros dl sl Hlast Hwf Hm; [done|].
  apply Forall_cons in Hwf as [Hd1 Hwf]. cbn in Hd1.
  destruct og as [|[d2 s2] og].
  { injection Hlast as -> ->. split; [unfold prod_list; cbn; lia|].
    intros off. cbn [fmap list_fmap fst prod_list foldr].
    by rewrite Z.mul_1_r. }
  cbn [mergeable] in Hm. apply andb_true_iff in Hm as [Hs1 Hm].
  apply Z.eqb_eq in Hs1.
  destruct (IH dl sl Hlast Hwf Hm) as [Hs2 Haddr].
  set (tail := (d2, s2) :: og) in *.
  assert (s1 = prod_list (fst <$> tail) * sl) as Hhead.
  { unfold tail. cbn [fmap list_fmap fst prod_list foldr].
    fold (prod_list (fst <$> og)). rewrite Hs1, Hs2. lia. }
  split; [done|]. intros off.
  cbn [fmap list_fmap fst prod_list foldr]. fold (prod_list (fst <$> tail)).
  rewrite <- addrs_merge; [|done|].
  2:{ apply prod_list_nonneg, Forall_fmap. by eapply Forall_impl. }
  cbn [addrs]. apply list_bind_ext; [|done]. intros j.
  rewrite Haddr, Hhead. done.
Qed.

Lemma take_group_spec fuel : ∀ np op ng og new old ng' og' new' old',
  take_group fuel np op ng og new old = Some (ng', og', new', old') →
  np = prod_list ng → op = prod_list (fst <$> og) →
  ng ++ new = ng' ++ new' ∧ og ++ old = og' ++ old' ∧
  prod_list ng' = prod_list (fst <$> og') ∧
  (∃ t, ng' = ng ++ t) ∧ (∃ t, og' = og ++ t).
Proof.
  assert (∀ np op (ng : list Z) (og : list (Z * Z)) new old ng' og' new' old',
    np = op → Some (ng, og, new, old) = Some (ng', og', new', old') →
    np = prod_list ng → op = prod_list (fst <$> og) →
    ng ++ new = ng' ++ new' ∧ og ++ old = og' ++ old' ∧
    prod_list ng' = prod_list (fst <$> og') ∧
    (∃ t, ng' = ng ++ t) ∧ (∃ t, og' = og ++ t)) as Hstop.
  { intros np op ng og new old ng' og' new' old' Heq [= <- <- <- <-] Hnp Hop.
    split_and!; [done|done|congruence| |]; exists []; by rewrite app_nil_r. }
  induction fuel as [|fuel IH]; intros np op ng og new old ng' og' new' old';
    cbn [take_group]; destruct (Z.eqb_spec np op) as [Heq|Hne];
    [by apply Hstop|done|by apply Hstop|].
  destruct (np <? op).
  - destruct new as [|d new]; [done|]. intros Hg Hnp Hop.
    apply IH in Hg as (Hn & Ho & Hp & [t Ht] & Hog); [| |done].
    2:{ rewrite prod_list_app, Hnp. unfold prod_list at 3. cbn. lia. }
    rewrite <- app_assoc in Hn. split_and!; [done..| |done].
    exists (d :: t). by rewrite Ht, <- app_assoc.
  - destruct old as [|[d s] old]; [done|]. intros Hg Hnp Hop.
    apply IH in Hg as (Hn & Ho & Hp & Hng & [t Ht]); [|done|].
    2:{ rewrite fmap_app, prod_list_app, Hop. unfold prod_list at 3. cbn. lia. }
    rewrite <- app_assoc in Ho. split_and!; [done..|].
    exists ((d, s) :: t). by rewrite Ht, <- app_assoc.
Qed.

(** The strides found for a new shape visit the positions of the old axes,
    in their order. *)
Lemma nocopy_axes_spec fuel : ∀ new old ls ax',
  nocopy_axes fuel new old ls = Some ax' →
  Forall (λ d, 0 < d) new → Forall (λ ds, 0 < ds.1) old →
  prod_list new = prod_list (fst <$> old) →
  fst <$> ax' = new ∧ ∀ off, addrs ax' off = addrs old off.
Proof.
  assert (∀ new old ls ax',
    new = [] ∨ old = [] →
    Some ((λ d, (d, ls)) <$> new) = Some ax' →
    Forall (λ d, 0 < d) new → Forall (λ ds : Z * Z, 0 < ds.1) old →
    prod_list new = prod_list (fst <$> old) →
    fst <$> ax' = new ∧ ∀ off, addrs ax' off = addrs old off) as Htrail.
  { intros new old ls ax' Hnil [= <-] Hnew Hold Hprod. split.
    { rewrite <- list_fmap_compose. by rewrite list_fmap_id. }
    assert (Forall (λ d, 0 < d) (fst <$> old)) as Hold'
      by (by apply Forall_fmap).
    assert (prod_list new = 1 ∧ prod_list (fst <$> old) = 1) as [Hn Ho].
    { destruct Hnil as [-> | ->]; cbn in *; unfold prod_list in *; cbn in *;
        lia. }
    intros off. rewrite !addrs_ones; [done| |].
    - apply prod_list_one in Ho; [|done]. by apply Forall_fmap in Ho.
    - apply prod_list_one in Hn; [|done]. apply Forall_fmap.
      eapply Forall_impl; [done|]. done. }
  induction fuel as [|fuel IH]; intros new old ls ax' Hrun Hnew Hold Hprod.
  - destruct new as [|d new], old as [|[od os] old]; cbn [nocopy_axes] in Hrun;
      [eapply Htrail; eauto..|done].
  - destruct new as [|d new], old as [|[od os] old]; cbn [nocopy_axes] in Hrun;
      [eapply Htrail; eauto..|].
    destruct (take_group _ d od [d] [(od, os)] new old)
      as [[[[ng og] new''] old'']|] eqn:Hg; [|done].
    cbn [mbind option_bind] in Hrun.
    destruct (mergeable og) eqn:Hm; [|done].
    apply take_group_spec in Hg
      as (Hn & Ho & Hp & [tn Htn] & [to Hto]);
      [|unfold prod_list; cbn; lia..].
    set (s := default os (snd <$> last og)) in *.
    destruct (nocopy_axes fuel new'' old'' s) as [rest|] eqn:Hrest; [|done].
    injection Hrun as <-. cbn [app] in Hn, Ho.
    assert (Forall (λ d, 0 < d) ng ∧ Forall (λ d, 0 < d) new'') as [Hng Hnew''].
    { apply Forall_app. by rewrite <- Hn. }
    assert (Forall (λ ds : Z * Z, 0 < ds.1) og ∧
            Forall (λ ds : Z * Z, 0 < ds.1) old'') as [Hog Hold''].
    { apply Forall_app. by rewrite <- Ho. }
    assert (prod_list new'' = prod_list (fst <$> old'')) as Hprod''.
    { rewrite Hn, Ho, fmap_app, !prod_list_app, Hp in Hprod.
      pose proof (prod_list_pos _ Hng). rewrite Hp in H.
      apply Z.mul_cancel_l in Hprod; [done|lia]. }
    destruct (IH _ _ _ _ Hrest Hnew'' Hold'' Hprod'') as [Hfst Haddr].
    split.
    { by rewrite fmap_app, fst_group_axes, Hfst, Hn. }
    intros off. rewrite Ho, !addrs_app.
    assert (∃ dl, last og = Some (dl, s)) as [dl Hlast].
    { unfold s. rewrite Hto. destruct to as [|x to _] using rev_ind.
      - cbn. by eexists.
      - rewrite app_assoc, last_snoc. cbn. destruct x. by eexists. }
    destruct (mergeable_addrs og dl s Hlast) as [_ Hmerge]; [|done|].
    { eapply Forall_impl; [done|]. cbn. lia. }
    rewrite addrs_group_axes, Hp, <- Hmerge.
    2:{ eapply Forall_impl; [done|]. cbn. lia. }
    apply list_bind_ext; [|done]. intros base. apply Haddr.
Qed.

(** A group is always found when the products of the dimensions agree: the
    lists of dimensions do not run out. *)
Lemma take_group_total fuel : ∀ np op ng og new old,
  0 < np → 0 < op →
  Forall (λ d, 0 < d) new → Forall (λ ds : Z * Z, 0 < ds.1) old →
  np * prod_list new = op * prod_list (fst <$> old) →
  (length new + length old ≤ fuel)%nat →
  is_Some (take_group fuel np op ng og new old).
Proof.
  induction fuel as [|fuel IH]; intros np op ng og new old Hnp Hop Hnew Hold
    Hprod Hfuel; cbn [take_group]; destruct (Z.eqb_spec np op) as [Heq|Hne];
    [done| |done|].
  - destruct new, old; cbn in Hfuel; try lia.
    unfold prod_list in Hprod. cbn in Hprod. lia.
  - assert (0 < prod_list new) as Hpn by (by apply prod_list_pos).
    assert (0 < prod_list (fst <$> old)) as Hpo
      by (by apply prod_list_pos, Forall_fmap).
    destruct (Z.ltb_spec np op) as [Hlt|Hge].
    + destruct new as [|d new].
      { unfold prod_list in Hprod at 1. cbn in Hprod. nia. }
      apply Forall_cons in Hnew as [Hd Hnew].
      cbn [prod_list foldr] in Hprod. fold (prod_list new) in Hprod.
      cbn [length] in Hfuel. apply IH; [nia|done|done|done|lia|lia].
    + destruct old as [|[d s] old].
      { unfold prod_list in Hprod at 2. cbn in Hprod. nia. }
      apply Forall_cons in Hold as [Hd Hold]. cbn in Hd.
      cbn [fmap list_fmap fst prod_list foldr] in Hprod.
      fold (prod_list (fst <$> old)) in Hprod.
      cbn [length] in Hfuel. apply IH; [done|nia|done|done|lia|lia].
Qed.

(** [Forall] over a list that computes to a literal. *)
Ltac forall_literal l :=
  match goal with
  | |- Forall ?P _ => change (Forall P l)
  end;
  repeat (apply Forall_cons_2; [cbn; lia|]); apply Forall_nil_2.

(** [NoDup] of a list of integers that computes to a literal. *)
Ltac nodup_literal :=
  match goal with
  | |- ?P => apply (@bool_decide_unpack P _)
  end;
  vm_compute; exact I.

(** A concrete view is well formed. *)
Ltac wf_array_literal ax :=
  split; [unfold wf_view; forall_literal ax | nodup_literal].

(** ** The masked parameter store *)

Module StoreFacts.
Import ModelParams.

(** *** Flat-data primitives *)

Lemma wrap32_small x : - 2 ^ 31 ≤ x < 2 ^ 31 → wrap32 x = x.
Proof. intros. unfold wrap32. rewrite Z.mod_small; lia. Qed.

Lemma select_self bs : select bs bs = replicate (count_true bs) true.
Proof.
  unfold count_true. induction bs as [|[] bs IH]; [done| |]; cbn [select].
  - rewrite filter_cons_True by done. cbn. by f_equal.
  - by rewrite filter_cons_False by done.
Qed.

Lemma cumsum_ones k : ∀ acc,
  cumsum_from acc (Z.b2z <$> replicate k true) = seqZ (acc + 1) (Z.of_nat k).
Proof.
  induction k as [|k IH]; intros acc; [done|].
  cbn [replicate fmap list_fmap cumsum_from Z.b2z]. rewrite IH.
  rewrite (seqZ_cons (acc + 1)) by lia. f_equal. f_equal; lia.
Qed.

Lemma count_true_cons b bs :
  count_true (b :: bs) = ((if b then 1 else 0) + count_true bs)%nat.
Proof.
  unfold count_true. destruct b.
  - by rewrite filter_cons_True.
  - by rewrite filter_cons_False.
Qed.

Lemma mask_assign_ranks bs : ∀ c,
  0 ≤ c → c + Z.of_nat (count_true bs) < 2 ^ 31 →
  (λ x, wrap32 (x - 1))
    <$> mask_assign (replicate (length bs) 0) bs
          (wrap32 <$> seqZ (c + 1) (Z.of_nat (count_true bs)))
  = index_volume_spec c bs.
Proof.
  induction bs as [|b bs IH]; intros c Hc Hlt; [done|].
  rewrite count_true_cons in Hlt |- *. destruct b.
  - rewrite Nat2Z.inj_add, (seqZ_cons (c + 1)) by lia.
    cbn [length replicate fmap list_fmap mask_assign index_volume_spec].
    rewrite (wrap32_small (c + 1)) by lia. rewrite wrap32_small by lia.
    f_equal; [lia|]. rewrite <- IH by lia. do 4 f_equal; lia.
  - cbn [length replicate fmap list_fmap mask_assign index_volume_spec].
    f_equal. by apply IH.
Qed.

Lemma index_volume_spec_length bs : ∀ c,
  length (index_volume_spec c bs) = length bs.
Proof. induction bs as [|[] bs IH]; intros c; cbn; by f_equal. Qed.

Lemma index_volume_spec_ge bs : ∀ c,
  0 ≤ c → Forall (λ x, -1 ≤ x) (index_volume_spec c bs).
Proof.
  induction bs as [|[] bs IH]; intros c Hc; cbn; constructor;
    try lia; apply IH; lia.
Qed.

Lemma index_volume_spec_rows bs : ∀ c,
  0 ≤ c →
  filter (λ x, 0 ≤ x) (index_volume_spec c bs)
  = seqZ c (Z.of_nat (count_true bs)).
Proof.
  induction bs as [|b bs IH]; intros c Hc; [done|].
  rewrite count_true_cons. destruct b; cbn [index_volume_spec].
  - rewrite filter_cons_True by done. rewrite IH by lia.
    rewrite Nat2Z.inj_add, (seqZ_cons c) by lia. do 2 f_equal; lia.
  - rewrite filter_cons_False by lia. by apply IH.
Qed.

Lemma index_volume_spec_outside bs : ∀ c p,
  0 ≤ c →
  index_volume_spec c bs !! p = Some (-1) ↔ bs !! p = Some false.
Proof.
  induction bs as [|b bs IH]; intros c p Hc; [done|].
  destruct p as [|p], b; cbn [index_volume_spec lookup list_lookup].
  - split; intros [=]; lia.
  - done.
  - apply IH; lia.
  - by apply IH.
Qed.

Lemma lookup_all {T} `{Inhabited T} (l : list T) :
  (λ p, l !!! Z.to_nat p) <$> seqZ 0 (Z.of_nat (length l)) = l.
Proof.
  apply list_eq. intros i. rewrite list_lookup_fmap.
  destruct (decide (i < length l)%nat) as [Hi|Hi].
  - rewrite lookup_seqZ_lt by lia. cbn. rewrite Z.add_0_l, Nat2Z.id.
    destruct (lookup_lt_is_Some_2 l i Hi) as [x Hx].
    by rewrite (list_lookup_total_correct _ _ _ Hx).
  - rewrite lookup_seqZ_ge by lia. cbn. symmetry. apply lookup_ge_None. lia.
Qed.

Lemma elems_fresh {T} `{Inhabited T} shp (data : list T) :
  Forall (λ d, 0 ≤ d) shp → Z.of_nat (length data) = prod_list shp →
  elems (fresh shp data) = data.
Proof.
  intros Hshp Hlen. unfold elems, fresh, vaddrs, c_view. cbn.
  rewrite addrs_c_axes, <- Hlen by done. apply lookup_all.
Qed.

Lemma select_nonneg (l : list Z) :
  select ((λ x, bool_decide (0 ≤ x)) <$> l) l = filter (λ x, 0 ≤ x) l.
Proof.
  induction l as [|x l IH]; [done|]. cbn [fmap list_fmap select].
  rewrite filter_cons. case_bool_decide; case_decide; try lia; by f_equal.
Qed.

(** *** Construction of a store *)

Section Store.
Context {A : Type}.
Implicit Types (h : heap A) (self : t).

Lemma init_unfold h mask data d :
  wf_mask mask → h !! data = Some d →
  let k := Z.of_nat (count_true (bdata mask)) in
  __init__ h mask data
  = (last_index ← py_last (seqZ 1 k);
     if Z.of_nat (length (drows d)) =? last_index
     then mret (Make (NdArray
                 ((λ x, wrap32 (x - 1))
                    <$> mask_assign (replicate (length (bdata mask)) 0)
                          (bdata mask) (wrap32 <$> seqZ 1 k))
                 (c_view (bshape mask))) false data)
     else Raise (ValueError msg_data_mask)).
Proof.
  intros [Hshp Hlen] Hd k. unfold __init__, astype_bool, np_zeros.
  rewrite bool_decide_eq_false_2
    by (rewrite Exists_exists; intros (x & Hx & ?);
        eapply Forall_forall in Hshp; [|done]; cbn in Hshp; lia).
  cbn [mret result_ret]. rewrite bind_Ok. cbn [fresh buf vw].
  rewrite select_self. unfold np_cumsum. rewrite cumsum_ones. cbn [Z.add].
  fold k. rewrite <- Hlen, Nat2Z.id. unfold setitem_mask.
  rewrite decide_True by (by rewrite length_replicate).
  unfold broadcast_rows.
  rewrite decide_True by (rewrite length_fmap, length_seqZ; unfold k; lia).
  cbn [mret result_ret]. rewrite !bind_Ok. unfold deref. rewrite Hd.
  cbn [mret result_ret]. by rewrite bind_Ok.
Qed.

Lemma py_last_seqZ k : 0 < k → py_last (seqZ 1 k) = Ok k.
Proof.
  intros Hk. unfold py_last.
  replace k with (Z.of_nat (S (Z.to_nat (k - 1)))) at 1 by lia.
  rewrite seqZ_S, last_snoc. cbn. f_equal. lia.
Qed.

Lemma init_success h mask data d :
  wf_mask mask → h !! data = Some d →
  length (drows d) = count_true (bdata mask) →
  0 < Z.of_nat (count_true (bdata mask)) < 2 ^ 31 →
  __init__ h mask data
  = Ok (Make (fresh (bshape mask) (index_volume_spec 0 (bdata mask))) false data).
Proof.
  intros Hwf Hd Hrows Hk. rewrite (init_unfold _ _ _ d) by done. cbv zeta.
  rewrite py_last_seqZ, bind_Ok by lia. rewrite Hrows, Z.eqb_refl.
  cbn [mret result_ret]. unfold fresh. do 3 f_equal.
  change (seqZ 1) with (seqZ (0 + 1)). apply mask_assign_ranks; lia.
Qed.

Lemma init_empty h mask data d :
  wf_mask mask → h !! data = Some d → count_true (bdata mask) = 0%nat →
  __init__ h mask data
  = Raise (IndexError "index -1 is out of bounds for axis 0 with size 0").
Proof.
  intros Hwf Hd Hk. rewrite (init_unfold _ _ _ d) by done. cbv zeta.
  by rewrite Hk.
Qed.

Lemma init_mismatch h mask data d :
  wf_mask mask → h !! data = Some d →
  (0 < count_true (bdata mask))%nat →
  length (drows d) ≠ count_true (bdata mask) →
  __init__ h mask data = Raise (ValueError msg_data_mask).
Proof.
  intros Hwf Hd Hk Hne. rewrite (init_unfold _ _ _ d) by done. cbv zeta.
  rewrite py_last_seqZ, bind_Ok by lia.
  destruct (Z.eqb_spec (Z.of_nat (length (drows d)))
              (Z.of_nat (count_true (bdata mask)))); [lia|done].
Qed.

Lemma init_Ok_inv h mask data d self :
  wf_mask mask → h !! data = Some d →
  __init__ h mask data = Ok self →
  length (drows d) = count_true (bdata mask) ∧
  (0 < count_true (bdata mask))%nat.
Proof.
  intros Hwf Hd Hinit.
  destruct (decide (count_true (bdata mask) = 0%nat)) as [Hz|Hz].
  { by rewrite (init_empty _ _ _ d) in Hinit. }
  destruct (decide (length (drows d) = count_true (bdata mask))) as [He|He].
  { split; [done|lia]. }
  rewrite (init_mismatch _ _ _ d) in Hinit by (done || lia). done.
Qed.

Lemma wf_array_c_view shp : Forall (λ d, 0 ≤ d) shp → wf_array (c_view shp).
Proof.
  intros Hshp. split.
  - unfold wf_view. cbn. clear -Hshp. induction Hshp; cbn; constructor; done.
  - unfold vaddrs. cbn. rewrite addrs_c_axes by done. apply NoDup_seqZ.
Qed.

Lemma compact_fresh h mask data d :
  wf_mask mask → h !! data = Some d →
  length (drows d) = count_true (bdata mask) →
  compact h (Make (fresh (bshape mask) (index_volume_spec 0 (bdata mask))) false data).
Proof.
  intros [Hshp Hlen] Hd Hrows. split.
  - by apply wf_array_c_view.
  - exists d. cbn [_imask _data]. rewrite elems_fresh
      by (done || by rewrite index_volume_spec_length).
    split_and!; [done|by apply index_volume_spec_ge|].
    rewrite Hrows. by apply index_volume_spec_rows.
Qed.

Lemma compact_index_ok h self : compact h self → index_ok h self.
Proof.
  intros (Hwf & d & Hd & Hge & Hrows). split; [done|]. exists d.
  split_and!; [done| |rewrite Hrows; apply NoDup_seqZ].
  apply Forall_forall. intros x Hx.
  destruct (decide (0 ≤ x)) as [Hx0|Hx0].
  - right. assert (x ∈ seqZ 0 (Z.of_nat (length (drows d)))) as Hin.
    { rewrite <- Hrows. by apply list_elem_of_filter. }
    apply elem_of_seqZ in Hin. lia.
  - left. eapply Forall_forall in Hge; [|done]. cbn in Hge. lia.
Qed.

(** *** Views of a store *)

Lemma elems_subseteq {T} `{Inhabited T} (b : list T) v v' :
  vaddrs v' ⊆ vaddrs v → elems (NdArray b v') ⊆ elems (NdArray b v).
Proof.
  intros Hsub x (p & -> & Hp)%list_elem_of_fmap.
  apply list_elem_of_fmap. exists p. split; [done|]. by apply Hsub.
Qed.

Lemma getitem_index_ok h self index new :
  index_ok h self → __getitem__ self index = Ok new →
  index_ok h new ∧ _data new = _data self ∧
  buf (_imask new) = buf (_imask self) ∧
  elems (_imask new) ⊆ elems (_imask self).
Proof.
  intros (Hwf & d & Hd & Hall & Hnd) Hget. unfold __getitem__, getitem in Hget.
  destruct (view_getitem (vw (_imask self)) index) as [v|] eqn:Hv; [|done].
  injection Hget as <-. cbn [_imask _data buf].
  destruct (view_getitem_wf _ _ _ Hwf Hv) as [Hwf' Hsub].
  assert (elems (NdArray (buf (_imask self)) v) ⊆ elems (_imask self)) as Hel.
  { destruct (_imask self) as [b v0]. by apply elems_subseteq. }
  split_and!; [|done..]. split; [done|]. exists d. split_and!; [done| |].
  - apply Forall_forall. intros x Hx. eapply Forall_forall in Hall; [done|].
    by apply Hel.
  - unfold elems in *. cbn [buf vw].
    apply NoDup_filter_fmap_sub with (vaddrs (vw (_imask self)));
      [apply Hwf|done|apply Hwf'|done].
Qed.

(** *** Reshaping in place *)

Lemma prod_list_replace q value :
  prod_list ((λ d, if d <? 0 then q else d) <$> value)
  = prod_list (filter (λ d, 0 ≤ d) value)
    * q ^ Z.of_nat (length (filter (λ d, d < 0) value)).
Proof.
  induction value as [|d value IH]; [done|].
  cbn [fmap list_fmap prod_list foldr].
  fold (prod_list ((λ d, if d <? 0 then q else d) <$> value)).
  rewrite IH. rewrite !filter_cons. destruct (Z.ltb_spec d 0) as [Hd|Hd].
  - rewrite decide_False by lia. rewrite decide_True by done. cbn [length].
    rewrite Nat2Z.inj_succ, Z.pow_succ_r by lia. lia.
  - rewrite decide_True by done. rewrite decide_False by lia.
    cbn [prod_list foldr]. fold (prod_list (filter (λ d, 0 ≤ d) value)). lia.
Qed.

Lemma filter_all {T} (P Q : T → Prop) `{∀ x, Decision (P x)}
    `{∀ x, Decision (Q x)} (l : list T) :
  (∀ x, P x ∨ Q x) → length (filter Q l) = 0%nat → filter P l = l.
Proof.
  intros HPQ. induction l as [|x l IH]; [done|]. rewrite !filter_cons.
  destruct (decide (Q x)); [done|]. intros Hl.
  rewrite decide_True by (destruct (HPQ x); done). f_equal. auto.
Qed.

Lemma infer_shape_ok total value shp :
  0 ≤ total → infer_shape total value = Ok shp →
  Forall (λ d, 0 ≤ d) shp ∧ prod_list shp = total ∧
  Forall2 (λ given d, 0 ≤ d ∧ (0 ≤ given → d = given)) value shp ∧
  (Forall (λ d, 0 ≤ d) value → shp = value).
Proof.
  intros Htot. unfold infer_shape.
  set (known := prod_list (filter (λ d, 0 ≤ d) value)).
  assert (Forall (λ d, 0 ≤ d) (filter (λ d, 0 ≤ d) value)) as Hknown.
  { apply Forall_forall. by intros x [Hx1 Hx]%list_elem_of_filter. }
  destruct (length (filter (λ d, d < 0) value)) as [|[|n]] eqn:Hcount.
  - destruct (Z.eqb_spec total known) as [->|]; [|done]. intros [= <-].
    assert (filter (λ d, 0 ≤ d) value = value) as Heq.
    { apply (filter_all _ (λ d, d < 0)); [lia|done]. }
    unfold known. rewrite Heq in Hknown |- *. split_and!; [done..| |done].
    clear -Hknown. induction Hknown; constructor; done.
  - destruct (Z.eqb_spec known 0) as [|Hk0]; [done|].
    destruct (Z.eqb_spec (total `mod` known) 0) as [Hmod|]; [|done].
    cbn [orb negb]. intros [= <-].
    assert (0 < known) as Hkpos.
    { pose proof (prod_list_nonneg _ Hknown). fold known in H. lia. }
    split_and!.
    + apply Forall_fmap, Forall_forall. intros x Hx. cbn.
      destruct (Z.ltb_spec x 0); [apply Z.div_pos; lia|done].
    + rewrite prod_list_replace, Hcount. fold known.
      change (Z.of_nat 1) with 1. rewrite Z.pow_1_r.
      pose proof (Z.div_mod total known Hk0). lia.
    + apply Forall2_fmap_r, Forall_Forall2_diag, Forall_forall.
      intros x _. cbn. destruct (Z.ltb_spec x 0); [|done].
      split; [apply Z.div_pos; lia|lia].
    + intros Hnn. exfalso.
      assert (length (filter (λ d, d < 0) value) = 0%nat) as Hnil.
      { clear -Hnn. induction Hnn as [|x l Hx _ IH]; [done|].
        by rewrite filter_cons_False by lia. }
      by rewrite Hnil in Hcount.
  - done.
Qed.

Lemma wf_view_c_axes off shp :
  Forall (λ d, 0 ≤ d) shp → wf_view (View off (c_axes shp)).
Proof.
  intros Hnn. unfold wf_view. cbn.
  induction Hnn; cbn; constructor; done.
Qed.

(** Reshaping in place keeps the positions visited and their order, also
    for a view that is not contiguous. *)
Lemma set_shape_addrs v value v' :
  wf_view v → set_shape v value = Ok v' →
  wf_view v' ∧ vaddrs v' = vaddrs v ∧
  Forall2 (λ given d, 0 ≤ d ∧ (0 ≤ given → d = given)) value (vshape v') ∧
  (Forall (λ d, 0 ≤ d) value → vshape v' = value).
Proof.
  intros Hwf Hset. unfold set_shape in Hset.
  assert (Forall (λ d, 0 ≤ d) (vshape v)) as Hnnv
    by (apply Forall_fmap; by eapply Forall_impl).
  case_bool_decide as Hsame.
  { injection Hset as <-. split_and!; [done..| |done]. rewrite Hsame.
    apply Forall_Forall2_diag. eapply Forall_impl; [done|]. done. }
  apply bind_result_Ok in Hset as (shp & Hshp & Hset).
  apply infer_shape_ok in Hshp as (Hnn & Hprod & Hgiven & Hvalue);
    [|by apply prod_list_nonneg].
  destruct (is_c_contiguous v) eqn:Hc.
  - injection Hset as <-. split_and!.
    + by apply wf_view_c_axes.
    + rewrite (vaddrs_contiguous v) by done. unfold vaddrs. cbn [axes offset].
      rewrite addrs_c_axes by done. by rewrite Hprod.
    + unfold vshape. cbn [axes]. by rewrite vshape_c_axes.
    + intros Hv. unfold vshape. cbn [axes]. rewrite vshape_c_axes. auto.
  - destruct (nocopy_axes _ shp (squeeze_axes (axes v)) 1) as [ax|] eqn:Hax;
      [|done].
    injection Hset as <-.
    apply orb_false_iff in Hc as [Hz _]. apply bool_decide_eq_false in Hz.
    assert (0 < prod_list (vshape v)) as Hpos.
    { apply prod_list_pos. apply Forall_forall. intros d Hd.
      eapply Forall_forall in Hnnv as Hd0; [|done]. cbn in Hd0.
      destruct (decide (d = 0)) as [->|]; [done|lia]. }
    apply nocopy_axes_spec in Hax as [Hfst Haddr].
    + split_and!.
      * unfold wf_view. cbn [axes].
        apply (proj1 (Forall_fmap fst (λ d, 0 ≤ d) ax)). by rewrite Hfst.
      * unfold vaddrs. cbn [axes offset]. by rewrite Haddr, addrs_squeeze.
      * unfold vshape. cbn [axes]. by rewrite Hfst.
      * intros Hv. unfold vshape. cbn [axes]. rewrite Hfst. auto.
    + apply positive_dims; [done|]. rewrite Hprod. exact Hpos.
    + unfold squeeze_axes. apply Forall_forall.
      intros ds [_ Hds]%list_elem_of_filter.
      apply positive_dims in Hnnv; [|done].
      apply (proj1 (Forall_fmap fst (λ d, 0 < d) (axes v))) in Hnnv.
      eapply Forall_forall in Hnnv; [|done]. exact Hnnv.
    + rewrite prod_squeeze. exact Hprod.
Qed.

Lemma set_shape_elems self value new :
  wf_array (vw (_imask self)) → _set_shape self value = Ok new →
  wf_array (vw (_imask new)) ∧ _data new = _data self ∧
  elems (_imask new) = elems (_imask self) ∧
  Forall2 (λ given d, 0 ≤ d ∧ (0 ≤ given → d = given))
          value (shape (_imask new)) ∧
  (Forall (λ d, 0 ≤ d) value → shape (_imask new) = value).
Proof.
  intros [Hwf Hnd] Hset. unfold _set_shape in Hset.
  destruct (_imask_scalar self); [done|].
  apply bind_result_Ok in Hset as (v & Hv & [= <-]).
  apply set_shape_addrs in Hv as (Hwf' & Haddr & Hgiven & Hshape); [|done].
  split_and!; [|done| |done|done].
  - split; [done|]. cbn [_imask vw]. by rewrite Haddr.
  - unfold elems. cbn. by rewrite Haddr.
Qed.
End Store.

(** *** Reading and writing rows *)

Section Rows.
Context {A : Type}.
Implicit Types (rs values : list A) (rows : list Z).

Lemma length_write_rows rows : ∀ rs values,
  length (write_rows rs rows values) = length rs.
Proof.
  induction rows as [|r rows IH]; intros rs [|v values]; try done.
  cbn [write_rows]. by rewrite IH, length_insert.
Qed.

Lemma write_rows_frame rows : ∀ rs values (r : nat),
  Forall (λ x, 0 ≤ x) rows → Z.of_nat r ∉ rows →
  write_rows rs rows values !! r = rs !! r.
Proof.
  induction rows as [|x rows IH]; intros rs [|v values] r Hnn Hr; try done.
  apply Forall_cons in Hnn as [Hx Hnn]. apply not_elem_of_cons in Hr as [Hne Hr].
  cbn [write_rows]. rewrite IH by done.
  destruct (Z.ltb_spec x 0); [lia|]. apply list_lookup_insert_ne. lia.
Qed.

Lemma write_rows_written rows : ∀ rs values (r : nat),
  Forall (λ x, 0 ≤ x < Z.of_nat (length rs)) rows →
  length values = length rows → Z.of_nat r ∈ rows →
  ∃ v, v ∈ values ∧ write_rows rs rows values !! r = Some v.
Proof.
  induction rows as [|x rows IH]; intros rs values r Hin Hlen Hr.
  { by apply elem_of_nil in Hr. }
  destruct values as [|v values]; [done|]. injection Hlen as Hlen.
  apply Forall_cons in Hin as [Hx Hin]. cbn [write_rows].
  destruct (Z.ltb_spec x 0); [lia|].
  destruct (decide (Z.of_nat r ∈ rows)) as [Hr'|Hr'].
  - destruct (IH (<[Z.to_nat x := v]> rs) values r) as (v' & Hv' & Hw);
      [by rewrite length_insert|done..|].
    exists v'. split; [by right|done].
  - apply elem_of_cons in Hr as [<-|]; [|done]. exists v. split; [by left|].
    rewrite write_rows_frame; [| |done].
    + rewrite Nat2Z.id. apply list_lookup_insert_eq. lia.
    + eapply Forall_impl; [done|]. cbn. lia.
Qed.

Lemma broadcast_rows_Ok n values :
  length values = 1%nat ∨ length values = n →
  ∃ values', broadcast_rows n values = Ok values' ∧ length values' = n ∧
             values' ⊆ values.
Proof.
  intros Hlen. unfold broadcast_rows. case_decide as Hn.
  { exists values. done. }
  destruct Hlen as [Hlen|]; [|done].
  destruct values as [|v [|]]; try done. exists (replicate n v).
  split_and!; [done|by rewrite length_replicate|].
  intros x [-> _]%elem_of_replicate. by left.
Qed.

(** [data[rows]] succeeds on row numbers in range and reads those rows. *)
Lemma take_rows_Ok (d : dataarray A) rows :
  Forall (λ x, 0 ≤ x < Z.of_nat (length (drows d))) rows →
  ∃ rs, take_rows d rows = Ok (DataArray (ddtype d) (drowshape d) rs) ∧
        Forall2 (λ x row, drows d !! Z.to_nat x = Some row) rows rs.
Proof.
  intros Hin. unfold take_rows.
  match goal with |- context [mapM ?f rows] => set (rd := f) end.
  assert (∀ x, 0 ≤ x < Z.of_nat (length (drows d)) →
               ∃ y, drows d !! Z.to_nat x = Some y ∧ rd x = Ok y) as Hrd.
  { intros x Hx. unfold rd. destruct (Z.ltb_spec x 0); [lia|].
    destruct (Z.leb_spec 0 x); [|lia].
    destruct (Z.ltb_spec x (Z.of_nat (length (drows d)))); [|lia].
    cbn [andb].
    destruct (lookup_lt_is_Some_2 (drows d) (Z.to_nat x)) as [y Hy]; [lia|].
    rewrite Hy. by eexists. }
  clearbody rd. induction Hin as [|x rows Hx _ (rs & Hrs & Hall)].
  { exists []. by split; [|constructor]. }
  destruct (Hrd x Hx) as (y & Hy & Hrdx). exists (y :: rs).
  cbn [mapM]. rewrite Hrdx, bind_Ok.
  destruct (mapM rd rows) as [rs'|]; [|done]. injection Hrs as <-.
  split; [done|]. by constructor.
Qed.
End Rows.

Section StoreOps.
Context {A : Type}.
Implicit Types (h : heap A) (self : t).

Lemma index_ok_rows h self (d : dataarray A) :
  index_ok h self → h !! _data self = Some d →
  Forall (λ x, 0 ≤ x < Z.of_nat (length (drows d)))
         (filter (λ x, 0 ≤ x) (elems (_imask self))).
Proof.
  intros (_ & d' & Hd' & Hall & _) Hd. assert (d' = d) as -> by congruence.
  apply Forall_forall. intros x [Hx Hin]%list_elem_of_filter.
  eapply Forall_forall in Hall; [|done]. cbn in Hall. lia.
Qed.

Lemma masked_rows_filter self :
  masked_rows self = filter (λ x, 0 ≤ x) (elems (_imask self)).
Proof. unfold masked_rows, mask. cbn [bdata]. apply select_nonneg. Qed.

(** A write through any store leaves the invariants of every store of the
    heap as they were: the index volumes and the row counts do not
    change. *)
Lemma setitem_preserves (cast : np_dtype → A → A) h self index values h'
    other :
  __setitem__ cast h self index values = Ok h' →
  (compact h other → compact h' other) ∧
  (index_ok h other → index_ok h' other).
Proof.
  intros Hset. unfold __setitem__ in Hset.
  apply bind_result_Ok in Hset as (imask & _ & Hset).
  apply bind_result_Ok in Hset as (d & Hd & Hset).
  apply bind_result_Ok in Hset as (d' & Hd' & [= <-]).
  unfold deref in Hd. destruct (h !! _data self) as [d0|] eqn:Hd0; [|done].
  injection Hd as ->. unfold assign_rows in Hd'.
  case_bool_decide; [|done].
  apply bind_result_Ok in Hd' as (values' & _ & Hd').
  assert (length (drows d') = length (drows d)) as Hlen'.
  { injection Hd' as <-. cbn. apply length_write_rows. }
  clear Hd'.
  assert (∀ l (x : dataarray A), h !! l = Some x →
    ∃ x', <[_data self := d']> h !! l = Some x' ∧
          length (drows x') = length (drows x)) as Hcell.
  { intros l x Hx. destruct (decide (l = _data self)) as [->|Hne].
    - exists d'. split; [|congruence].
      apply list_lookup_insert_eq. by eapply lookup_lt_Some.
    - exists x. split; [|done]. by rewrite list_lookup_insert_ne. }
  split.
  - intros (Hwf & x & Hx & Hge & Hrows). split; [done|].
    destruct (Hcell _ _ Hx) as (x' & Hx' & Hlen). exists x'.
    by rewrite Hlen.
  - intros (Hwf & x & Hx & Hall & Hnd). split; [done|].
    destruct (Hcell _ _ Hx) as (x' & Hx' & Hlen). exists x'.
    by rewrite Hlen.
Qed.

Lemma set_shape_preserves h self value new :
  _set_shape self value = Ok new →
  (compact h self → compact h new) ∧ (index_ok h self → index_ok h new).
Proof.
  intros Hset. unfold compact, index_ok.
  split; intros (Hwf & Hrest);
    destruct (set_shape_elems _ _ _ Hwf Hset) as (Hwf' & -> & -> & _ & _); done.
Qed.

Lemma wf_mask_of self :
  wf_array (vw (_imask self)) → wf_mask (mask self).
Proof.
  intros [Hwf _]. split; cbn [mask bshape bdata].
  - unfold shape, vshape. apply Forall_fmap. by eapply Forall_impl.
  - unfold elems, vaddrs. rewrite !length_fmap. by apply length_addrs.
Qed.

Lemma count_true_mask self :
  count_true (bdata (mask self)) = length (masked_rows self).
Proof.
  rewrite masked_rows_filter. cbn [mask bdata]. unfold count_true.
  induction (elems (_imask self)) as [|x l IH]; [done|].
  cbn [fmap list_fmap]. destruct (decide (0 ≤ x)) as [Hx|Hx].
  - rewrite bool_decide_eq_true_2 by done.
    rewrite !filter_cons_True by done. cbn. by rewrite IH.
  - rewrite bool_decide_eq_false_2 by done.
    by rewrite !filter_cons_False by done.
Qed.

(** [copy] compacts the masked rows into a fresh data array. *)
Lemma copy_compact h self new h' :
  index_ok h self →
  Z.of_nat (length (masked_rows self)) < 2 ^ 31 →
  copy h self = Ok (new, h') →
  ∃ d rs,
    h !! _data self = Some d ∧
    Forall2 (λ x row, drows d !! Z.to_nat x = Some row) (masked_rows self) rs ∧
    h' = h ++ [DataArray (ddtype d) (drowshape d) rs] ∧
    new = Make (fresh (shape (_imask self))
                      (index_volume_spec 0 (bdata (mask self))))
               false (length h) ∧
    compact h' new.
Proof.
  intros Hok Hlt Hcopy. pose proof Hok as (Hwf & d & Hd & _).
  unfold copy, deref in Hcopy. rewrite Hd in Hcopy.
  cbn [mret result_ret] in Hcopy. rewrite bind_Ok in Hcopy.
  destruct (take_rows_Ok d (masked_rows self)) as (rs & Hrs & Hall).
  { rewrite masked_rows_filter. by apply (index_ok_rows h self d). }
  rewrite Hrs, bind_Ok in Hcopy.
  set (data := DataArray (ddtype d) (drowshape d) rs) in *.
  apply bind_result_Ok in Hcopy as (new' & Hinit & [= <- <-]).
  assert ((h ++ [data]) !! length h = Some data) as Hdata
    by (by rewrite lookup_app_r, Nat.sub_diag).
  pose proof (wf_mask_of _ Hwf) as Hwfm.
  destruct (init_Ok_inv _ _ _ _ _ Hwfm Hdata Hinit) as [Hrows Hpos].
  rewrite (init_success _ _ _ data) in Hinit
    by (done || (rewrite count_true_mask in Hpos |- *; lia)).
  injection Hinit as <-. exists d, rs. split_and!; try done.
  by apply (compact_fresh _ (mask self) _ data).
Qed.

(** Appending a cell to the heap keeps the invariants of the stores
    already there. *)
Lemma heap_extend h (x : dataarray A) self :
  (compact h self → compact (h ++ [x]) self) ∧
  (index_ok h self → index_ok (h ++ [x]) self).
Proof.
  split.
  - intros (Hwf & d & Hd & Hrest). split; [done|]. exists d.
    split; [|done]. by apply lookup_app_l_Some.
  - intros (Hwf & d & Hd & Hrest). split; [done|]. exists d.
    split; [|done]. by apply lookup_app_l_Some.
Qed.
End StoreOps.

Lemma count_true_all_false bs :
  Forall (λ b, b = false) bs → count_true bs = 0%nat.
Proof.
  induction 1 as [|b bs -> _ IH]; [done|]. by rewrite count_true_cons.
Qed.

Lemma count_true_pos bs : (0 < count_true bs)%nat → true ∈ bs.
Proof.
  induction bs as [|[] bs IH]; [cbn; lia|left|].
  rewrite count_true_cons. intros. right. apply IH. lia.
Qed.

(** C10: for an all-False mask the constructor raises, also when the data
    array has no row: [indexes[-1]] reads the last element of an empty
    cumulative sum.  So a store the constructor returns has a masked
    voxel. *)
Theorem init_all_false_raises {A} (h : heap A) mask data d :
  wf_mask mask → h !! data = Some d →
  (Forall (λ b, b = false) (bdata mask) →
   py_last (np_cumsum (Z.b2z <$> select (bdata mask) (bdata mask)))
   = Raise (IndexError "index -1 is out of bounds for axis 0 with size 0") ∧
   __init__ h mask data
   = Raise (IndexError "index -1 is out of bounds for axis 0 with size 0")) ∧
  (∀ self, __init__ h mask data = Ok self → true ∈ bdata mask).
Proof.
  intros Hwf Hd. split.
  - intros Hall. apply count_true_all_false in Hall. split.
    + by rewrite select_self, Hall.
    + by apply init_empty with d.
  - intros self Hinit.
    destruct (init_Ok_inv _ _ _ _ _ Hwf Hd Hinit) as [_ Hpos].
    by apply count_true_pos.
Qed.

Lemma init_all_false_raises_witness :
  wf_mask Examples.mask0 ∧
  Examples.heap0 !! 0%nat = Some (DataArray float64 [] []) ∧
  (Forall (λ b, b = false) (bdata Examples.mask0) →
   py_last (np_cumsum (Z.b2z <$> select (bdata Examples.mask0)
                                        (bdata Examples.mask0)))
   = Raise (IndexError "index -1 is out of bounds for axis 0 with size 0") ∧
   __init__ Examples.heap0 Examples.mask0 0
   = Raise (IndexError "index -1 is out of bounds for axis 0 with size 0")) ∧
  (∀ self, __init__ Examples.heap0 Examples.mask0 0 = Ok self →
           true ∈ bdata Examples.mask0).
Proof.
  assert (wf_mask Examples.mask0) as Hwf.
  { split; [repeat constructor; lia | reflexivity]. }
  split; [exact Hwf|]. split; [reflexivity|].
  apply (init_all_false_raises Examples.heap0 Examples.mask0 0%nat
           (DataArray float64 [] []) Hwf eq_refl).
Defined.

(** C9: on an all-False mask and a data array of no row, whose row count is
    the True-count of the mask, the constructor does not succeed: it raises
    [IndexError]. *)
Theorem init_empty_mask_no_rows :
  Z.of_nat (length (drows (DataArray (A:=Z) float64 [] [])))
  = Z.of_nat (count_true (bdata Examples.mask0)) ∧
  __init__ Examples.heap0 Examples.mask0 0
  = Raise (IndexError "index -1 is out of bounds for axis 0 with size 0").
Proof. split; reflexivity. Qed.

(** C1, as amended: a store constructed from a mask with at least one and
    fewer than [2^31] True entries and a data array of as many rows has the
    index volume of the specification: [-1] exactly where the mask is False
    and the row numbers [0, ..., rowCount - 1] in scan order.  Writing,
    reshaping and copying keep the invariant ([compact]); indexing returns a
    view of the same data whose entries are [-1] or row numbers of the data,
    none of them twice (the invariant [index_ok], which the other operations
    keep as well).  Reshaping is the assignment of the shape in place, on a
    contiguous index volume and on the strided views that indexing
    returns. *)
Theorem store_index_invariant {A} (cast : np_dtype → A → A) (h : heap A)
    mask data d :
  wf_mask mask → h !! data = Some d →
  length (drows d) = count_true (bdata mask) →
  0 < Z.of_nat (count_true (bdata mask)) < 2 ^ 31 →
  ∃ self,
    __init__ h mask data = Ok self ∧
    shape (_imask self) = bshape mask ∧
    elems (_imask self) = index_volume_spec 0 (bdata mask) ∧
    (∀ p, elems (_imask self) !! p = Some (-1) ↔ bdata mask !! p = Some false) ∧
    filter (λ x, 0 ≤ x) (elems (_imask self))
      = seqZ 0 (Z.of_nat (length (drows d))) ∧
    compact h self ∧
    ∀ (h1 : heap A) (s1 : t),
      (compact h1 s1 → index_ok h1 s1) ∧
      (∀ s index values h2,
         __setitem__ cast h1 s index values = Ok h2 →
         (compact h1 s1 → compact h2 s1) ∧ (index_ok h1 s1 → index_ok h2 s1)) ∧
      (∀ value s2,
         _set_shape s1 value = Ok s2 →
         (compact h1 s1 → compact h1 s2) ∧ (index_ok h1 s1 → index_ok h1 s2)) ∧
      (∀ s2 h2,
         index_ok h1 s1 → Z.of_nat (length (masked_rows s1)) < 2 ^ 31 →
         copy h1 s1 = Ok (s2, h2) →
         compact h2 s2 ∧ shape (_imask s2) = shape (_imask s1) ∧
         (compact h1 s1 → compact h2 s1) ∧ (index_ok h1 s1 → index_ok h2 s1)) ∧
      (∀ index s2,
         index_ok h1 s1 → __getitem__ s1 index = Ok s2 →
         index_ok h1 s2 ∧ _data s2 = _data s1 ∧
         elems (_imask s2) ⊆ elems (_imask s1) ∧
         NoDup (filter (λ x, 0 ≤ x) (elems (_imask s2)))).
Proof.
  intros Hwf Hd Hrows Hk. eexists. split; [by apply init_success with d|].
  pose proof Hwf as [Hshp Hlen]. cbn [_imask].
  rewrite elems_fresh by (done || by rewrite index_volume_spec_length).
  split_and!.
  - unfold shape, fresh, c_view, vshape. cbn. apply vshape_c_axes.
  - done.
  - intros p. by apply index_volume_spec_outside.
  - rewrite Hrows. by apply index_volume_spec_rows.
  - by apply compact_fresh with d.
  - intros h1 s1. split_and!.
    + apply compact_index_ok.
    + intros s index values h2 Hset. by eapply setitem_preserves.
    + intros value s2 Hset. by apply set_shape_preserves with value.
    + intros s2 h2 Hok Hlt Hcopy.
      destruct (copy_compact _ _ _ _ Hok Hlt Hcopy)
        as (d1 & rs & Hd1 & _ & -> & -> & Hc).
      split_and!; [done| |apply heap_extend..].
      unfold shape, fresh, c_view, vshape. cbn. apply vshape_c_axes.
    + intros index s2 Hok Hget.
      destruct (getitem_index_ok _ _ _ _ Hok Hget) as (Hok2 & ? & _ & ?).
      split_and!; [done..|]. by destruct Hok2 as (_ & ? & _ & _ & ?).
Qed.

Lemma store_index_invariant_witness :
  wf_mask Examples.mask3 ∧
  Examples.heap3 !! 0%nat = Some (DataArray int32 [] [10; 20]) ∧
  length (drows (DataArray (A:=Z) int32 [] [10; 20]))
  = count_true (bdata Examples.mask3) ∧
  0 < Z.of_nat (count_true (bdata Examples.mask3)) < 2 ^ 31 ∧
  ∃ self,
    __init__ Examples.heap3 Examples.mask3 0 = Ok self ∧
    elems (_imask self) = [0; -1; 1] ∧
    compact Examples.heap3 self.
Proof.
  assert (wf_mask Examples.mask3) as Hwf.
  { split; [repeat constructor; lia | reflexivity]. }
  assert (0 < Z.of_nat (count_true (bdata Examples.mask3)) < 2 ^ 31) as Hk.
  { vm_compute. split; reflexivity. }
  split; [exact Hwf|]. split; [reflexivity|]. split; [reflexivity|].
  split; [exact Hk|].
  destruct (store_index_invariant Examples.no_cast Examples.heap3
              Examples.mask3 0%nat
              (DataArray int32 [] [10; 20]) Hwf eq_refl eq_refl Hk)
    as (self & Hinit & _ & Hel & _ & _ & Hc & _).
  exists self. split; [exact Hinit|]. split; [exact Hel|exact Hc].
Defined.

(** C1, the claim as stated fails: the view [store[1]] of a compact store of
    two rows holds the single row number [1], not [0, 1]. *)
Lemma getitem_view_not_compact :
  __init__ Examples.heap2 Examples.mask2 0 = Ok Examples.store2 ∧
  compact Examples.heap2 Examples.store2 ∧
  __getitem__ Examples.store2 [Int 1] = Ok Examples.store2_1 ∧
  filter (λ x, 0 ≤ x) (elems (_imask Examples.store2_1)) = [1] ∧
  ¬ compact Examples.heap2 Examples.store2_1.
Proof.
  split_and!; [reflexivity| |reflexivity|reflexivity|].
  - split; [wf_array_literal [(2, 1)]|].
    exists (DataArray int32 [] [10; 20]). split_and!; [reflexivity| |reflexivity].
    forall_literal [0; 1].
  - intros (_ & d & Hd & _ & Hf). injection Hd as <-. vm_compute in Hf.
    discriminate.
Qed.

Lemma Forall2_seqZ_lookup {A} (l rs : list A) :
  Forall2 (λ x row, l !! Z.to_nat x = Some row)
          (seqZ 0 (Z.of_nat (length l))) rs →
  rs = l.
Proof.
  intros Hall. apply list_eq. intros i.
  destruct (decide (i < length l)%nat) as [Hi|Hi].
  - pose proof (Forall2_lookup_l _ _ _ i (Z.of_nat i) Hall) as (row & Hrow & Hl).
    { by rewrite lookup_seqZ_lt by lia. }
    by rewrite Hrow, <- Hl, Nat2Z.id.
  - apply Forall2_length in Hall. rewrite length_seqZ, Nat2Z.id in Hall.
    rewrite !lookup_ge_None_2 by lia. done.
Qed.

(** C2, as amended: [__array__] returns the compacted rows, not a volume:
    one row for each masked position of the index volume, in scan order (all
    of the data array when the store is compact); and when the dtype asked
    for is the dtype of the data the rows are returned as they are, with
    that dtype. *)
Theorem array_compacted_rows {A} (cast : np_dtype → A → A) (h : heap A)
    self dt :
  index_ok h self →
  ∃ d rs r,
    h !! _data self = Some d ∧
    Forall2 (λ x row, drows d !! Z.to_nat x = Some row) (masked_rows self) rs ∧
    (compact h self → rs = drows d) ∧
    __array__ cast h self dt = Ok r ∧
    dshape r = Z.of_nat (count_true (bdata (mask self))) :: drowshape d ∧
    (dt = Some (ddtype d) → r = DataArray (ddtype d) (drowshape d) rs) ∧
    (∀ t', dt = Some t' → t' ≠ ddtype d →
           r = DataArray t' (drowshape d) (cast t' <$> rs)).
Proof.
  intros Hok. pose proof Hok as (Hwf & d & Hd & _).
  destruct (take_rows_Ok d (masked_rows self)) as (rs & Hrs & Hall).
  { rewrite masked_rows_filter. by apply (index_ok_rows h self d). }
  assert (__array__ cast h self dt
          = Ok (if dtype_matches dt (ddtype d)
                then DataArray (ddtype d) (drowshape d) rs
                else DataArray (default float64 dt) (drowshape d)
                               (cast (default float64 dt) <$> rs))) as Harr.
  { unfold __array__, dtype, deref. rewrite Hd. cbn [mret result_ret].
    rewrite !bind_Ok. destruct (dtype_matches dt (ddtype d)); [done|].
    by rewrite Hrs. }
  exists d, rs. eexists. split_and!; [done..| |exact Harr| | |].
  - intros (_ & d' & Hd' & _ & Hrows). assert (d' = d) as -> by congruence.
    rewrite masked_rows_filter, Hrows in Hall. by apply Forall2_seqZ_lookup.
  - rewrite count_true_mask. apply Forall2_length in Hall. rewrite Hall.
    unfold dshape. destruct (dtype_matches dt (ddtype d)); cbn; [done|].
    by rewrite length_fmap.
  - intros ->. cbn. by rewrite bool_decide_eq_true_2.
  - intros t' -> Hne. cbn. by rewrite bool_decide_eq_false_2.
Qed.

Lemma array_compacted_rows_witness :
  index_ok Examples.heap1 Examples.store1 ∧
  ∃ r, __array__ Examples.no_cast Examples.heap1 Examples.store1 (Some int32)
       = Ok r ∧ r = DataArray int32 [] [7].
Proof.
  assert (index_ok Examples.heap1 Examples.store1) as Hok.
  { split; [wf_array_literal [(2, 1)]|].
    exists (DataArray int32 [] [7]). split_and!; [reflexivity| |nodup_literal].
    match goal with |- Forall ?P _ => change (Forall P [0; -1]) end.
    apply Forall_cons_2; [right; cbn; lia|].
    apply Forall_cons_2; [by left|]. apply Forall_nil_2. }
  split; [exact Hok|].
  destruct (array_compacted_rows Examples.no_cast Examples.heap1
              Examples.store1 (Some int32) Hok)
    as (d & rs & r & Hd & _ & _ & Harr & _).
  exists r. split; [exact Harr|].
  vm_compute in Harr. by injection Harr as <-.
Defined.

(** C2, the claim as stated fails: on a volume of two voxels with one in
    the mask, [__array__] returns one row, an array of shape [(1,)] and not
    of the shape [(2,)] of the mask; and with the default dtype the [int32]
    rows come back as [float64]. *)
Lemma array_not_volume_shaped :
  __init__ Examples.heap1 Examples.mask1 0 = Ok Examples.store1 ∧
  dshape <$> __array__ Examples.no_cast Examples.heap1 Examples.store1
                       (Some int32) = Ok [1] ∧
  bshape (mask Examples.store1) = [2] ∧
  ddtype <$> __array__ Examples.no_cast Examples.heap1 Examples.store1 None
  = Ok float64.
Proof. split_and!; reflexivity. Qed.

(** C8, as amended: for values that broadcast to the rows that the
    non-negative entries of the index volume at [index] address (one row, or
    a row for each of them), [__setitem__] succeeds whatever the number of
    [-1] entries; every addressed row then holds one of the values,
    converted to the dtype of the data array; every other row and every
    other array of the heap is as before; and when the index resolves to
    [-1] only, the heap is unchanged. *)
Theorem setitem_writes_addressed_rows {A} (cast : np_dtype → A → A)
    (h : heap A) self index values imask :
  index_ok h self →
  getitem (_imask self) index = Ok imask →
  let rows := filter (λ x, 0 ≤ x) (elems imask) in
  length values = 1%nat ∨ length values = length rows →
  ∃ d rs' h',
    h !! _data self = Some d ∧
    __setitem__ cast h self index values = Ok h' ∧
    h' = <[_data self := DataArray (ddtype d) (drowshape d) rs']> h ∧
    length rs' = length (drows d) ∧
    (∀ r : nat, Z.of_nat r ∉ rows → rs' !! r = drows d !! r) ∧
    (∀ r : nat, Z.of_nat r ∈ rows →
       ∃ v, v ∈ values ∧ rs' !! r = Some (cast (ddtype d) v)) ∧
    (∀ l, l ≠ _data self → h' !! l = h !! l) ∧
    (rows = [] → h' = h).
Proof.
  intros Hok Hget rows Hlen.
  assert (∃ new, __getitem__ self index = Ok new ∧ _imask new = imask)
    as (new & Hget' & Himask).
  { unfold __getitem__. rewrite Hget. by eexists. }
  destruct (getitem_index_ok _ _ _ _ Hok Hget') as (Hok' & Hdata & _ & _).
  destruct Hok as (_ & d & Hd & _).
  rewrite <- Hdata in Hd.
  pose proof (index_ok_rows _ _ _ Hok' Hd) as Hrows. rewrite Hdata in Hd.
  rewrite Himask in Hrows. fold rows in Hrows.
  destruct (broadcast_rows_Ok (length rows) (cast (ddtype d) <$> values))
    as (values' & Hb & Hlen' & Hsub); [by rewrite length_fmap|].
  assert (∀ r : nat, Z.of_nat r ∉ rows →
            write_rows (drows d) rows values' !! r = drows d !! r) as Hframe.
  { intros r Hr. apply write_rows_frame; [|done].
    eapply Forall_impl; [done|]. cbn. lia. }
  exists d, (write_rows (drows d) rows values'). eexists.
  split_and!; [done| |done| |done| | |].
  - unfold __setitem__. rewrite Hget, bind_Ok, select_nonneg. fold rows.
    unfold deref. rewrite Hd. cbn [mret result_ret]. rewrite bind_Ok.
    unfold assign_rows. rewrite bool_decide_eq_true_2
      by (eapply Forall_impl; [done|]; cbn; lia).
    by rewrite Hb.
  - apply length_write_rows.
  - intros r Hr.
    destruct (write_rows_written rows (drows d) values' r) as (v & Hv & Hw);
      [done..|].
    apply Hsub, list_elem_of_fmap in Hv as (v0 & -> & Hv0).
    exists v0. split; [done|done].
  - intros l Hl. by apply list_lookup_insert_ne.
  - intros Hnil.
    assert (write_rows (drows d) rows values' = drows d) as ->.
    { apply list_eq. intros r. apply Hframe. rewrite Hnil.
      apply not_elem_of_nil. }
    apply list_insert_id. by destruct d.
Qed.

Lemma setitem_writes_addressed_rows_witness :
  index_ok Examples.heap3 Examples.store3 ∧
  getitem (_imask Examples.store3) [Slice (Some 1) None None]
  = Ok (NdArray [0; -1; 1] (View 1 [(2, 1)])) ∧
  (length [99] = 1%nat ∨
   length [99] = length (filter (λ x, 0 ≤ x)
                   (elems (NdArray [0; -1; 1] (View 1 [(2, 1)]))))) ∧
  __setitem__ Examples.no_cast Examples.heap3 Examples.store3
    [Slice (Some 1) None None] [99]
  = Ok [DataArray int32 [] [10; 99]].
Proof.
  assert (index_ok Examples.heap3 Examples.store3) as Hok.
  { split; [wf_array_literal [(3, 1)]|].
    exists (DataArray int32 [] [10; 20]).
    split_and!; [reflexivity| |nodup_literal].
    match goal with |- Forall ?P _ => change (Forall P [0; -1; 1]) end.
    apply Forall_cons_2; [right; cbn; lia|].
    apply Forall_cons_2; [by left|].
    apply Forall_cons_2; [right; cbn; lia|]. apply Forall_nil_2. }
  split; [exact Hok|]. split; [reflexivity|]. split; [by left|].
  destruct (setitem_writes_addressed_rows Examples.no_cast Examples.heap3
              Examples.store3 [Slice (Some 1) None None] [99]
              (NdArray [0; -1; 1] (View 1 [(2, 1)])) Hok eq_refl
              (or_introl eq_refl))
    as (d & rs' & h' & _ & Hset & _).
  rewrite Hset. vm_compute in Hset. by injection Hset as <-.
Defined.

(** C8, the claim as stated fails: the unmasked positions are not skipped
    when there is a value for each position of the index.  On the volume of
    three voxels whose second voxel is outside the mask, [store[0:2] = [7,
    8]] addresses one row with two values and raises [ValueError]: the
    index volume is filtered by the mask, the values are not. *)
Lemma setitem_unmasked_position_raises :
  __init__ Examples.heap3 Examples.mask3 0 = Ok Examples.store3 ∧
  elems <$> getitem (_imask Examples.store3) [Slice (Some 0) (Some 2) None]
  = Ok [0; -1] ∧
  __setitem__ Examples.int_cast Examples.heap3 Examples.store3
    [Slice (Some 0) (Some 2) None] [7; 8]
  = Raise (ValueError "shape mismatch: value array could not be broadcast").
Proof. split_and!; reflexivity. Qed.

End StoreFacts.

(** ** The ODF model *)

Module ODFFacts.
Import ODF.

(** *** Indexing the voxels of an array *)

Lemma index_axes_app index : ∀ ax off extra,
  (length index ≤ length ax)%nat →
  index_axes index (ax ++ extra) off
  = (λ v, View (offset v) (axes v ++ extra)) <$> index_axes index ax off.
Proof.
  induction index as [|it index IH]; intros ax off extra Hlen; [done|].
  destruct ax as [|[d s] ax]; [cbn in Hlen; lia|]. cbn in Hlen.
  destruct it as [i|a b c|]; cbn [index_axes app].
  - destruct (_ && _); [|done]. apply IH. lia.
  - destruct (slice_adjust d a b c) as [[[start step] n]|e]; [|done].
    rewrite !bind_Ok, IH by lia.
    by destruct (index_axes index ax (off + start * s)).
  - done.
Qed.

Lemma slice_adjust_full d : 0 ≤ d → slice_adjust d None None None = Ok (0, 1, d).
Proof.
  intros Hd. unfold slice_adjust. cbn.
  destruct (Z.ltb_spec 0 d); [|do 3 f_equal; lia].
  do 3 f_equal. rewrite Z.div_1_r. lia.
Qed.

Lemma index_axes_full index : ∀ ax off d s,
  0 ≤ d → length index = length ax →
  index_axes (index ++ [full_slice]) (ax ++ [(d, s)]) off
  = add_axis (d, s) <$> index_axes index ax off.
Proof.
  induction index as [|it index IH]; intros ax off d s Hd Hlen.
  { destruct ax; [|done]. cbn [app index_axes full_slice].
    rewrite slice_adjust_full by done. cbn. unfold add_axis. cbn.
    do 3 f_equal; [lia|]. f_equal. lia. }
  destruct ax as [|[d' s'] ax]; [done|]. injection Hlen as Hlen.
  destruct it as [i|a b c|]; cbn [index_axes app].
  - destruct (_ && _); [|done]. by apply IH.
  - destruct (slice_adjust d' a b c) as [[[start step] n]|e]; [|done].
    rewrite !bind_Ok, IH by done.
    by destruct (index_axes index ax (off + start * s')).
  - done.
Qed.

Lemma expand_without_ellipsis k index :
  existsb is_Ellipsis index = false → index ≫= expand_item k = index.
Proof.
  induction index as [|it index IH]; [done|]. cbn [existsb].
  intros [Hit Hrest]%orb_false_iff. cbn [mbind list_bind].
  rewrite IH by done. by destruct it.
Qed.

Lemma count_ellipsis index :
  (length (filter (λ it, is_Ellipsis it = true) index)
   + length (filter (λ it, is_Ellipsis it = false) index) = length index)%nat.
Proof.
  induction index as [|it index IH]; [done|]. rewrite !filter_cons.
  destruct (is_Ellipsis it) eqn:Hit.
  - rewrite decide_True, decide_False by done. cbn. lia.
  - rewrite decide_False, decide_True by done. cbn. lia.
Qed.

Lemma no_ellipsis_count index :
  existsb is_Ellipsis index = false →
  length (filter (λ it, is_Ellipsis it = true) index) = 0%nat.
Proof.
  induction index as [|it index IH]; [done|]. cbn [existsb].
  intros [Hit Hrest]%orb_false_iff. rewrite filter_cons, decide_False by congruence.
  by apply IH.
Qed.

Lemma some_ellipsis_count index :
  existsb is_Ellipsis index = true →
  (0 < length (filter (λ it, is_Ellipsis it = true) index))%nat.
Proof.
  induction index as [|it index IH]; [done|]. cbn [existsb].
  rewrite filter_cons. destruct (is_Ellipsis it) eqn:Hit.
  - rewrite decide_True by done. cbn. lia.
  - rewrite decide_False by congruence. cbn. apply IH.
Qed.

Lemma length_expand k index :
  length (filter (λ it, is_Ellipsis it = true) index) = 1%nat →
  length (index ≫= expand_item k)
  = (length (filter (λ it, is_Ellipsis it = false) index) + k)%nat.
Proof.
  induction index as [|it index IH]; [done|]. rewrite !filter_cons.
  cbn [mbind list_bind]. rewrite length_app.
  destruct (is_Ellipsis it) eqn:Hit.
  - rewrite decide_True, decide_False by done. cbn [length]. intros [= Hz].
    destruct it; try done. cbn [expand_item]. rewrite length_replicate.
    assert (existsb is_Ellipsis index = false) as Hno.
    { destruct (existsb is_Ellipsis index) eqn:He; [|done].
      apply some_ellipsis_count in He. lia. }
    rewrite expand_without_ellipsis by done.
    pose proof (count_ellipsis index). lia.
  - rewrite decide_False, decide_True by congruence. cbn [length].
    intros Hone. rewrite IH by done. destruct it; try done; cbn; lia.
Qed.

(** Indexing an array of vectors by an index of its voxels, with a full
    slice appended when the index holds [...], is indexing the array of
    voxels: the last axis is left as it is. *)
Lemma view_getitem_voxels off lead d s index :
  0 ≤ d → (length index ≤ length lead)%nat →
  view_getitem (View off (lead ++ [(d, s)]))
    (if existsb is_Ellipsis index then index ++ [full_slice] else index)
  = add_axis (d, s) <$> view_getitem (View off lead) index.
Proof.
  intros Hd Hlen. unfold view_getitem. cbn [axes offset].
  rewrite length_app. cbn [length]. unfold expand_index.
  fold (expand_item (length lead
          - length (filter (λ it, is_Ellipsis it = false) index))).
  pose proof (count_ellipsis index) as Hcount.
  destruct (existsb is_Ellipsis index) eqn:He.
  - assert (filter (λ it, is_Ellipsis it = true) (index ++ [full_slice])
            = filter (λ it, is_Ellipsis it = true) index) as ->.
    { rewrite filter_app, filter_cons_False, filter_nil by done.
      apply app_nil_r. }
    assert (filter (λ it, is_Ellipsis it = false) (index ++ [full_slice])
            = filter (λ it, is_Ellipsis it = false) index ++ [full_slice])
      as ->.
    { by rewrite filter_app, filter_cons_True, filter_nil by done. }
    rewrite length_app. cbn [length].
    fold (expand_item (length lead + 1
           - (length (filter (λ it, is_Ellipsis it = false) index) + 1))).
    case_decide as Hmany; [done|].
    pose proof (some_ellipsis_count _ He) as Hsome.
    rewrite !decide_False by lia. cbn [mret result_ret]. rewrite !bind_Ok.
    rewrite bind_app. cbn [mbind list_bind expand_item app].
    replace (length lead + 1
             - (length (filter (λ it, is_Ellipsis it = false) index) + 1))%nat
      with (length lead
            - length (filter (λ it, is_Ellipsis it = false) index))%nat by lia.
    apply index_axes_full; [done|]. rewrite length_expand by lia. lia.
  - pose proof (no_ellipsis_count _ He) as Hnone. rewrite Hnone.
    fold (expand_item (length lead + 1
           - length (filter (λ it, is_Ellipsis it = false) index))).
    rewrite !decide_False by lia. cbn [mret result_ret]. rewrite !bind_Ok.
    rewrite !expand_without_ellipsis by done.
    apply index_axes_app. lia.
Qed.

Lemma index_axes_shape index : ∀ ax1 ax2 off1 off2,
  fst <$> ax1 = fst <$> ax2 →
  vshape <$> index_axes index ax1 off1 = vshape <$> index_axes index ax2 off2.
Proof.
  induction index as [|it index IH]; intros ax1 ax2 off1 off2 Hsh.
  { cbn. unfold vshape. cbn. by rewrite Hsh. }
  destruct ax1 as [|[d1 s1] ax1], ax2 as [|[d2 s2] ax2]; try done.
  injection Hsh as -> Hsh. destruct it as [i|a b c|]; cbn [index_axes].
  - destruct (_ && _); [|done]. by apply IH.
  - destruct (slice_adjust d2 a b c) as [[[start step] n]|e]; [|done].
    rewrite !bind_Ok.
    specialize (IH ax1 ax2 (off1 + start * s1) (off2 + start * s2) Hsh).
    destruct (index_axes index ax1 _), (index_axes index ax2 _); try done.
    cbn in IH |- *. injection IH as IH. unfold vshape in *. cbn. by rewrite IH.
  - done.
Qed.

Lemma view_getitem_shape v1 v2 index :
  vshape v1 = vshape v2 →
  vshape <$> view_getitem v1 index = vshape <$> view_getitem v2 index.
Proof.
  intros Hsh. unfold view_getitem.
  assert (length (axes v1) = length (axes v2)) as ->.
  { unfold vshape in Hsh.
    by rewrite <- (length_fmap fst (axes v1)), <- (length_fmap fst (axes v2)), Hsh. }
  destruct (expand_index _ index) as [index'|]; [|done]. rewrite !bind_Ok.
  by apply index_axes_shape.
Qed.

Lemma split_axes (ax : list (Z * Z)) :
  ax ≠ [] → ∃ l, last ax = Some l ∧ ax = removelast ax ++ [l].
Proof.
  intros Hne. destruct (last ax) as [l|] eqn:Hl.
  - exists l. split; [done|]. apply last_Some in Hl as [ax' ->].
    by rewrite removelast_last.
  - apply last_None in Hl. done.
Qed.

Section Getitem.
Context {F : Type}.
Implicit Types (self : t F) (a : ndarray F).

(** NumPy's [a[index']] on an array of vectors, for the index [index'] that
    [__getitem__] builds from an index of at most as many items as there
    are voxel axes, is the slice of voxels. *)
Lemma getitem_slice_voxels a index :
  wf_view (vw a) → (Z.of_nat (length index) ≤ ndim a - 1) →
  getitem a (if existsb is_Ellipsis index then index ++ [full_slice]
             else index)
  = slice_voxels a index.
Proof.
  intros Hwf Hlen. destruct a as [b [off ax]]. unfold ndim in Hlen.
  cbn [vw axes] in *.
  destruct (split_axes ax) as ([d s] & Hlast & Hax).
  { intros ->. cbn in Hlen. lia. }
  unfold slice_voxels, last_axis, voxels, getitem. cbn [vw axes buf offset].
  rewrite Hlast. set (lead := removelast ax) in *. clearbody lead. subst ax.
  rewrite length_app in Hlen. cbn in Hlen.
  rewrite view_getitem_voxels.
  - by destruct (view_getitem (View off lead) index).
  - unfold wf_view in Hwf. cbn [vw axes] in Hwf.
    rewrite Forall_app, Forall_singleton in Hwf. by destruct Hwf.
  - lia.
Qed.

Lemma slice_voxels_buf a index a' :
  slice_voxels a index = Ok a' →
  buf a' = buf a ∧ last_axis a' = last_axis a ∧
  getitem (voxels a) index = Ok (voxels a').
Proof.
  unfold slice_voxels. intros Hs.
  apply bind_result_Ok in Hs as (v & Hv & Hs).
  destruct (last_axis a) as [l|] eqn:Hl; [|done]. injection Hs as <-.
  split_and!.
  - done.
  - unfold last_axis, add_axis. cbn [vw axes]. by rewrite last_snoc.
  - rewrite Hv. f_equal. unfold getitem in Hv.
    apply bind_result_Ok in Hv as (v' & _ & [= <-]).
    unfold voxels, add_axis. cbn [buf vw axes offset].
    rewrite removelast_last.
    by destruct v'.
Qed.

Lemma fmap_removelast {X Y} (f : X → Y) (l : list X) :
  f <$> removelast l = removelast (f <$> l).
Proof.
  induction l as [|x [|y l] IH]; [done..|].
  change (removelast (x :: y :: l)) with (x :: removelast (y :: l)).
  cbn [fmap list_fmap] in *. rewrite IH. done.
Qed.

Lemma slice_voxels_same_shape a1 a2 index c :
  removelast (shape a1) = removelast (shape a2) →
  axes (vw a2) ≠ [] →
  slice_voxels a1 index = Ok c →
  ∃ c', slice_voxels a2 index = Ok c'.
Proof.
  intros Hsh Hne Hs. unfold slice_voxels in *.
  apply bind_result_Ok in Hs as (v & Hv & _).
  destruct (split_axes _ Hne) as (l & Hl & _). unfold last_axis. rewrite Hl.
  unfold getitem in *. apply bind_result_Ok in Hv as (v' & Hv' & _).
  pose proof (view_getitem_shape (vw (voxels a1)) (vw (voxels a2)) index) as Hshape.
  rewrite Hv' in Hshape.
  destruct (view_getitem (vw (voxels a2)) index) as [v2|] eqn:Hv2.
  - rewrite bind_Ok. by eexists.
  - exfalso. cbn in Hshape. unfold vshape, voxels in Hshape.
    cbn [vw axes] in Hshape. rewrite !fmap_removelast in Hshape.
    by specialize (Hshape Hsh).
Qed.
End Getitem.

(** *** The logging monad *)

Lemma M_bind_lift_Ok {X Y} (x : X) (f : X → M Y) : lift (Ok x) ≫= f = f x.
Proof. unfold lift. cbn. by destruct (f x). Qed.

(** *** Rows of the gradient table *)

Section Init.
Context {F : Type}.
Variable uninit_f : F.

Lemma getitem_row (a : ndarray F) r s0 n s1 i :
  axes (vw a) = [(r, s0); (n, s1)] → 0 ≤ i < r →
  getitem a [Int i]
  = Ok (NdArray (buf a) (View (offset (vw a) + i * s0) [(n, s1)])).
Proof.
  intros Hax Hi. unfold getitem, view_getitem, expand_index. rewrite Hax.
  rewrite filter_cons_False, filter_cons_True, !filter_nil by done.
  cbn [length]. rewrite !decide_False by lia.
  cbn. destruct (Z.ltb_spec i 0); [lia|].
  destruct (Z.leb_spec 0 i); [|lia]. destruct (Z.ltb_spec i r); [|lia].
  done.
Qed.

Lemma take_mask_first_row (a : ndarray F) n s1 mask :
  axes (vw a) = [(n, s1)] → Z.of_nat (length mask) = n →
  ∃ data, take_mask_first uninit_f a mask
          = Ok (fresh [Z.of_nat (count_true mask)] data).
Proof.
  intros Hax Hlen. unfold take_mask_first. rewrite Hax, Hlen, Z.eqb_refl.
  by eexists.
Qed.

Lemma broadcast_shapes_same d : broadcast_shapes [d] [d] = Ok [d].
Proof. unfold broadcast_shapes. cbn. by rewrite Z.eqb_refl. Qed.

Lemma length_elems_1d (a : ndarray F) n s :
  axes (vw a) = [(n, s)] → 0 ≤ n →
  Z.of_nat (length (@elems F (populate uninit_f) a)) = n.
Proof.
  intros Hax Hn. unfold elems, vaddrs. rewrite length_fmap, length_addrs.
  - rewrite Hax. cbn. lia.
  - rewrite Hax. by repeat constructor.
Qed.
End Init.

(** C4: for an order the constructor admits (even and not negative), a
    gradient table of [3 x n] and [n] b-values, of which fewer are positive
    than there are coefficients, the constructor raises the error of too few
    directions; the kernels it has called by then are the two conversions of
    the directions to angles: no basis, pseudo-inverse or product. *)
Theorem init_too_few_directions {F} (uninit : nat → Z) (uninit_f : F)
    (fpos : F → bool) (arctan2 : F → F → F) (arccos : F → F)
    (sph_harm : Z → Z → F → F → F * F) (sqrt2 : F)
    (fsub fmul fdiv : F → F → F) (legendre_P legendre_dP : Z → Z → F)
    (fdot : list F → list F → F) (pinv : Z → Z → list F → option (list F))
    data sh_order grad_table b_values keep_resid s0 s1 sb n :
  0 ≤ sh_order → sh_order `mod` 2 = 0 →
  axes (vw grad_table) = [(3, s0); (n, s1)] →
  axes (vw b_values) = [(n, sb)] → 0 ≤ n →
  let ngrad :=
    Z.of_nat (count_true (fpos <$> @elems F (populate uninit_f) b_values)) in
  ngrad < ((sh_order + 2) * (sh_order + 1)) `div` 2 →
  ∃ trace,
    ODF.__init__ uninit uninit_f fpos arctan2 arccos sph_harm sqrt2
                 fsub fmul fdiv legendre_P legendre_dP fdot pinv
                 data sh_order grad_table b_values keep_resid
    = (trace, Raise (ValueError (ODF.msg_too_few ngrad))) ∧
    trace = [EvArctan2; EvArccos] ∧
    Forall (λ ev, linear_algebra ev = false) trace.
Proof.
  intros Hsh Hev Hgrad Hb Hn ngrad Hfew. exists [EvArctan2; EvArccos].
  split; [|split; [done|by repeat constructor]].
  unfold ODF.__init__.
  rewrite Hev. destruct (Z.ltb_spec sh_order 0); [lia|]. cbn [Z.eqb negb orb].
  fold ngrad. set (dwi := fpos <$> elems b_values) in *.
  assert (Z.of_nat (length dwi) = n) as Hdwi.
  { unfold dwi. rewrite length_fmap. by eapply length_elems_1d. }
  rewrite !(getitem_row _ 3 s0 n s1) by (done || lia). rewrite !bind_Ok.
  destruct (take_mask_first_row uninit_f (NdArray (buf grad_table)
    (View (offset (vw grad_table) + 1 * s0) [(n, s1)])) n s1 dwi eq_refl Hdwi)
    as [gy ->].
  destruct (take_mask_first_row uninit_f (NdArray (buf grad_table)
    (View (offset (vw grad_table) + 0 * s0) [(n, s1)])) n s1 dwi eq_refl Hdwi)
    as [gx ->].
  destruct (take_mask_first_row uninit_f (NdArray (buf grad_table)
    (View (offset (vw grad_table) + 2 * s0) [(n, s1)])) n s1 dwi eq_refl Hdwi)
    as [gz ->].
  rewrite !M_bind_lift_Ok. unfold ODF.np_arctan2, map2_arrays.
  unfold shape, fresh, c_view, vshape. cbn [vw axes c_axes fmap list_fmap fst].
  rewrite broadcast_shapes_same, bind_Ok. cbn [mret result_ret].
  unfold ODF.np_arccos.
  destruct (sph_harm_ind_list_size uninit sh_order Hsh Hev)
    as (m_list & n_list & -> & Hsize).
  assert ((isize m_list >? Z.of_nat (count_true dwi)) = true) as Hgt.
  { rewrite Hsize. fold ngrad.
    by destruct (Z.gtb_spec (((sh_order + 2) * (sh_order + 1)) `div` 2) ngrad);
      [|lia]. }
  unfold log, lift. cbn [mbind M_bind mret M_ret result_ret app].
  rewrite Hgt. done.
Qed.

Lemma init_too_few_directions_witness :
  0 ≤ 2 ∧ 2 `mod` 2 = 0 ∧
  axes (vw Examples.grad_table) = [(3, 3); (3, 1)] ∧
  axes (vw Examples.b_values) = [(3, 1)] ∧ 0 ≤ 3 ∧
  Z.of_nat (count_true ((λ b, 0 <? b)
              <$> @elems Z (populate 0) Examples.b_values))
  < ((2 + 2) * (2 + 1)) `div` 2 ∧
  Examples.init Examples.data 2 Examples.grad_table Examples.b_values true
  = ([EvArctan2; EvArccos], Raise (ValueError (ODF.msg_too_few 2))).
Proof.
  assert (Z.of_nat (count_true ((λ b, 0 <? b)
              <$> @elems Z (populate 0) Examples.b_values))
          < ((2 + 2) * (2 + 1)) `div` 2) as Hfew by reflexivity.
  split; [lia|]. split; [reflexivity|]. split; [reflexivity|].
  split; [reflexivity|]. split; [lia|]. split; [exact Hfew|].
  destruct (init_too_few_directions (λ _, 0) 0 (λ b, 0 <? b) (λ y x, y - x)
              (λ z, z) (λ m n theta phi, (1, 0)) 1 Z.sub Z.mul Z.div
              (λ k z, 1) (λ k z, 0) Examples.inner (λ r c data, Some data)
              Examples.data 2 Examples.grad_table Examples.b_values true
              3 1 1 3 ltac:(lia) eq_refl eq_refl eq_refl ltac:(lia) Hfew)
    as (trace & Hinit & -> & _).
  exact Hinit.
Defined.

(** C5, as amended: an index of more items than there are voxel axes raises
    [IndexError]; for an index of at most that many items that selects
    voxels, [__getitem__] returns a model whose coefficient and residual
    arrays are the slices of the voxels selected, each voxel with its whole
    vector, as views of the buffers of the originals. *)
Theorem getitem_slices {F} (self : ODF.t F) index :
  wf_view (vw (ODF._coef self)) →
  (∀ r, ODF._resid self = Some r →
        wf_view (vw r) ∧ ndim r = ndim (ODF._coef self) ∧
        removelast (shape r) = removelast (shape (ODF._coef self))) →
  let items := index_items index in
  (ODF._getndim self < Z.of_nat (length items) →
   ODF.__getitem__ self index = Raise (IndexError "invalid index")) ∧
  (Z.of_nat (length items) ≤ ODF._getndim self →
   ∀ coef, slice_voxels (ODF._coef self) items = Ok coef →
     ∃ new, ODF.__getitem__ self index = Ok new ∧
            ODF._coef new = coef ∧
            buf (ODF._coef new) = buf (ODF._coef self) ∧
            getitem (voxels (ODF._coef self)) items
            = Ok (voxels (ODF._coef new)) ∧
            last_axis (ODF._coef new) = last_axis (ODF._coef self) ∧
            match ODF._resid self with
            | Some r => ∃ r', ODF._resid new = Some r' ∧
                              slice_voxels r items = Ok r' ∧
                              buf r' = buf r ∧
                              getitem (voxels r) items = Ok (voxels r') ∧
                              last_axis r' = last_axis r
            | None => ODF._resid new = None
            end).
Proof.
  intros Hwf Hresid items. unfold ODF.__getitem__. fold items. split.
  - intros Hlen.
    by destruct (Z.gtb_spec (Z.of_nat (length items)) (ODF._getndim self));
      [|lia].
  - intros Hlen coef Hcoef.
    destruct (Z.gtb_spec (Z.of_nat (length items)) (ODF._getndim self)); [lia|].
    unfold ODF._getndim in Hlen. cbv zeta.
    rewrite getitem_slice_voxels, Hcoef, bind_Ok by done.
    destruct (slice_voxels_buf _ _ _ Hcoef) as (Hbuf & Hlast & Hvox).
    destruct (ODF._resid self) as [r|] eqn:Hr.
    + destruct (Hresid r eq_refl) as (Hwfr & Hnd & Hsh).
      destruct (slice_voxels_same_shape (ODF._coef self) r items coef)
        as [r' Hr']; [done| |done|].
      { intros Hnil. unfold ndim in Hnd, Hlen. rewrite Hnil in Hnd.
        cbn in Hnd. lia. }
      rewrite getitem_slice_voxels by (done || lia). rewrite Hr'. cbn.
      eexists. split; [done|]. cbn. split_and!; [done..|].
      exists r'. destruct (slice_voxels_buf _ _ _ Hr') as (? & ? & ?). done.
    + cbn. eexists. split; [done|]. cbn. done.
Qed.

Lemma getitem_slices_witness :
  wf_view (vw (ODF._coef Examples.odf)) ∧
  (∀ r, ODF._resid Examples.odf = Some r →
        wf_view (vw r) ∧ ndim r = ndim (ODF._coef Examples.odf) ∧
        removelast (shape r) = removelast (shape (ODF._coef Examples.odf))) ∧
  Z.of_nat (length (index_items (Single (Int 1)))) ≤ ODF._getndim Examples.odf ∧
  slice_voxels (ODF._coef Examples.odf) [Int 1]
  = Ok (NdArray [3; 7] (View 1 [(1, 1)])) ∧
  ∃ new, ODF.__getitem__ Examples.odf (Single (Int 1)) = Ok new ∧
         ODF._coef new = NdArray [3; 7] (View 1 [(1, 1)]).
Proof.
  assert (wf_view (vw (ODF._coef Examples.odf))) as Hwf.
  { unfold wf_view. forall_literal [(2, 1); (1, 1)]. }
  assert (∀ r, ODF._resid Examples.odf = Some r →
        wf_view (vw r) ∧ ndim r = ndim (ODF._coef Examples.odf) ∧
        removelast (shape r) = removelast (shape (ODF._coef Examples.odf)))
    as Hresid.
  { intros r [= <-]. split; [|split; reflexivity].
    unfold wf_view. forall_literal [(2, 2); (2, 1)]. }
  assert (Z.of_nat (length (index_items (Single (Int 1))))
          ≤ ODF._getndim Examples.odf) as Hlen by (vm_compute; discriminate).
  split; [exact Hwf|]. split; [exact Hresid|]. split; [exact Hlen|].
  split; [reflexivity|].
  destruct (getitem_slices Examples.odf (Single (Int 1)) Hwf Hresid)
    as [_ Hshort].
  destruct (Hshort Hlen (NdArray [3; 7] (View 1 [(1, 1)])) eq_refl)
    as (new & Hget & Hc & _).
  exists new. split; [exact Hget|exact Hc].
Defined.

(** C5, the claim as stated fails: indexing the model of two voxels by [1]
    slices the coefficients and the residuals, and leaves [b0] the array
    of both voxels, not its slice. *)
Lemma getitem_b0_not_sliced :
  ∃ new, ODF.__getitem__ Examples.odf (Single (Int 1)) = Ok new ∧
         shape (ODF._coef new) = [1] ∧
         ODF.b0 new = ODF.b0 Examples.odf ∧
         shape (ODF.b0 new) = [2; 1] ∧
         shape <$> getitem (ODF.b0 Examples.odf) [Int 1] = Ok [1].
Proof. eexists. split_and!; reflexivity. Qed.

(** C7: on a model with residuals that are all zero and the identity
    permutation, [evaluate_boot] does not return what [evaluate_at] returns:
    for a query of shape [(2, 2)] over two voxels, whatever the numbers and
    the kernels, [evaluate_at] returns an array of shape [(2, 2, 2)], the
    voxel shape followed by the shape of the query, and [evaluate_boot],
    which does not reshape, one of shape [(2, 4)]. *)
Theorem evaluate_boot_not_reshaped {F} (uninit : nat → Z) (uninit_f : F)
    (sph_harm : Z → Z → F → F → F * F) (sqrt2 : F) (fadd fmul : F → F → F)
    (fdot : list F → list F → F) (rand_perm : Z → list Z)
    (f1 f2 s1 s2 c1 c2 zero a1 a2 a3 a4 : F) :
  let self := Examples.odf_of f1 f2 s1 s2 c1 c2 zero in
  let query := Examples.query_of a1 a2 a3 a4 in
  (@elems F (populate uninit_f) <$> ODF._resid self)
  = Some [zero; zero; zero; zero] ∧
  ODF._getshape self = [2] ∧
  broadcast_shapes (shape query) (shape query) = Ok [2; 2] ∧
  shape <$> (ODF.evaluate_at uninit uninit_f sph_harm sqrt2 fmul fdot
               self query query).2
  = Ok [2; 2; 2] ∧
  shape <$> (ODF.evaluate_boot uninit uninit_f sph_harm sqrt2 fadd fmul fdot
               rand_perm self query query (Some [0; 1])).2
  = Ok [2; 4].
Proof. split_and!; reflexivity. Qed.

End ODFFacts.

(** ** The index list and the real harmonics on every input *)

Module HarmonicsFacts.
Import StoreFacts ODFFacts.

(** *** Orders that are not even and non-negative *)

Lemma sph_harm_ind_list_negative uninit sh_order :
  sh_order < 0 → sh_order `mod` 2 = 0 →
  let ncoef := ((sh_order + 2) * (sh_order + 1)) `div` 2 in
  0 ≤ ncoef ∧
  sph_harm_ind_list uninit sh_order
  = Ok (column (uninit <$> seq 0 (Z.to_nat ncoef)), column []).
Proof.
  intros Hneg Hev ncoef.
  assert (sh_order ≤ -2) as Hle.
  { destruct (decide (sh_order = -1)) as [->|]; [done|lia]. }
  assert (0 ≤ ncoef) as Hn.
  { unfold ncoef. apply Z.div_pos; nia. }
  split; [done|]. unfold sph_harm_ind_list. rewrite Hev. cbn [Z.eqb negb].
  fold ncoef. unfold np_arange. rewrite seqZ_nil.
  2:{ apply Z.div_le_upper_bound; lia. }
  cbn [fmap list_fmap np_repeat mret result_ret]. rewrite bind_Ok.
  unfold np_empty. destruct (Z.ltb_spec ncoef 0); [lia|].
  cbn [mret result_ret]. by rewrite bind_Ok.
Qed.

(** [sph_harm_ind_list] raises exactly when [sh_order] is odd, whatever its
    sign, and what it raises then is the [ValueError] of the module; for
    every even order, negative ones included, it returns two arrays. *)
Theorem sph_harm_ind_list_raises_iff_odd uninit sh_order :
  (sh_order `mod` 2 ≠ 0 →
   sph_harm_ind_list uninit sh_order = Raise (ValueError msg_sh_order)) ∧
  (sh_order `mod` 2 = 0 →
   ∃ m_list n_list, sph_harm_ind_list uninit sh_order = Ok (m_list, n_list)).
Proof.
  split.
  - intros Hodd. unfold sph_harm_ind_list.
    by destruct (Z.eqb_spec (sh_order `mod` 2) 0).
  - intros Hev. destruct (decide (0 ≤ sh_order)) as [Hsh|Hsh].
    + destruct (sph_harm_ind_list_size uninit sh_order Hsh Hev)
        as (m_list & n_list & Hrun & _).
      by exists m_list, n_list.
    + destruct (sph_harm_ind_list_negative uninit sh_order) as [_ Hrun];
        [lia|done|].
      by eexists _, _.
Qed.

Lemma sph_harm_ind_list_raises_iff_odd_witness :
  sph_harm_ind_list (λ _, 0) (-3) = Raise (ValueError msg_sh_order) ∧
  ∃ m_list n_list, sph_harm_ind_list (λ _, 0) (-6) = Ok (m_list, n_list).
Proof.
  destruct (sph_harm_ind_list_raises_iff_odd (λ _, 0) (-3)) as [Hodd _].
  destruct (sph_harm_ind_list_raises_iff_odd (λ _, 0) (-6)) as [_ Hev].
  split; [apply Hodd; by vm_compute|apply Hev; reflexivity].
Defined.

(** For a negative even [sh_order] the loop over the degrees is empty: the
    array of degrees is empty and the array of orders is what [np.empty]
    found in memory, [(sh_order + 2)(sh_order + 1)/2] entries of it, so that
    from [-4] down the two arrays do not have the same length. *)
Theorem sph_harm_ind_list_negative_even uninit sh_order :
  sh_order < 0 → sh_order `mod` 2 = 0 →
  ∃ m_list n_list,
    sph_harm_ind_list uninit sh_order = Ok (m_list, n_list) ∧
    idata n_list = [] ∧
    idata m_list
    = uninit <$> seq 0 (Z.to_nat (((sh_order + 2) * (sh_order + 1)) `div` 2)) ∧
    isize m_list = ((sh_order + 2) * (sh_order + 1)) `div` 2 ∧
    (sh_order ≤ -4 → isize n_list < isize m_list).
Proof.
  intros Hneg Hev.
  destruct (sph_harm_ind_list_negative uninit sh_order Hneg Hev) as [Hn Hrun].
  eexists _, _. split; [exact Hrun|]. cbn [column idata].
  assert (isize (column (uninit <$> seq 0
            (Z.to_nat (((sh_order + 2) * (sh_order + 1)) `div` 2))))
          = ((sh_order + 2) * (sh_order + 1)) `div` 2) as Hsize.
  { unfold isize. cbn [column idata]. rewrite length_fmap, length_seq. lia. }
  split_and!; [done..|].
  intros Hle. rewrite Hsize. unfold isize. cbn [column idata length].
  apply Z.div_str_pos. nia.
Qed.

Lemma sph_harm_ind_list_negative_even_witness :
  ∃ m_list n_list,
    sph_harm_ind_list (λ i, Z.of_nat i + 100) (-6) = Ok (m_list, n_list) ∧
    idata n_list = [] ∧
    idata m_list = [100; 101; 102; 103; 104; 105; 106; 107; 108; 109].
Proof.
  destruct (sph_harm_ind_list_negative_even (λ i, Z.of_nat i + 100) (-6))
    as (m_list & n_list & Hrun & Hn & Hm & _); [lia|reflexivity|].
  exists m_list, n_list. split; [exact Hrun|]. split; [exact Hn|].
  etrans; [exact Hm|reflexivity].
Defined.

(** *** Broadcasting *)

Lemma fst_broadcast_axes_rev shp : ∀ ax,
  fst <$> broadcast_axes_rev ax shp = shp.
Proof.
  induction shp as [|d shp IH]; intros ax; [done|].
  destruct ax as [|[d' s] ax]; cbn [broadcast_axes_rev fmap list_fmap].
  - by rewrite IH.
  - rewrite IH. by destruct (d' =? d).
Qed.

Lemma shape_broadcast_to {T} (a : ndarray T) shp :
  shape (broadcast_to a shp) = shp.
Proof.
  unfold shape, vshape, broadcast_to. cbn [vw axes].
  by rewrite fmap_reverse, fst_broadcast_axes_rev, reverse_involutive.
Qed.

Lemma wf_view_shape v : wf_view v ↔ Forall (λ d, 0 ≤ d) (vshape v).
Proof. unfold wf_view, vshape. by rewrite Forall_fmap. Qed.

Lemma length_elems {T} `{Inhabited T} (a : ndarray T) :
  Forall (λ d, 0 ≤ d) (shape a) →
  length (elems a) = Z.to_nat (prod_list (shape a)).
Proof.
  intros Hwf. apply wf_view_shape in Hwf. unfold elems, vaddrs.
  rewrite length_fmap. pose proof (length_addrs _ (offset (vw a)) Hwf) as Hl.
  unfold shape, vshape. lia.
Qed.

Lemma length_elems_broadcast {T} `{Inhabited T} (a : ndarray T) shp :
  Forall (λ d, 0 ≤ d) shp →
  length (elems (broadcast_to a shp)) = Z.to_nat (prod_list shp).
Proof.
  intros Hshp. rewrite length_elems; by rewrite shape_broadcast_to.
Qed.

Lemma broadcast_rev_nonneg s1 : ∀ s2 s,
  Forall (λ d, 0 ≤ d) s1 → Forall (λ d, 0 ≤ d) s2 →
  broadcast_rev s1 s2 = Ok s → Forall (λ d, 0 ≤ d) s.
Proof.
  induction s1 as [|d1 s1 IH]; intros s2 s H1 H2 Hb.
  { by injection Hb as <-. }
  destruct s2 as [|d2 s2]; [by injection Hb as <-|].
  apply Forall_cons in H1 as [Hd1 H1]. apply Forall_cons in H2 as [Hd2 H2].
  cbn [broadcast_rev] in Hb.
  apply bind_result_Ok in Hb as (r & Hr & Hb).
  specialize (IH _ _ H1 H2 Hr).
  destruct (d1 =? d2); [injection Hb as <-; by constructor|].
  destruct (d1 =? 1); [injection Hb as <-; by constructor|].
  destruct (d2 =? 1); [injection Hb as <-; by constructor|done].
Qed.

Lemma broadcast_shapes_nonneg s1 s2 s :
  Forall (λ d, 0 ≤ d) s1 → Forall (λ d, 0 ≤ d) s2 →
  broadcast_shapes s1 s2 = Ok s → Forall (λ d, 0 ≤ d) s.
Proof.
  intros H1 H2. unfold broadcast_shapes.
  destruct (broadcast_rev _ _) as [r|] eqn:Hr; [|done]. intros [= <-].
  apply Forall_reverse. eapply broadcast_rev_nonneg; [| |done];
    by apply Forall_reverse.
Qed.

(** The only exception of broadcasting. *)
Lemma broadcast_shapes_Raise s1 s2 e :
  broadcast_shapes s1 s2 = Raise e →
  e = ValueError
        "shape mismatch: objects cannot be broadcast to a single shape".
Proof.
  unfold broadcast_shapes.
  destruct (broadcast_rev _ _) as [r|e'] eqn:Hr; [done|]. intros [= <-].
  revert Hr. generalize (reverse s2). generalize (reverse s1). clear.
  intros s1. induction s1 as [|d1 s1 IH]; intros [|d2 s2] Hr; try done.
  cbn [broadcast_rev] in Hr.
  destruct (broadcast_rev s1 s2) as [r|e''] eqn:Hr'.
  - rewrite bind_Ok in Hr. destruct (d1 =? d2); [done|].
    destruct (d1 =? 1); [done|]. destruct (d2 =? 1); [done|].
    by injection Hr as <-.
  - injection Hr as <-. by eapply IH.
Qed.

(** *** Assignments under a mask *)

Lemma length_select {T} (mask : list bool) : ∀ (a : list T),
  length mask = length a → length (select mask a) = count_true mask.
Proof.
  induction mask as [|b mask IH]; intros [|x a] Hlen; try done.
  injection Hlen as Hlen. rewrite count_true_cons. cbn [select].
  destruct b; cbn [length]; rewrite IH by done; lia.
Qed.

Lemma mask_assign_select {T C} (P : Z → bool) (f : C → T) (mb : list Z) :
  ∀ (a : list T) (sh : list C),
  length a = length mb → length sh = length mb →
  mask_assign a (P <$> mb) (f <$> select (P <$> mb) sh)
  = zip_with (λ x mc, if P mc.1 then f mc.2 else x) a (zip mb sh).
Proof.
  induction mb as [|m mb IH]; intros [|x a] [|c sh] Ha Hs; try done.
  injection Ha as Ha. injection Hs as Hs.
  cbn [fmap list_fmap select mask_assign zip zip_with fst snd].
  destruct (P m); cbn [fmap list_fmap]; by rewrite IH.
Qed.

Lemma setitem_mask_select {T C} (P : Z → bool) (f : C → T) (mb : list Z)
    (a : list T) (sh : list C) :
  length a = length mb → length sh = length mb →
  setitem_mask a (P <$> mb) (f <$> select (P <$> mb) sh)
  = Ok (zip_with (λ x mc, if P mc.1 then f mc.2 else x) a (zip mb sh)).
Proof.
  intros Ha Hs. unfold setitem_mask.
  rewrite decide_True by (by rewrite length_fmap).
  unfold broadcast_rows.
  rewrite decide_True
    by (rewrite length_fmap; apply length_select; by rewrite length_fmap).
  cbn [mret result_ret]. rewrite bind_Ok. by rewrite mask_assign_select.
Qed.

Lemma three_passes {T C} (h1 h2 h3 : T → C → T) (g : C → T) (u : T)
    (l : list C) :
  (∀ c, h3 (h2 (h1 u c) c) c = g c) →
  zip_with h3 (zip_with h2 (zip_with h1 (replicate (length l) u) l) l) l
  = g <$> l.
Proof.
  intros Hg. induction l as [|c l IH]; [done|].
  cbn [length replicate zip_with fmap list_fmap]. by rewrite IH, Hg.
Qed.

(** *** [real_sph_harm] *)

Section RealSphHarm.
Context {F : Type}.
Variable uninit_f : F.
Variable sph_harm : Z → Z → F → F → F * F.
Variable sqrt2 : F.
Variable fmul : F → F → F.

Local Abbreviation elems_f := (@elems F (populate uninit_f)).

Lemma real_harm_passes (mb nb : list Z) : ∀ (tb pb : list F),
(λ mc : Z * (F * F),
   if bool_decide (mc.1 < 0) then fmul mc.2.2 sqrt2
   else if bool_decide (0 < mc.1) then fmul mc.2.1 sqrt2
   else if bool_decide (mc.1 = 0) then mc.2.1 else uninit_f)
  <$> zip mb (zip_with (λ mn tp, sph_harm mn.1 mn.2 tp.1 tp.2)
                (zip mb nb) (zip tb pb))
= zip_with (λ mn tp, real_harm sph_harm sqrt2 fmul mn.1 mn.2 tp.1 tp.2)
    (zip mb nb) (zip tb pb).
Proof.
revert nb. induction mb as [|m mb IH]; intros [|n nb] [|t tb] [|p pb];
  try done.
cbn [zip zip_with fmap list_fmap fst snd]. rewrite IH. f_equal.
unfold real_harm. cbv zeta.
destruct (Z.eqb_spec m 0) as [->|Hm]; [done|].
destruct (Z.ltb_spec 0 m).
- rewrite bool_decide_eq_false_2 by lia.
  by rewrite bool_decide_eq_true_2 by lia.
- by rewrite bool_decide_eq_true_2 by lia.
Qed.

(** The shape to which [real_sph_harm] broadcasts its four arguments. *)
Lemma atleast_1d_shape {T} (a : ndarray T) :
Forall (λ d, 0 ≤ d) (shape a) → Forall (λ d, 0 ≤ d) (shape (atleast_1d a)).
Proof.
intros Hwf. unfold atleast_1d. destruct (axes (vw a)) eqn:Hax; [|done].
unfold shape, vshape. cbn. by repeat constructor.
Qed.

(** The run of [real_sph_harm]: the entries on shapes that broadcast, the
  error on shapes that do not. *)
Lemma real_sph_harm_run (m n : ndarray Z) (theta phi : ndarray F) :
Forall (λ d, 0 ≤ d) (shape m) → Forall (λ d, 0 ≤ d) (shape n) →
Forall (λ d, 0 ≤ d) (shape theta) → Forall (λ d, 0 ≤ d) (shape phi) →
let common :=
  s ← broadcast_shapes (shape (atleast_1d m)) (shape n);
  s ← broadcast_shapes s (shape theta);
  broadcast_shapes s (shape phi) in
(∀ shp, common = Ok shp →
   let entries :=
     zip_with (λ mn tp, real_harm sph_harm sqrt2 fmul mn.1 mn.2 tp.1 tp.2)
       (zip (elems (broadcast_to (atleast_1d m) shp))
            (elems (broadcast_to n shp)))
       (zip (elems_f (broadcast_to theta shp))
            (elems_f (broadcast_to phi shp))) in
   real_sph_harm uninit_f sph_harm sqrt2 fmul m n theta phi
   = ([EvSphHarm], Ok (fresh shp entries)) ∧
   Z.of_nat (length entries) = prod_list shp) ∧
(∀ e, common = Raise e →
   real_sph_harm uninit_f sph_harm sqrt2 fmul m n theta phi = ([], Raise e) ∧
   e = ValueError
         "shape mismatch: objects cannot be broadcast to a single shape").
Proof.
intros Hm Hn Ht Hp common. split.
- intros shp Hshp entries.
  assert (Forall (λ d, 0 ≤ d) shp) as Hnn.
  { unfold common in Hshp.
    apply bind_result_Ok in Hshp as (s1 & Hs1 & Hshp).
    apply bind_result_Ok in Hshp as (s2 & Hs2 & Hshp).
    apply atleast_1d_shape in Hm.
    eauto using broadcast_shapes_nonneg. }
  set (mb := elems (broadcast_to (atleast_1d m) shp)) in *.
  set (nb := elems (broadcast_to n shp)) in *.
  set (tb := elems_f (broadcast_to theta shp)) in *.
  set (pb := elems_f (broadcast_to phi shp)) in *.
  set (k := Z.to_nat (prod_list shp)).
  assert (length mb = k) as Hlm by (by apply length_elems_broadcast).
  assert (length nb = k) as Hln by (by apply length_elems_broadcast).
  assert (length tb = k) as Hlt by (by apply length_elems_broadcast).
  assert (length pb = k) as Hlp by (by apply length_elems_broadcast).
  assert (length entries = k) as Hle.
  { unfold entries. rewrite length_zip_with, !length_zip. lia. }
  split.
  2:{ rewrite Hle. unfold k. pose proof (prod_list_nonneg _ Hnn). lia. }
  unfold real_sph_harm, SphHarm_inhabited. fold common.
  rewrite Hshp, M_bind_lift_Ok. fold mb nb tb pb.
  set (sh := zip_with (λ mn tp, sph_harm mn.1 mn.2 tp.1 tp.2)
               (zip mb nb) (zip tb pb)).
  assert (length sh = length mb) as Hsh.
  { unfold sh. rewrite length_zip_with, !length_zip. lia. }
  assert (∀ (h : F → Z * (F * F) → F) (a : list F),
            length a = length mb →
            length (zip_with h a (zip mb sh)) = length mb) as Hpass.
  { intros h a Ha. rewrite length_zip_with, length_zip, Ha, Hsh.
    by rewrite !Nat.min_id. }
  unfold log. cbn [mbind M_bind].
  rewrite (setitem_mask_select (λ x, bool_decide (x = 0)) fst mb _ sh)
    by (by rewrite ?length_replicate).
  rewrite M_bind_lift_Ok.
  rewrite (setitem_mask_select (λ x, bool_decide (0 < x))
             (λ c, fmul c.1 sqrt2) mb _ sh)
    by (done || (repeat apply Hpass; by rewrite length_replicate)).
  rewrite M_bind_lift_Ok.
  rewrite (setitem_mask_select (λ x, bool_decide (x < 0))
             (λ c, fmul c.2 sqrt2) mb _ sh)
    by (done || (repeat apply Hpass; by rewrite length_replicate)).
  rewrite M_bind_lift_Ok. cbn [mret M_ret app].
  replace (length sh) with (length (zip mb sh)) by (rewrite length_zip; lia).
  rewrite (three_passes _ _ _
    (λ mc : Z * (F * F),
       if bool_decide (mc.1 < 0) then fmul mc.2.2 sqrt2
       else if bool_decide (0 < mc.1) then fmul mc.2.1 sqrt2
       else if bool_decide (mc.1 = 0) then mc.2.1 else uninit_f))
    by done.
  unfold sh. rewrite real_harm_passes. done.
- intros e He. split.
  + unfold real_sph_harm. fold common. by rewrite He.
  + unfold common in He.
    destruct (broadcast_shapes (shape (atleast_1d m)) (shape n))
      as [s1|e1] eqn:H1.
    2:{ injection He as <-. by eapply broadcast_shapes_Raise. }
    rewrite bind_Ok in He.
    destruct (broadcast_shapes s1 (shape theta)) as [s2|e2] eqn:H2.
    2:{ injection He as <-. by eapply broadcast_shapes_Raise. }
    rewrite bind_Ok in He. by eapply broadcast_shapes_Raise.
Qed.

(** When its four arguments broadcast to a shape, [real_sph_harm] calls
  [scipy.special.sph_harm] once and returns an array of that shape whose
  every entry is the real harmonic of the docstring at the broadcast
  arguments: the assignments for [m = 0], [m > 0] and [m < 0] leave no
  entry of the [np.empty] array as it was.  When they do not broadcast it
  raises [ValueError] and calls nothing. *)
Theorem real_sph_harm_pointwise (m n : ndarray Z) (theta phi : ndarray F) :
Forall (λ d, 0 ≤ d) (shape m) → Forall (λ d, 0 ≤ d) (shape n) →
Forall (λ d, 0 ≤ d) (shape theta) → Forall (λ d, 0 ≤ d) (shape phi) →
let common :=
  s ← broadcast_shapes (shape (atleast_1d m)) (shape n);
  s ← broadcast_shapes s (shape theta);
  broadcast_shapes s (shape phi) in
(∀ shp, common = Ok shp →
   let entries :=
     zip_with (λ mn tp, real_harm sph_harm sqrt2 fmul mn.1 mn.2 tp.1 tp.2)
       (zip (elems (broadcast_to (atleast_1d m) shp))
            (elems (broadcast_to n shp)))
       (zip (elems_f (broadcast_to theta shp))
            (elems_f (broadcast_to phi shp))) in
   real_sph_harm uninit_f sph_harm sqrt2 fmul m n theta phi
   = ([EvSphHarm], Ok (fresh shp entries)) ∧
   Z.of_nat (length entries) = prod_list shp) ∧
(∀ e, common = Raise e →
   real_sph_harm uninit_f sph_harm sqrt2 fmul m n theta phi = ([], Raise e) ∧
   e = ValueError
         "shape mismatch: objects cannot be broadcast to a single shape").
Proof. exact (real_sph_harm_run m n theta phi). Qed.

End RealSphHarm.

Lemma real_sph_harm_pointwise_witness :
  Forall (λ d, 0 ≤ d) (shape (fresh [3; 1] [-1; 0; 1])) ∧
  Forall (λ d, 0 ≤ d) (shape (fresh [3; 1] [2; 2; 2])) ∧
  Forall (λ d, 0 ≤ d) (shape (fresh [2] [10; 20])) ∧
  Forall (λ d, 0 ≤ d) (shape (fresh [2] [1; 2])) ∧
  real_sph_harm 0 (λ m n t p, (m + t, n + p)) 2 Z.mul
    (fresh [3; 1] [-1; 0; 1]) (fresh [3; 1] [2; 2; 2])
    (fresh [2] [10; 20]) (fresh [2] [1; 2])
  = ([EvSphHarm], Ok (fresh [3; 2] [6; 8; 10; 20; 22; 42])) ∧
  real_sph_harm 0 (λ m n t p, (m + t, n + p)) 2 Z.mul
    (fresh [3; 1] [-1; 0; 1]) (fresh [3; 1] [2; 2; 2])
    (fresh [2] [10; 20]) (fresh [3] [1; 2; 3])
  = ([], Raise (ValueError
       "shape mismatch: objects cannot be broadcast to a single shape")).
Proof.
  set (m := fresh [3; 1] [-1; 0; 1]). set (n := fresh [3; 1] [2; 2; 2]).
  set (theta := fresh [2] [10; 20]). set (phi := fresh [2] [1; 2]).
  assert (Forall (λ d, 0 ≤ d) (shape m)) as Hm by forall_literal [3; 1].
  assert (Forall (λ d, 0 ≤ d) (shape n)) as Hn by forall_literal [3; 1].
  assert (Forall (λ d, 0 ≤ d) (shape theta)) as Ht by forall_literal [2].
  assert (Forall (λ d, 0 ≤ d) (shape phi)) as Hp by forall_literal [2].
  assert (Forall (λ d, 0 ≤ d) (shape (fresh [3] [1; 2; 3]))) as Hp'
    by forall_literal [3].
  split; [exact Hm|]. split; [exact Hn|]. split; [exact Ht|].
  split; [exact Hp|]. split.
  - destruct (real_sph_harm_pointwise 0 (λ m n t p, (m + t, n + p)) 2 Z.mul
                m n theta phi Hm Hn Ht Hp) as [Hok _].
    destruct (Hok [3; 2] eq_refl) as [Hrun _].
    etrans; [exact Hrun|reflexivity].
  - destruct (real_sph_harm_pointwise 0 (λ m n t p, (m + t, n + p)) 2 Z.mul
                m n theta (fresh [3] [1; 2; 3]) Hm Hn Ht Hp') as [_ Hno].
    destruct (Hno _ eq_refl) as [Hrun _]. exact Hrun.
Defined.

End HarmonicsFacts.

(** ** Laws of the masked parameter store *)

Module StoreLaws.
Import ModelParams StoreFacts ODFFacts.

(** *** The constructor *)

Lemma index_volume_spec_mask bs : ∀ c,
  0 ≤ c → (λ x, bool_decide (0 ≤ x)) <$> index_volume_spec c bs = bs.
Proof.
  induction bs as [|[] bs IH]; intros c Hc; [done| |]; cbn.
  - rewrite IH by lia. by rewrite bool_decide_eq_true_2.
  - by rewrite IH.
Qed.

Lemma shape_fresh {T} shp (data : list T) : shape (fresh shp data) = shp.
Proof. apply vshape_c_axes. Qed.

Lemma mask_fresh shp bs sc loc :
  Forall (λ d, 0 ≤ d) shp → Z.of_nat (length bs) = prod_list shp →
  mask (Make (fresh shp (index_volume_spec 0 bs)) sc loc) = BoolArray shp bs.
Proof.
  intros Hshp Hlen. unfold mask. cbn [_imask].
  rewrite shape_fresh, elems_fresh
    by (done || by rewrite index_volume_spec_length).
  by rewrite index_volume_spec_mask.
Qed.

Lemma init_returns {A} (h : heap A) m data d :
  wf_mask m → h !! data = Some d →
  (0 < count_true (bdata m))%nat → length (drows d) = count_true (bdata m) →
  ∃ self, __init__ h m data = Ok self.
Proof.
  intros Hwf Hd Hk Hrows. rewrite (init_unfold _ _ _ d) by done. cbv zeta.
  rewrite py_last_seqZ, bind_Ok by lia. rewrite Hrows, Z.eqb_refl.
  by eexists.
Qed.

(** The mask read back from a store is the mask the store was built from,
    with its shape, and the store holds the data array it was given, not a
    copy. *)
Theorem init_mask_round_trip {A} (h : heap A) m data d self :
  wf_mask m → h !! data = Some d →
  Z.of_nat (count_true (bdata m)) < 2 ^ 31 →
  __init__ h m data = Ok self →
  mask self = m ∧ _get_shape self = bshape m ∧ _data self = data ∧
  masked_rows self = seqZ 0 (Z.of_nat (length (drows d))).
Proof.
  intros Hwf Hd Hk Hinit.
  destruct (init_Ok_inv _ _ _ _ _ Hwf Hd Hinit) as [Hrows Hpos].
  rewrite (init_success _ _ _ d) in Hinit by (done || lia).
  injection Hinit as <-. destruct Hwf as [Hshp Hlen].
  assert (mask (Make (fresh (bshape m) (index_volume_spec 0 (bdata m)))
                     false data) = m) as Hmask.
  { etrans; [apply (mask_fresh (bshape m) (bdata m)); done|]. by destruct m. }
  split_and!; [done| |done|].
  - unfold _get_shape. cbn [_imask]. apply shape_fresh.
  - rewrite masked_rows_filter. cbn [_imask].
    rewrite elems_fresh by (done || by rewrite index_volume_spec_length).
    rewrite Hrows. by apply index_volume_spec_rows.
Qed.

Lemma init_mask_round_trip_witness :
  wf_mask Examples.mask3 ∧
  mask Examples.store3 = Examples.mask3 ∧
  _get_shape Examples.store3 = [3] ∧
  masked_rows Examples.store3 = [0; 1].
Proof.
  assert (wf_mask Examples.mask3) as Hwf.
  { split; [|reflexivity]. cbn. forall_literal [3]. }
  split; [exact Hwf|].
  destruct (init_mask_round_trip Examples.heap3 Examples.mask3 0%nat
              (DataArray int32 [] [10; 20]) Examples.store3 Hwf eq_refl
              ltac:(by vm_compute) eq_refl) as (Hm & Hs & _ & Hr).
  split; [exact Hm|]. split; [exact Hs|exact Hr].
Defined.

(** The constructor returns a store exactly when the mask has a True entry
    and the data array has one row for each True entry; with a True entry
    and another number of rows it raises the [ValueError] of the module. *)
Theorem init_returns_iff {A} (h : heap A) m data d :
  wf_mask m → h !! data = Some d →
  ((∃ self, __init__ h m data = Ok self) ↔
   (0 < count_true (bdata m))%nat ∧ length (drows d) = count_true (bdata m)) ∧
  ((0 < count_true (bdata m))%nat →
   length (drows d) ≠ count_true (bdata m) →
   __init__ h m data = Raise (ValueError msg_data_mask)).
Proof.
  intros Hwf Hd. split; [split|].
  - intros [self Hinit].
    destruct (init_Ok_inv _ _ _ _ _ Hwf Hd Hinit). done.
  - intros [Hk Hrows]. by apply (init_returns h m data d).
  - intros Hk Hne. by apply (init_mismatch h m data d).
Qed.

Lemma init_returns_iff_witness :
  wf_mask Examples.mask3 ∧
  __init__ [DataArray int32 [] [10; 20; 30]] Examples.mask3 0
  = Raise (ValueError msg_data_mask).
Proof.
  assert (wf_mask Examples.mask3) as Hwf.
  { split; [|reflexivity]. cbn. forall_literal [3]. }
  split; [exact Hwf|].
  apply (init_returns_iff [DataArray int32 [] [10; 20; 30]] Examples.mask3
           0%nat (DataArray int32 [] [10; 20; 30]) Hwf eq_refl).
  - vm_compute. lia.
  - vm_compute. lia.
Defined.

(** *** Reshaping in place *)

Lemma contiguous_c_axes shp : contiguous_from (c_axes shp) = Some (prod_list shp).
Proof.
  induction shp as [|d shp IH]; [done|]. cbn [c_axes contiguous_from].
  rewrite IH. cbn. destruct (Z.eqb_spec d 1) as [->|].
  - f_equal. unfold prod_list. cbn. fold (prod_list shp). lia.
  - rewrite Z.eqb_refl. f_equal. unfold prod_list. cbn. fold (prod_list shp).
    lia.
Qed.

Lemma is_c_contiguous_c_view off shp :
  is_c_contiguous (View off (c_axes shp)) = true.
Proof.
  unfold is_c_contiguous. cbn [axes]. rewrite contiguous_c_axes.
  rewrite (bool_decide_eq_true_2 (is_Some _)) by done. apply orb_true_r.
Qed.

Lemma filter_Forall_id {T} (P : T → Prop) `{∀ x, Decision (P x)} (l : list T) :
  Forall P l → filter P l = l.
Proof.
  induction 1 as [|x l Hx _ IH]; [done|].
  by rewrite filter_cons_True, IH.
Qed.

Lemma filter_Forall_nil {T} (P : T → Prop) `{∀ x, Decision (P x)} (l : list T) :
  Forall (λ x, ¬ P x) l → filter P l = [].
Proof.
  induction 1 as [|x l Hx _ IH]; [done|].
  by rewrite filter_cons_False.
Qed.

Lemma infer_shape_known total value :
  Forall (λ d, 0 ≤ d) value →
  infer_shape total value
  = if total =? prod_list value then Ok value
    else Raise (ValueError "cannot reshape array").
Proof.
  intros Hnn. unfold infer_shape.
  assert (filter (λ d, d < 0) value = []) as ->.
  { apply filter_Forall_nil. eapply Forall_impl; [done|]. cbn. lia. }
  assert (filter (λ d, 0 ≤ d) value = value) as ->.
  { by apply filter_Forall_id. }
  done.
Qed.

Lemma array_heap_local {A} (cast : np_dtype → A → A) (h h' : heap A) self dt :
  h' !! _data self = h !! _data self →
  __array__ cast h' self dt = __array__ cast h self dt.
Proof. intros Heq. unfold __array__, dtype, deref. by rewrite Heq. Qed.

Lemma array_same_rows {A} (cast : np_dtype → A → A) (h : heap A) s1 s2 dt :
  _data s1 = _data s2 → masked_rows s1 = masked_rows s2 →
  __array__ cast h s1 dt = __array__ cast h s2 dt.
Proof. intros Hd Hr. unfold __array__, dtype. by rewrite Hd, Hr. Qed.

(** Setting the shape of a store or of a view of a store, contiguous or
    strided, changes the shape only: the same positions are masked, in scan
    order, they address the same rows of the same data array, and
    [__array__] returns what it returned before.  The new shape has as many
    elements as the old one and the entries of the value assigned that are
    not negative; it is the value when no entry is negative. *)
Theorem set_shape_keeps_rows {A} (cast : np_dtype → A → A) (h : heap A)
    self value new dt :
  wf_array (vw (_imask self)) → _set_shape self value = Ok new →
  bdata (mask new) = bdata (mask self) ∧
  masked_rows new = masked_rows self ∧
  _data new = _data self ∧
  prod_list (_get_shape new) = prod_list (_get_shape self) ∧
  Forall2 (λ given d, 0 ≤ d ∧ (0 ≤ given → d = given))
          value (_get_shape new) ∧
  (Forall (λ d, 0 ≤ d) value → _get_shape new = value) ∧
  __array__ cast h new dt = __array__ cast h self dt.
Proof.
  intros Hwf Hset.
  destruct (set_shape_elems _ _ _ Hwf Hset)
    as (Hwf' & Hdata & Helems & Hgiven & Hshape).
  assert (masked_rows new = masked_rows self) as Hrows.
  { by rewrite !masked_rows_filter, Helems. }
  split_and!; [|done|done| |done|done|by apply array_same_rows].
  - unfold mask. cbn [bdata]. by rewrite Helems.
  - destruct Hwf as [Hwf _], Hwf' as [Hwf' _]. unfold _get_shape, shape, vshape.
    rewrite <- (length_addrs _ (offset (vw (_imask new)))) by done.
    rewrite <- (length_addrs _ (offset (vw (_imask self)))) by done.
    apply (f_equal length) in Helems. unfold elems, vaddrs in Helems.
    rewrite !length_fmap in Helems. by rewrite Helems.
Qed.

Lemma set_shape_keeps_rows_witness :
  ∃ v new,
    __getitem__ Examples.store3 [Slice None None (Some 2)] = Ok v ∧
    axes (vw (_imask v)) = [(2, 2)] ∧
    wf_array (vw (_imask v)) ∧
    _set_shape v [-5; 1] = Ok new ∧
    _get_shape new = [2; 1] ∧ masked_rows new = [0; 1] ∧
    __array__ Examples.no_cast Examples.heap3 new (Some int32)
    = Ok (DataArray int32 [] [10; 20]).
Proof.
  eexists _, _. split; [reflexivity|]. split; [reflexivity|].
  match goal with |- wf_array (vw (_imask ?s)) ∧ _ => set (v := s) end.
  assert (wf_array (vw (_imask v))) as Hwf.
  { wf_array_literal [(2, 2)]. }
  split; [exact Hwf|]. split; [reflexivity|]. split; [reflexivity|].
  destruct (set_shape_keeps_rows Examples.no_cast Examples.heap3
              v [-5; 1] _ (Some int32) Hwf eq_refl)
    as (_ & Hr & _ & _ & _ & _ & Ha).
  split; [exact Hr|exact Ha].
Defined.

(** On a fresh array the assignment of a shape without negative entries
    succeeds exactly when the numbers of elements agree. *)
Lemma set_shape_fresh shp value :
  Forall (λ d, 0 ≤ d) shp → Forall (λ d, 0 ≤ d) value →
  set_shape (c_view shp) value
  = if prod_list shp =? prod_list value then Ok (c_view value)
    else Raise (ValueError "cannot reshape array").
Proof.
  intros Hshp Hnn. unfold set_shape, c_view, vshape. cbn [axes offset].
  rewrite vshape_c_axes. case_bool_decide as Hsame.
  { subst value. by rewrite Z.eqb_refl. }
  rewrite infer_shape_known by done.
  destruct (prod_list shp =? prod_list value); [|done].
  rewrite bind_Ok. by rewrite is_c_contiguous_c_view.
Qed.

(** A store as the constructor returns it can be given every shape of as
    many elements as its mask; the mask read back has the new shape and the
    same entries in scan order.  A shape of another number of elements is
    refused with [ValueError]. *)
Theorem set_shape_after_init {A} (h : heap A) m data d self value :
  wf_mask m → h !! data = Some d →
  Z.of_nat (count_true (bdata m)) < 2 ^ 31 →
  __init__ h m data = Ok self →
  Forall (λ d, 0 ≤ d) value →
  (prod_list value = prod_list (bshape m) →
   ∃ new, _set_shape self value = Ok new ∧ _get_shape new = value ∧
          mask new = BoolArray value (bdata m) ∧ _data new = data) ∧
  (prod_list value ≠ prod_list (bshape m) →
   _set_shape self value = Raise (ValueError "cannot reshape array")).
Proof.
  intros Hwf Hd Hk Hinit Hnn.
  destruct (init_Ok_inv _ _ _ _ _ Hwf Hd Hinit) as [Hrows Hpos].
  rewrite (init_success _ _ _ d) in Hinit by (done || lia).
  injection Hinit as <-. destruct Hwf as [Hshp Hlen].
  unfold _set_shape, fresh. cbn [_imask_scalar _imask _data vw buf].
  rewrite (set_shape_fresh _ _ Hshp Hnn). split.
  - intros Hprod. rewrite Hprod, Z.eqb_refl, bind_Ok.
    cbn [mret result_ret]. eexists. split; [done|].
    split_and!; [apply vshape_c_axes| |done].
    etrans; [|apply (mask_fresh value (bdata m)); [done|congruence]].
    done.
  - intros Hne. destruct (Z.eqb_spec (prod_list (bshape m)) (prod_list value));
      [congruence|done].
Qed.

Lemma set_shape_after_init_witness :
  wf_mask Examples.mask3 ∧
  (∃ new, _set_shape Examples.store3 [1; 3] = Ok new ∧
          mask new = BoolArray [1; 3] [true; false; true]) ∧
  _set_shape Examples.store3 [2; 2] = Raise (ValueError "cannot reshape array").
Proof.
  assert (wf_mask Examples.mask3) as Hwf.
  { split; [|reflexivity]. cbn. forall_literal [3]. }
  split; [exact Hwf|].
  assert (Forall (λ d, 0 ≤ d) [1; 3]) as H13 by forall_literal [1; 3].
  assert (Forall (λ d, 0 ≤ d) [2; 2]) as H22 by forall_literal [2; 2].
  destruct (set_shape_after_init Examples.heap3 Examples.mask3 0%nat
              (DataArray int32 [] [10; 20]) Examples.store3 [1; 3] Hwf eq_refl
              ltac:(by vm_compute) eq_refl H13) as [Hyes _].
  destruct (set_shape_after_init Examples.heap3 Examples.mask3 0%nat
              (DataArray int32 [] [10; 20]) Examples.store3 [2; 2] Hwf eq_refl
              ltac:(by vm_compute) eq_refl H22) as [_ Hno].
  split.
  - destruct (Hyes eq_refl) as (new & Hset & _ & Hmask & _).
    exists new. split; [exact Hset|exact Hmask].
  - apply Hno. vm_compute. discriminate.
Defined.

(** A view of one axis always has strides for a new shape of as many
    elements. *)
Lemma set_shape_one_axis_view off d s value :
  0 ≤ d → Forall (λ x, 0 ≤ x) value →
  set_shape (View off [(d, s)]) value
  = Raise (ValueError "cannot reshape array") ∧ prod_list value ≠ d ∨
  (∃ v', set_shape (View off [(d, s)]) value = Ok v') ∧ prod_list value = d.
Proof.
  intros Hd Hnn. unfold set_shape, vshape. cbn [axes offset fmap list_fmap fst].
  case_bool_decide as Hsame.
  { right. split; [by eexists|]. subst value. unfold prod_list. cbn. lia. }
  rewrite infer_shape_known by done.
  replace (prod_list [d]) with d by (unfold prod_list; cbn; lia).
  destruct (Z.eqb_spec d (prod_list value)) as [Hprod|Hprod]; [|left; done].
  right. split; [|done]. rewrite bind_Ok.
  destruct (is_c_contiguous _) eqn:Hc; [by eexists|].
  unfold is_c_contiguous in Hc. cbn [vshape axes fmap list_fmap fst] in Hc.
  apply orb_false_iff in Hc as [Hz Hone].
  apply bool_decide_eq_false in Hz. apply bool_decide_eq_false in Hone.
  assert (d ≠ 0) as Hd0.
  { intros ->. apply Hz. by left. }
  assert (d ≠ 1) as Hd1.
  { intros ->. apply Hone. by eexists. }
  unfold squeeze_axes. rewrite filter_cons_True, filter_nil by done.
  destruct value as [|v0 rest].
  { unfold prod_list in Hprod. cbn in Hprod. lia. }
  assert (Forall (λ x, 0 < x) (v0 :: rest)) as Hpos.
  { apply positive_dims; [done|lia]. }
  apply Forall_cons in Hpos as [Hv0 Hrest].
  change (length (v0 :: rest)) with (S (length rest)). cbn [nocopy_axes].
  destruct (take_group_total (length rest + length (@nil (Z * Z))) v0 d
              [v0] [(d, s)] rest []) as [[[[ng og] new''] old''] Hg];
    [done|lia|done|done| |done|].
  { cbn [prod_list foldr] in Hprod. fold (prod_list rest) in Hprod.
    unfold prod_list at 2. cbn. lia. }
  rewrite Hg. cbn [mbind option_bind].
  apply take_group_spec in Hg as (_ & Ho & _ & _ & [t Ht]);
    [|unfold prod_list; cbn; lia..].
  rewrite Ht in Ho. cbn [app] in Ho.
  injection Ho as Ho. symmetry in Ho. apply app_eq_nil in Ho as [-> ->].
  subst og. cbn [app mergeable].
  destruct new'' as [|x new''], (length rest) as [|n]; cbn; by eexists.
Qed.

(** A store over a volume of one axis, contiguous or strided (a slice
    [store[a:b:c]] of a one-dimensional store, also with a negative step),
    can be given every shape of as many elements, and the masked positions
    and their rows are then as before; a shape of another number of
    elements is refused with [ValueError]. *)
Theorem set_shape_one_axis self d s value :
  _imask_scalar self = false →
  axes (vw (_imask self)) = [(d, s)] → 0 ≤ d →
  Forall (λ x, 0 ≤ x) value →
  (prod_list value = d →
   ∃ new, _set_shape self value = Ok new ∧ _get_shape new = value ∧
          bdata (mask new) = bdata (mask self) ∧
          masked_rows new = masked_rows self ∧ _data new = _data self) ∧
  (prod_list value ≠ d →
   _set_shape self value = Raise (ValueError "cannot reshape array")).
Proof.
  intros Hsc Hax Hd Hnn. unfold _set_shape. rewrite Hsc.
  destruct (_imask self) as [b [off ax]] eqn:Himask. cbn [vw axes buf] in *.
  subst ax.
  destruct (set_shape_one_axis_view off d s value Hd Hnn)
    as [[Hset Hne]|[[v' Hset] Heq]]; (split; [|done || by rewrite Hset]).
  - done.
  - intros _. rewrite Hset, bind_Ok. eexists. split; [done|].
    apply set_shape_addrs in Hset as (_ & Haddr & _ & Hshape).
    2:{ unfold wf_view. cbn. by repeat constructor. }
    assert (elems (NdArray b v') = elems (NdArray b (View off [(d, s)])))
      as Helems.
    { unfold elems. cbn [buf vw]. by rewrite Haddr. }
    split_and!; [by apply Hshape| | |done].
    + unfold mask. cbn [bdata _imask]. by rewrite Helems, Himask.
    + rewrite !masked_rows_filter. cbn [_imask]. by rewrite Helems, Himask.
Qed.

Lemma set_shape_one_axis_witness :
  ∃ v new,
    __getitem__ Examples.store3 [Slice None None (Some (-2))] = Ok v ∧
    axes (vw (_imask v)) = [(2, -2)] ∧
    _set_shape v [1; 2; 1] = Ok new ∧
    _get_shape new = [1; 2; 1] ∧ masked_rows new = [1; 0] ∧
    _set_shape v [3] = Raise (ValueError "cannot reshape array").
Proof.
  eexists _, _. split; [reflexivity|]. split; [reflexivity|].
  match goal with |- _set_shape ?s _ = _ ∧ _ => set (v := s) end.
  assert (Forall (λ x, 0 ≤ x) [1; 2; 1]) as H121 by forall_literal [1; 2; 1].
  assert (Forall (λ x, 0 ≤ x) [3]) as H3 by forall_literal [3].
  destruct (set_shape_one_axis v 2 (-2) [1; 2; 1] eq_refl eq_refl
              ltac:(lia) H121) as [Hyes _].
  destruct (set_shape_one_axis v 2 (-2) [3] eq_refl eq_refl ltac:(lia) H3)
    as [_ Hno].
  destruct (Hyes eq_refl) as (new & Hset & Hshape & _ & Hrows & _).
  split; [reflexivity|].
  assert (new = Make (NdArray [0; -1; 1] (View 2 [(1, -4); (2, -2); (1, -2)]))
                     false 0) as Hnew.
  { vm_compute in Hset. by injection Hset as <-. }
  split; [|split; [|apply Hno; vm_compute; discriminate]].
  - etrans; [|exact Hshape]. by rewrite Hnew.
  - etrans; [|exact Hrows]. by rewrite Hnew.
Defined.

(** *** Copies *)

Lemma take_rows_all {A} (d : dataarray A) :
  take_rows d (seqZ 0 (Z.of_nat (length (drows d)))) = Ok d.
Proof.
  destruct (take_rows_Ok d (seqZ 0 (Z.of_nat (length (drows d)))))
    as (rs & -> & Hall).
  { apply Forall_seqZ. intros; cbn; lia. }
  apply Forall2_seqZ_lookup in Hall as ->. by destruct d.
Qed.

Lemma array_compact {A} (cast : np_dtype → A → A) (h : heap A) self d dt :
  compact h self → h !! _data self = Some d →
  __array__ cast h self dt
  = Ok (if dtype_matches dt (ddtype d) then d else astype cast dt d).
Proof.
  intros (_ & d' & Hd' & _ & Hrows) Hd. assert (d' = d) as -> by congruence.
  unfold __array__, dtype, deref. rewrite Hd. cbn [mret result_ret].
  rewrite !bind_Ok, masked_rows_filter, Hrows, take_rows_all.
  by destruct (dtype_matches dt (ddtype d)).
Qed.

(** Round trip of the data: [np.array(ModelParams(mask, data), data.dtype)]
    is [data]. *)
Theorem array_after_init {A} (cast : np_dtype → A → A) (h : heap A)
    m data d self :
  wf_mask m → h !! data = Some d →
  Z.of_nat (count_true (bdata m)) < 2 ^ 31 →
  __init__ h m data = Ok self →
  __array__ cast h self (Some (ddtype d)) = Ok d.
Proof.
  intros Hwf Hd Hk Hinit.
  destruct (init_Ok_inv _ _ _ _ _ Hwf Hd Hinit) as [Hrows Hpos].
  rewrite (init_success _ _ _ d) in Hinit by (done || lia).
  injection Hinit as <-.
  rewrite (array_compact cast h _ d); [|by apply (compact_fresh h m data d)|done].
  cbn [dtype_matches]. by rewrite bool_decide_eq_true_2.
Qed.

Lemma array_after_init_witness :
  wf_mask Examples.mask3 ∧
  __init__ Examples.heap3 Examples.mask3 0 = Ok Examples.store3 ∧
  __array__ Examples.no_cast Examples.heap3 Examples.store3 (Some int32)
  = Ok (DataArray int32 [] [10; 20]).
Proof.
  assert (wf_mask Examples.mask3) as Hwf.
  { split; [|reflexivity]. cbn. forall_literal [3]. }
  split; [exact Hwf|]. split; [reflexivity|].
  apply (array_after_init Examples.no_cast Examples.heap3 Examples.mask3
           0%nat (DataArray int32 [] [10; 20]) Examples.store3 Hwf eq_refl
           ltac:(by vm_compute) eq_refl).
Defined.

(** [copy] of a store, or of a view of a store, with at least one masked
    position: the rows the index volume addresses are gathered, in scan
    order, in a new data array at the end of the heap, and the copy is a
    compact store over it with the mask of the original; [__array__] of the
    copy returns what [__array__] of the original returns. *)
Theorem copy_fresh_compact {A} (cast : np_dtype → A → A) (h : heap A) self d :
  index_ok h self → h !! _data self = Some d →
  0 < Z.of_nat (length (masked_rows self)) < 2 ^ 31 →
  ∃ new rs,
    let h' := h ++ [DataArray (ddtype d) (drowshape d) rs] in
    copy h self = Ok (new, h') ∧
    Forall2 (λ x row, drows d !! Z.to_nat x = Some row) (masked_rows self) rs ∧
    _data new = length h ∧
    compact h' new ∧
    mask new = mask self ∧
    ∀ dt, __array__ cast h' new dt = __array__ cast h self dt.
Proof.
  intros Hok Hd Hlen. pose proof Hok as (Hwf & _).
  destruct (take_rows_Ok d (masked_rows self)) as (rs & Hrs & Hall).
  { rewrite masked_rows_filter. by apply (index_ok_rows h self d). }
  set (data := DataArray (ddtype d) (drowshape d) rs).
  assert ((h ++ [data]) !! length h = Some data) as Hdata
    by (by rewrite lookup_app_r, Nat.sub_diag).
  pose proof (wf_mask_of _ Hwf) as Hwfm.
  assert (length (drows data) = count_true (bdata (mask self))) as Hrows.
  { rewrite count_true_mask. cbn. symmetry. by eapply Forall2_length. }
  set (new := Make (fresh (shape (_imask self))
                      (index_volume_spec 0 (bdata (mask self)))) false
                   (length h)).
  assert (compact (h ++ [data]) new) as Hcompact.
  { by apply (compact_fresh _ (mask self) _ data). }
  exists new, rs. cbv zeta. fold data. split_and!.
  - unfold copy, deref. rewrite Hd. cbn [mret result_ret].
    rewrite bind_Ok, Hrs, bind_Ok. fold data.
    rewrite (init_success _ _ _ data)
      by (done || (rewrite count_true_mask; lia)).
    done.
  - done.
  - done.
  - done.
  - destruct Hwfm as [Hshp Hl].
    etrans; [apply (mask_fresh (bshape (mask self)) (bdata (mask self))); done|].
    done.
  - intros dt. rewrite (array_compact cast _ new data) by done.
    unfold __array__, dtype, deref. rewrite Hd. cbn [mret result_ret].
    rewrite !bind_Ok, Hrs. change (ddtype data) with (ddtype d).
    by destruct (dtype_matches dt (ddtype d)).
Qed.

Lemma copy_fresh_compact_witness :
  __getitem__ Examples.store3 [Slice (Some 1) None None]
  = Ok (Make (NdArray [0; -1; 1] (View 1 [(2, 1)])) false 0) ∧
  index_ok Examples.heap3 (Make (NdArray [0; -1; 1] (View 1 [(2, 1)])) false 0) ∧
  ∃ new rs,
    copy Examples.heap3 (Make (NdArray [0; -1; 1] (View 1 [(2, 1)])) false 0)
    = Ok (new, Examples.heap3 ++ [DataArray int32 [] rs]) ∧
    _data new = 1%nat ∧
    compact (Examples.heap3 ++ [DataArray int32 [] rs]) new ∧
    mask new = BoolArray [2] [false; true].
Proof.
  split; [reflexivity|].
  assert (index_ok Examples.heap3
            (Make (NdArray [0; -1; 1] (View 1 [(2, 1)])) false 0)) as Hok.
  { split; [wf_array_literal [(2, 1)]|].
    exists (DataArray int32 [] [10; 20]). split; [reflexivity|]. split.
    - change (elems (_imask (Make (NdArray [0; -1; 1] (View 1 [(2, 1)])) false 0)))
        with [-1; 1].
      repeat (apply Forall_cons_2; [cbn; lia|]). apply Forall_nil_2.
    - nodup_literal. }
  split; [exact Hok|].
  destruct (copy_fresh_compact Examples.no_cast Examples.heap3
              (Make (NdArray [0; -1; 1] (View 1 [(2, 1)])) false 0)
              (DataArray int32 [] [10; 20]) Hok eq_refl
              ltac:(by vm_compute)) as (new & rs & Hcopy & _ & Hl & Hc & Hm & _).
  exists new, rs. split; [exact Hcopy|]. split; [exact Hl|].
  split; [exact Hc|]. etrans; [exact Hm|reflexivity].
Defined.

(** [copy] of a view that has no masked position raises [IndexError]: the
    constructor it ends with reads the last element of an empty cumulative
    sum. *)
Theorem copy_no_masked_position {A} (h : heap A) self :
  index_ok h self → masked_rows self = [] →
  copy h self
  = Raise (IndexError "index -1 is out of bounds for axis 0 with size 0").
Proof.
  intros Hok Hnil. pose proof Hok as (Hwf & d & Hd & _).
  unfold copy, deref. rewrite Hd. cbn [mret result_ret].
  rewrite bind_Ok, Hnil. unfold take_rows. cbn [mapM mret result_ret].
  rewrite !bind_Ok.
  set (data := DataArray (ddtype d) (drowshape d) []).
  rewrite (init_empty _ _ _ data); [done|by apply wf_mask_of| |].
  - by rewrite lookup_app_r, Nat.sub_diag.
  - by rewrite count_true_mask, Hnil.
Qed.

Lemma copy_no_masked_position_witness :
  __getitem__ Examples.store3 [Slice (Some 1) (Some 2) None]
  = Ok (Make (NdArray [0; -1; 1] (View 1 [(1, 1)])) false 0) ∧
  copy Examples.heap3 (Make (NdArray [0; -1; 1] (View 1 [(1, 1)])) false 0)
  = Raise (IndexError "index -1 is out of bounds for axis 0 with size 0").
Proof.
  split; [reflexivity|].
  apply (copy_no_masked_position Examples.heap3); [|reflexivity].
  split; [wf_array_literal [(1, 1)]|].
  exists (DataArray int32 [] [10; 20]). split; [reflexivity|]. split.
  - change (elems (_imask (Make (NdArray [0; -1; 1] (View 1 [(1, 1)])) false 0)))
      with [-1].
    apply Forall_cons_2; [cbn; lia|apply Forall_nil_2].
  - nodup_literal.
Defined.

Lemma setitem_frame {A} (cast : np_dtype → A → A) (h : heap A) self index
    values h' :
  __setitem__ cast h self index values = Ok h' →
  length h' = length h ∧ ∀ l, l ≠ _data self → h' !! l = h !! l.
Proof.
  intros Hset. unfold __setitem__ in Hset.
  apply bind_result_Ok in Hset as (imask & _ & Hset).
  apply bind_result_Ok in Hset as (d & _ & Hset).
  apply bind_result_Ok in Hset as (d' & _ & [= <-]).
  split; [apply length_insert|].
  intros l Hl. by apply list_lookup_insert_ne.
Qed.

(** A copy shares nothing with the store it was taken from: writing through
    the copy leaves the data array of the original, and what [__array__]
    returns for it, as they were, and the other way round. *)
Theorem copy_is_independent {A} (cast : np_dtype → A → A) (h : heap A)
    self new h1 :
  index_ok h self →
  Z.of_nat (length (masked_rows self)) < 2 ^ 31 →
  copy h self = Ok (new, h1) →
  _data new ≠ _data self ∧
  (∀ index values h2 dt,
     __setitem__ cast h1 new index values = Ok h2 →
     h2 !! _data self = h !! _data self ∧
     __array__ cast h2 self dt = __array__ cast h self dt) ∧
  (∀ index values h2 dt,
     __setitem__ cast h1 self index values = Ok h2 →
     h2 !! _data new = h1 !! _data new ∧
     __array__ cast h2 new dt = __array__ cast h1 new dt).
Proof.
  intros Hok Hlt Hcopy.
  destruct (copy_compact _ _ _ _ Hok Hlt Hcopy)
    as (d & rs & Hd & _ & -> & -> & _).
  cbn [_data]. pose proof (lookup_lt_Some _ _ _ Hd) as Hin.
  assert (length h ≠ _data self) as Hne by lia.
  split_and!; [done| |].
  - intros index values h2 dt Hset.
    apply setitem_frame in Hset as [_ Hframe]. cbn [_data] in Hframe.
    assert (h2 !! _data self = h !! _data self) as Heq.
    { rewrite Hframe by lia. by apply lookup_app_l. }
    split; [done|]. by apply array_heap_local.
  - intros index values h2 dt Hset.
    apply setitem_frame in Hset as [_ Hframe].
    assert (h2 !! length h = (h ++ [DataArray (ddtype d) (drowshape d) rs])
                               !! length h) as Heq by (by apply Hframe).
    split; [done|]. by apply array_heap_local.
Qed.

Lemma copy_is_independent_witness :
  index_ok Examples.heap3 Examples.store3 ∧
  ∃ new h1,
    copy Examples.heap3 Examples.store3 = Ok (new, h1) ∧
    ∀ h2, __setitem__ Examples.no_cast h1 new [Slice None (Some 1) None] [99]
          = Ok h2 →
          __array__ Examples.no_cast h2 Examples.store3 (Some int32)
          = Ok (DataArray int32 [] [10; 20]).
Proof.
  assert (index_ok Examples.heap3 Examples.store3) as Hok.
  { split; [wf_array_literal [(3, 1)]|].
    exists (DataArray int32 [] [10; 20]). split; [reflexivity|]. split.
    - change (elems (_imask Examples.store3)) with [0; -1; 1].
      repeat (apply Forall_cons_2; [cbn; lia|]). apply Forall_nil_2.
    - nodup_literal. }
  split; [exact Hok|]. eexists _, _. split; [reflexivity|].
  intros h2 Hset.
  destruct (copy_is_independent Examples.no_cast Examples.heap3
              Examples.store3 _ _ Hok ltac:(by vm_compute) eq_refl)
    as (_ & Hfwd & _).
  destruct (Hfwd [Slice None (Some 1) None] [99] h2 (Some int32) Hset)
    as [_ Harr].
  etrans; [exact Harr|reflexivity].
Defined.

(** *** Views *)

Lemma index_axes_all ax : ∀ off,
  Forall (λ ds, 0 ≤ ds.1) ax →
  index_axes (replicate (length ax) full_slice) ax off = Ok (View off ax).
Proof.
  induction ax as [|[d s] ax IH]; intros off Hwf; [done|].
  apply Forall_cons in Hwf as [Hd Hwf]. cbn [length replicate index_axes].
  unfold full_slice at 1. rewrite slice_adjust_full by done.
  rewrite bind_Ok, IH, bind_Ok by done. cbn [mret result_ret offset axes].
  do 2 f_equal; [lia|]. f_equal. f_equal. lia.
Qed.

Lemma getitem_ellipsis {T} (a : ndarray T) :
  wf_view (vw a) → getitem a [Ellipsis] = Ok a.
Proof.
  intros Hwf. destruct a as [b [off ax]]. unfold getitem, view_getitem.
  cbn [vw axes offset buf]. unfold expand_index.
  rewrite filter_cons_True, filter_cons_False, !filter_nil by done.
  cbn [length]. rewrite !decide_False by lia. cbn [mret result_ret].
  rewrite bind_Ok. cbn [mbind list_bind expand_item].
  rewrite app_nil_r, Nat.sub_0_r, index_axes_all by done.
  done.
Qed.

(** A view of a store shares the data array of the store, and a write to the
    whole of the view is the write to the store at the index of the view:
    [store[index][...] = values] does what [store[index] = values] does. *)
Theorem setitem_through_view {A} (cast : np_dtype → A → A) (h : heap A)
    self index v values :
  wf_array (vw (_imask self)) → __getitem__ self index = Ok v →
  _data v = _data self ∧
  __setitem__ cast h v [Ellipsis] values
  = __setitem__ cast h self index values.
Proof.
  intros Hwf Hget. unfold __getitem__ in Hget.
  apply bind_result_Ok in Hget as (imask & Himask & [= <-]).
  split; [done|]. unfold __setitem__. cbn [_imask _data].
  rewrite Himask, getitem_ellipsis; [done|].
  unfold getitem in Himask.
  apply bind_result_Ok in Himask as (v' & Hv' & [= <-]). cbn [vw].
  by apply (view_getitem_wf _ _ _ Hwf) in Hv' as [[? _] _].
Qed.

Lemma setitem_through_view_witness :
  wf_array (vw (_imask Examples.store3)) ∧
  ∃ v, __getitem__ Examples.store3 [Slice (Some 1) None None] = Ok v ∧
       __setitem__ Examples.no_cast Examples.heap3 v [Ellipsis] [99]
       = Ok [DataArray int32 [] [10; 99]].
Proof.
  assert (wf_array (vw (_imask Examples.store3))) as Hwf.
  { wf_array_literal [(3, 1)]. }
  split; [exact Hwf|]. eexists. split; [reflexivity|].
  destruct (setitem_through_view Examples.no_cast Examples.heap3
              Examples.store3
              [Slice (Some 1) None None] _ [99] Hwf eq_refl) as [_ Hset].
  etrans; [exact Hset|reflexivity].
Defined.

(** *** Writing, then reading *)

Lemma write_rows_read {A} rows : ∀ (rs values : list A),
  NoDup rows → Forall (λ x, 0 ≤ x < Z.of_nat (length rs)) rows →
  length values = length rows →
  Forall2 (λ x v, write_rows rs rows values !! Z.to_nat x = Some v) rows values.
Proof.
  induction rows as [|x rows IH]; intros rs [|v values] Hnd Hin Hlen; try done.
  apply NoDup_cons in Hnd as [Hx Hnd]. apply Forall_cons in Hin as [Hxin Hin].
  injection Hlen as Hlen. cbn [write_rows].
  destruct (Z.ltb_spec x 0); [lia|]. constructor.
  - rewrite write_rows_frame.
    + apply list_lookup_insert_eq. lia.
    + eapply Forall_impl; [done|]. cbn. lia.
    + by rewrite Z2Nat.id by lia.
  - apply IH; [done| |done]. by rewrite length_insert.
Qed.

Lemma Forall2_lookup_eq {A} (l : list A) (rows : list Z) (rs1 rs2 : list A) :
  Forall2 (λ x row, l !! Z.to_nat x = Some row) rows rs1 →
  Forall2 (λ x row, l !! Z.to_nat x = Some row) rows rs2 →
  rs1 = rs2.
Proof.
  intros H1. revert rs2.
  induction H1 as [|x r1 rows rs1 Hx _ IH]; intros rs2 H2.
  - by apply Forall2_nil_inv_l in H2.
  - apply Forall2_cons_inv_l in H2 as (r2 & rs2' & Hx2 & H2 & ->).
    f_equal; [congruence|by apply IH].
Qed.

(** Writing one value for each row an index addresses and then reading the
    store at that index gives the values back, in order, converted to the
    dtype of the data: [store[index] = values] makes
    [np.array(store[index], store.dtype)] the array of the converted
    [values].  A single value is read back, converted, once for each row;
    values of the dtype of the data already are read back as they are. *)
Theorem setitem_then_array {A} (cast : np_dtype → A → A) (h : heap A)
    self index v values d :
  index_ok h self → h !! _data self = Some d →
  __getitem__ self index = Ok v →
  length values = length (masked_rows v) ∨ length values = 1%nat →
  ∃ h', __setitem__ cast h self index values = Ok h' ∧
        ((length values = length (masked_rows v) →
          __array__ cast h' v (Some (ddtype d))
          = Ok (DataArray (ddtype d) (drowshape d)
                          (cast (ddtype d) <$> values)) ∧
          (Forall (λ x, cast (ddtype d) x = x) values →
           __array__ cast h' v (Some (ddtype d))
           = Ok (DataArray (ddtype d) (drowshape d) values))) ∧
         (∀ x, values = [x] →
          __array__ cast h' v (Some (ddtype d))
          = Ok (DataArray (ddtype d) (drowshape d)
                  (replicate (length (masked_rows v)) (cast (ddtype d) x))))).
Proof.
  intros Hok Hd Hget Hlen.
  destruct (getitem_index_ok _ _ _ _ Hok Hget) as (Hok' & Hdata & _ & _).
  assert (h !! _data v = Some d) as Hd' by (by rewrite Hdata).
  pose proof (index_ok_rows _ _ _ Hok' Hd') as Hrows.
  rewrite <- masked_rows_filter in Hrows.
  pose proof Hok' as (_ & d0 & Hd0 & _ & Hnd).
  rewrite <- masked_rows_filter in Hnd. clear d0 Hd0.
  set (rows := masked_rows v) in *.
  set (cvalues := cast (ddtype d) <$> values).
  assert (length cvalues = length values) as Hclen
    by (unfold cvalues; by rewrite length_fmap).
  assert (∀ values', length values' = length rows →
    __array__ cast (<[_data self := DataArray (ddtype d) (drowshape d)
                        (write_rows (drows d) rows values')]> h) v
              (Some (ddtype d))
    = Ok (DataArray (ddtype d) (drowshape d) values')) as Hread.
  { intros values' Hlen'.
    set (d' := DataArray (ddtype d) (drowshape d)
                 (write_rows (drows d) rows values')).
    unfold __array__, dtype, deref. rewrite Hdata.
    rewrite list_lookup_insert_eq by (by eapply lookup_lt_Some).
    cbn [mret result_ret]. rewrite !bind_Ok. cbn [ddtype d' dtype_matches].
    rewrite bool_decide_eq_true_2 by done. fold rows.
    destruct (take_rows_Ok d' rows) as (rs & -> & Hall).
    { cbn [d' drows]. by rewrite length_write_rows. }
    cbn [d' ddtype drowshape drows] in *. do 2 f_equal.
    eapply Forall2_lookup_eq; [exact Hall|].
    by apply write_rows_read. }
  assert (∀ values', broadcast_rows (length rows) cvalues = Ok values' →
    __setitem__ cast h self index values
    = Ok (<[_data self := DataArray (ddtype d) (drowshape d)
              (write_rows (drows d) rows values')]> h)) as Hwrite.
  { intros values' Hb. unfold __getitem__ in Hget.
    apply bind_result_Ok in Hget as (imask & Himask & Hv).
    unfold __setitem__. rewrite Himask, bind_Ok, select_nonneg.
    assert (filter (λ x, 0 ≤ x) (elems imask) = rows) as ->.
    { unfold rows. rewrite masked_rows_filter. by injection Hv as <-. }
    unfold deref. rewrite Hd. cbn [mret result_ret]. rewrite bind_Ok.
    unfold assign_rows. rewrite bool_decide_eq_true_2
      by (eapply Forall_impl; [done|]; cbn; lia).
    fold cvalues. by rewrite Hb. }
  destruct (decide (length values = length rows)) as [Heq|Hne].
  - eexists. split; [apply Hwrite; unfold broadcast_rows;
                     rewrite decide_True by congruence; reflexivity|].
    split.
    + intros _. split; [apply Hread; congruence|].
      intros Hid. rewrite Hread by congruence. do 2 f_equal.
      unfold cvalues. clear -Hid.
      induction Hid as [|x l Hx _ IH]; [done|]. cbn. by rewrite Hx, IH.
    + intros x ->. change (length [x]) with 1%nat in Heq.
      rewrite <- Heq. cbn [replicate]. by apply Hread.
  - destruct Hlen as [|Hone]; [done|].
    destruct values as [|x [|]]; try done.
    eexists. split; [apply Hwrite; unfold broadcast_rows;
                     rewrite decide_False by (cbn in *; congruence);
                     reflexivity|].
    split; [done|]. intros ? [= <-]. apply Hread, length_replicate.
Qed.

Lemma setitem_then_array_witness :
  index_ok Examples.heap3 Examples.store3 ∧
  ∃ v h',
    __getitem__ Examples.store3 [Slice None None (Some (-1))] = Ok v ∧
    masked_rows v = [1; 0] ∧
    __setitem__ Examples.int_cast Examples.heap3 Examples.store3
                [Slice None None (Some (-1))] [2 ^ 31; 8] = Ok h' ∧
    __array__ Examples.int_cast h' v (Some int32)
    = Ok (DataArray int32 [] [- 2 ^ 31; 8]).
Proof.
  assert (index_ok Examples.heap3 Examples.store3) as Hok.
  { split; [wf_array_literal [(3, 1)]|].
    exists (DataArray int32 [] [10; 20]). split; [reflexivity|]. split.
    - change (elems (_imask Examples.store3)) with [0; -1; 1].
      repeat (apply Forall_cons_2; [cbn; lia|]). apply Forall_nil_2.
    - nodup_literal. }
  split; [exact Hok|].
  destruct (setitem_then_array Examples.int_cast Examples.heap3
              Examples.store3 [Slice None None (Some (-1))] _ [2 ^ 31; 8]
              (DataArray int32 [] [10; 20]) Hok eq_refl eq_refl
              (or_introl eq_refl)) as (h' & Hset & Hread & _).
  eexists _, h'. split; [reflexivity|]. split; [reflexivity|].
  split; [exact Hset|]. exact (proj1 (Hread eq_refl)).
Defined.

(** Without a dtype, [__array__] converts: the array it returns has the
    default dtype, [float64], whatever the dtype of the data, and one row
    for each masked position. *)
Theorem array_default_dtype {A} (cast : np_dtype → A → A) (h : heap A) self :
  index_ok h self →
  ∃ r, __array__ cast h self None = Ok r ∧ ddtype r = float64 ∧
       length (drows r) = count_true (bdata (mask self)).
Proof.
  intros Hok. pose proof Hok as (Hwf & d & Hd & _).
  destruct (take_rows_Ok d (masked_rows self)) as (rs & Hrs & Hall).
  { rewrite masked_rows_filter. by apply (index_ok_rows h self d). }
  unfold __array__, dtype, deref. rewrite Hd. cbn [mret result_ret].
  rewrite !bind_Ok. cbn [dtype_matches]. rewrite Hrs, bind_Ok.
  eexists. split; [done|]. split; [done|]. cbn [astype drows].
  rewrite length_fmap, count_true_mask. symmetry. by eapply Forall2_length.
Qed.

Lemma array_default_dtype_witness :
  index_ok Examples.heap3 Examples.store3 ∧
  ∃ r, __array__ Examples.no_cast Examples.heap3 Examples.store3 None = Ok r ∧
       ddtype r = float64 ∧ length (drows r) = 2%nat.
Proof.
  assert (index_ok Examples.heap3 Examples.store3) as Hok.
  { split; [wf_array_literal [(3, 1)]|].
    exists (DataArray int32 [] [10; 20]). split; [reflexivity|]. split.
    - change (elems (_imask Examples.store3)) with [0; -1; 1].
      repeat (apply Forall_cons_2; [cbn; lia|]). apply Forall_nil_2.
    - nodup_literal. }
  split; [exact Hok|].
  destruct (array_default_dtype Examples.no_cast Examples.heap3
              Examples.store3 Hok) as (r & Harr & Ht & Hl).
  exists r. split; [exact Harr|]. split; [exact Ht|exact Hl].
Defined.

(** Values that are neither one row nor one row for each masked position of
    the index are refused with [ValueError], and nothing is written: a row
    for each position of the index, masked or not, is too many as soon as a
    position is not masked. *)
Theorem setitem_wrong_count {A} (cast : np_dtype → A → A) (h : heap A)
    self index v values :
  index_ok h self → __getitem__ self index = Ok v →
  length values ≠ 1%nat → length values ≠ length (masked_rows v) →
  __setitem__ cast h self index values
  = Raise (ValueError "shape mismatch: value array could not be broadcast").
Proof.
  intros Hok Hget Hone Hne.
  destruct (getitem_index_ok _ _ _ _ Hok Hget) as (Hok' & Hdata & _ & _).
  pose proof Hok as (_ & d & Hd & _).
  assert (h !! _data v = Some d) as Hd' by (by rewrite Hdata).
  pose proof (index_ok_rows _ _ _ Hok' Hd') as Hrows.
  rewrite masked_rows_filter in Hne.
  unfold __getitem__ in Hget.
  apply bind_result_Ok in Hget as (imask & Himask & [= <-]).
  cbn [_imask] in *.
  unfold __setitem__. rewrite Himask, bind_Ok, select_nonneg.
  unfold deref. rewrite Hd. cbn [mret result_ret]. rewrite bind_Ok.
  unfold assign_rows. rewrite bool_decide_eq_true_2
    by (eapply Forall_impl; [done|]; cbn; lia).
  unfold broadcast_rows. rewrite decide_False by (by rewrite length_fmap).
  by destruct values as [|x [|]].
Qed.

Lemma setitem_wrong_count_witness :
  index_ok Examples.heap3 Examples.store3 ∧
  __setitem__ Examples.no_cast Examples.heap3 Examples.store3 [Ellipsis]
              [7; 8; 9]
  = Raise (ValueError "shape mismatch: value array could not be broadcast").
Proof.
  assert (index_ok Examples.heap3 Examples.store3) as Hok.
  { split; [wf_array_literal [(3, 1)]|].
    exists (DataArray int32 [] [10; 20]). split; [reflexivity|]. split.
    - change (elems (_imask Examples.store3)) with [0; -1; 1].
      repeat (apply Forall_cons_2; [cbn; lia|]). apply Forall_nil_2.
    - nodup_literal. }
  split; [exact Hok|].
  apply (setitem_wrong_count Examples.no_cast Examples.heap3 Examples.store3
           [Ellipsis]
           Examples.store3 [7; 8; 9] Hok eq_refl).
  - cbn. lia.
  - vm_compute. lia.
Defined.

End StoreLaws.

(** ** Building and evaluating the ODF model *)

Module ModelLaws.
Import ODF StoreFacts ODFFacts HarmonicsFacts StoreLaws.

(** *** Runs in the logging monad *)

Lemma M_bind_Ok {X Y} (m : M X) (f : X → M Y) tr x tr' r :
  m = (tr, Ok x) → f x = (tr', r) → m ≫= f = (tr ++ tr', r).
Proof. intros -> Hf. cbn. by rewrite Hf. Qed.

Lemma M_bind_Raise {X Y} (m : M X) (f : X → M Y) tr e :
  m = (tr, Raise e) → m ≫= f = (tr, Raise e).
Proof. by intros ->. Qed.

(** *** Shapes *)

Lemma split_last_snoc (l : list (Z * Z)) x : split_last (l ++ [x]) = Some (l, x).
Proof.
  unfold split_last. rewrite reverse_app, reverse_singleton.
  change ([x] ++ reverse l) with (x :: reverse l). cbv beta iota.
  by rewrite reverse_involutive.
Qed.

Lemma c_axes_snoc l g :
  c_axes (l ++ [g]) = ((λ ds, (ds.1, ds.2 * g)) <$> c_axes l) ++ [(g, 1)].
Proof.
  induction l as [|d l IH]; [done|]. cbn [app c_axes fmap list_fmap fst snd].
  rewrite IH, prod_list_app. do 3 f_equal. unfold prod_list. cbn. lia.
Qed.

Lemma fst_c_axes_scaled l g :
  fst <$> ((λ ds : Z * Z, (ds.1, ds.2 * g)) <$> c_axes l) = l.
Proof. rewrite <- list_fmap_compose. apply vshape_c_axes. Qed.

Lemma broadcast_rev_refl s : broadcast_rev s s = Ok s.
Proof.
  induction s as [|d s IH]; [done|]. cbn. rewrite IH, bind_Ok.
  by rewrite Z.eqb_refl.
Qed.

Lemma broadcast_shapes_refl s : broadcast_shapes s s = Ok s.
Proof.
  unfold broadcast_shapes. rewrite broadcast_rev_refl. cbn.
  by rewrite reverse_involutive.
Qed.

(** Broadcasts of shapes of one and two axes. *)
Ltac broadcast_cases :=
  unfold broadcast_shapes; cbn -[Z.eqb];
  repeat (match goal with
          | |- context [?a =? ?b] =>
              destruct (Z.eqb_spec a b); subst; cbn -[Z.eqb]
          end);
  done.

(** A column against a row: [(k, 1)] and [(g,)] broadcast to [(k, g)]. *)
Lemma broadcast_shapes_column_row k g :
  broadcast_shapes [k; 1] [g] = Ok [k; g].
Proof. broadcast_cases. Qed.

Lemma broadcast_shapes_matrix_row k g :
  broadcast_shapes [k; g] [g] = Ok [k; g].
Proof. broadcast_cases. Qed.

Lemma broadcast_shapes_matrix_column k g :
  broadcast_shapes [k; g] [k; 1] = Ok [k; g].
Proof. broadcast_cases. Qed.

Lemma broadcast_shapes_matrix_top g k :
  broadcast_shapes [g; k] [1; k] = Ok [g; k].
Proof. broadcast_cases. Qed.

(** *** Selections along the last axis *)

Lemma length_where_true mask : length (where_true mask) = count_true mask.
Proof.
  unfold where_true. apply length_select. rewrite length_seqZ. lia.
Qed.

Lemma count_true_negb l :
  (count_true (negb <$> l) + count_true l = length l)%nat.
Proof.
  induction l as [|[] l IH]; [done| |]; cbn [fmap list_fmap negb length];
    rewrite !count_true_cons; lia.
Qed.

(** *** The NumPy operations of the model on fresh arrays *)

Section Runs.
Context {F : Type}.
Variable uninit_f : F.

Lemma take_mask_last_run (a : ndarray F) lead n s mask :
axes (vw a) = lead ++ [(n, s)] → Z.of_nat (length mask) = n →
∃ data, @take_mask_last F (populate uninit_f) a mask
        = Ok (fresh ((fst <$> lead) ++ [Z.of_nat (count_true mask)]) data).
Proof.
intros Hax Hlen. unfold take_mask_last, gather_last.
rewrite Hax, split_last_snoc, Hlen, Z.eqb_refl, length_where_true.
by eexists.
Qed.

Lemma take_idx_last_run (a : ndarray F) lead n s idx :
axes (vw a) = lead ++ [(n, s)] → Forall (λ i, - n ≤ i < n) idx →
∃ data, @take_idx_last F (populate uninit_f) a idx
        = Ok (fresh ((fst <$> lead) ++ [Z.of_nat (length idx)]) data).
Proof.
intros Hax Hidx. unfold take_idx_last, gather_last.
rewrite Hax, split_last_snoc.
match goal with |- context [mapM ?f idx] => set (norm := f) end.
assert (∃ js, mapM norm idx = Ok js ∧ length js = length idx)
  as (js & -> & Hjs).
{ clear -Hidx. induction Hidx as [|i idx Hi _ (js & Hjs & Hlen)].
  { by exists []. }
  assert (∃ j, norm i = Ok j) as [j Hj].
  { unfold norm. destruct (Z.ltb_spec i 0).
    - destruct (Z.leb_spec 0 (i + n)); [|lia].
      destruct (Z.ltb_spec (i + n) n); [|lia]. by eexists.
    - destruct (Z.leb_spec 0 i); [|lia].
      destruct (Z.ltb_spec i n); [|lia]. by eexists. }
  exists (j :: js). cbn [mapM]. rewrite Hj, bind_Ok, Hjs. cbn.
  by rewrite Hlen. }
rewrite bind_Ok, Hjs. by eexists.
Qed.

Lemma np_dot_run fdot (a b : ndarray F) lead n s s1 q s2 :
axes (vw a) = lead ++ [(n, s)] → axes (vw b) = [(n, s1); (q, s2)] →
∃ data, np_dot uninit_f fdot a b
        = ([EvDot], Ok (fresh ((fst <$> lead) ++ [q]) data)).
Proof.
intros Ha Hb. unfold np_dot. rewrite Ha, split_last_snoc, Hb, Z.eqb_refl.
by eexists.
Qed.

Lemma np_arith_run f (a b : ndarray F) shp :
broadcast_shapes (shape a) (shape b) = Ok shp →
∃ data, np_arith uninit_f f a b = ([EvArith], Ok (fresh shp data)).
Proof.
intros Hshp. unfold np_arith, map2_arrays. rewrite Hshp, bind_Ok.
by eexists.
Qed.

Lemma np_pinv_run pinv (a : ndarray F) r s1 c s2 :
axes (vw a) = [(r, s1); (c, s2)] →
np_pinv uninit_f pinv a
= ([EvPinv],
   match pinv r c (@elems F (populate uninit_f) a) with
   | Some inv => Ok (fresh [c; r] inv)
   | None => Raise (LinAlgError "SVD did not converge")
   end).
Proof.
intros Ha. unfold np_pinv, F_inhabited. rewrite Ha.
by destruct (pinv r c _).
Qed.

Lemma axes_fresh_snoc l g (data : list F) :
axes (vw (fresh (l ++ [g]) data))
= ((λ ds, (ds.1, ds.2 * g)) <$> c_axes l) ++ [(g, 1)].
Proof. apply c_axes_snoc. Qed.

Lemma np_dot_fresh fdot l n q (da db : list F) :
∃ data, np_dot uninit_f fdot (fresh (l ++ [n]) da) (fresh [n; q] db)
        = ([EvDot], Ok (fresh (l ++ [q]) data)).
Proof.
destruct (np_dot_run fdot (fresh (l ++ [n]) da) (fresh [n; q] db)
            _ n 1 (q * 1) q 1 (axes_fresh_snoc l n da) eq_refl)
  as [data Hdot].
exists data. by rewrite fst_c_axes_scaled in Hdot.
Qed.

End Runs.

(** The degrees of the index list are degrees of the Legendre values that
    [lpn] returns. *)
Lemma mapM_py_index {T} (l : list T) (idx : list Z) :
  Forall (λ i, 0 ≤ i < Z.of_nat (length l)) idx →
  ∃ r, mapM (py_index l) idx = Ok r ∧ length r = length idx.
Proof.
  induction 1 as [|i idx Hi _ (r & Hr & Hlen)]; [by exists []|].
  assert (∃ x, py_index l i = Ok x) as [x Hx].
  { unfold py_index. destruct (Z.ltb_spec i 0); [lia|].
    destruct (Z.leb_spec 0 i); [|lia].
    destruct (Z.ltb_spec i (Z.of_nat (length l))); [|lia]. cbn [andb].
    destruct (lookup_lt_is_Some_2 l (Z.to_nat i)) as [x Hx]; [lia|].
    rewrite Hx. by eexists. }
  exists (x :: r). cbn [mapM]. rewrite Hx, bind_Ok, Hr. cbn. by rewrite Hlen.
Qed.

(** The two arrays of the index list are columns of the same length, and the
    degrees are at most [sh_order]. *)
Lemma sph_harm_ind_list_columns uninit sh_order :
  0 ≤ sh_order → sh_order `mod` 2 = 0 →
  ∃ ms ns,
    sph_harm_ind_list uninit sh_order = Ok (column ms, column ns) ∧
    length ns = length ms ∧
    Z.of_nat (length ms) = ((sh_order + 2) * (sh_order + 1)) `div` 2 ∧
    Forall (λ n, 0 ≤ n ≤ sh_order) ns.
Proof.
  intros Hsh Hev. destruct (even_half _ Hsh Hev) as [j ->].
  destruct (sph_harm_ind_list_run uninit j) as (Hrun & Hlen & Hns).
  eexists _, _. split; [exact Hrun|].
  set (ns := (λ i, 2 * i) <$> seqZ 0 (Z.of_nat j + 1)) in *.
  assert (Forall (λ n, 0 ≤ n ≤ 2 * Z.of_nat j) ns) as Hle.
  { apply Forall_fmap, Forall_seqZ. intros; cbn; lia. }
  split_and!; [|done|].
  - clear -Hns. induction Hns as [|n ns Hn _ IH]; [done|].
    cbn [mbind list_bind].
    by rewrite !length_app, IH, length_orders, length_replicate.
  - clear -Hle. induction Hle as [|n ns Hn _ IH]; [done|].
    cbn [mbind list_bind]. apply Forall_app. split; [|done].
    by apply Forall_replicate.
Qed.

Lemma run_eq {X} (m : M X) t r T R : m = (t, r) → t = T → r = R → m = (T, R).
Proof. by intros -> -> ->. Qed.

(** One step of a run: a computation with a known log and result, then the
    rest. *)
Ltac run_step H := eapply M_bind_Ok; [exact H|]; cbv beta.

(** *** The constructor of the model *)

Section Model.
Context {F : Type}.
Variable uninit : nat → Z.
Variable uninit_f : F.
Variable fpos : F → bool.
Variable arctan2 : F → F → F.
Variable arccos : F → F.
Variable sph_harm : Z → Z → F → F → F * F.
Variable sqrt2 : F.
Variables fadd fsub fmul fdiv : F → F → F.
Variables legendre_P legendre_dP : Z → Z → F.
Variable fdot : list F → list F → F.
Variable pinv : Z → Z → list F → option (list F).
Variable rand_perm : Z → list Z.

Local Abbreviation elems_f := (@elems F (populate uninit_f)).
Local Abbreviation init :=
(ODF.__init__ uninit uninit_f fpos arctan2 arccos sph_harm sqrt2
              fsub fmul fdiv legendre_P legendre_dP fdot pinv).

Lemma np_arctan2_run (a b : ndarray F) shp :
broadcast_shapes (shape a) (shape b) = Ok shp →
∃ data, np_arctan2 uninit_f arctan2 a b = ([EvArctan2], Ok (fresh shp data)).
Proof.
intros Hshp. unfold np_arctan2, map2_arrays. rewrite Hshp, bind_Ok.
by eexists.
Qed.

Lemma np_arccos_run (a : ndarray F) :
∃ data, np_arccos uninit_f arccos a = ([EvArccos], Ok (fresh (shape a) data)).
Proof. unfold np_arccos, map_array. by eexists. Qed.

Lemma np_imul_run (a b : ndarray F) :
broadcast_shapes (shape a) (shape b) = Ok (shape a) →
∃ data, np_imul uninit_f fmul a b = ([EvArith], Ok (fresh (shape a) data)).
Proof.
intros Hshp. unfold np_imul.
destruct (np_arith_run uninit_f fmul a b _ Hshp) as [data ->].
exists data. cbn [mbind M_bind]. rewrite shape_fresh.
by rewrite decide_True.
Qed.

(** The shape to which the two columns of the index list and two
  one-dimensional arrays of angles broadcast. *)
Lemma index_list_common ms ns t p :
length ns = length ms →
(s ← broadcast_shapes (shape (atleast_1d (of_intarray (column ms))))
                      (shape (of_intarray (column ns)));
 s ← broadcast_shapes s [t]; broadcast_shapes s [p])
= broadcast_shapes [Z.of_nat (length ms); t] [p].
Proof.
intros Hlen.
assert (shape (atleast_1d (of_intarray (column ms)))
        = [Z.of_nat (length ms); 1]) as -> by done.
assert (shape (of_intarray (column ns)) = [Z.of_nat (length ms); 1]) as ->
  by (by rewrite <- Hlen).
rewrite broadcast_shapes_refl, bind_Ok.
by rewrite broadcast_shapes_column_row, bind_Ok.
Qed.

(** The basis matrix: the harmonics of the index list of an order at [g]
  directions, one row for each harmonic. *)
Lemma basis_matrix_run ms ns (theta phi : ndarray F) g :
length ns = length ms → 0 ≤ g →
shape theta = [g] → shape phi = [g] →
∃ data,
  real_sph_harm uninit_f sph_harm sqrt2 fmul
    (of_intarray (column ms)) (of_intarray (column ns)) theta phi
  = ([EvSphHarm], Ok (fresh [Z.of_nat (length ms); g] data)) ∧
  Z.of_nat (length data) = Z.of_nat (length ms) * g.
Proof.
intros Hlen Hg Ht Hp.
destruct (real_sph_harm_run uninit_f sph_harm sqrt2 fmul
            (of_intarray (column ms)) (of_intarray (column ns)) theta phi)
  as [Hok _].
- unfold of_intarray, column. cbn [ishape idata]. rewrite shape_fresh.
  repeat constructor; lia.
- unfold of_intarray, column. cbn [ishape idata]. rewrite shape_fresh.
  repeat constructor; lia.
- rewrite Ht. by repeat constructor.
- rewrite Hp. by repeat constructor.
- destruct (Hok [Z.of_nat (length ms); g]) as [Hrun Hsize].
  + rewrite Ht, Hp, index_list_common by done.
    apply broadcast_shapes_matrix_row.
  + eexists. split; [exact Hrun|]. rewrite Hsize. unfold prod_list. cbn. lia.
Qed.

(** An odd or negative order is refused before anything is read or
  computed: whatever the data, the gradient table and the b-values, the
  constructor raises the [ValueError] of the module and has called no
  kernel. *)
Theorem init_invalid_order data sh_order grad_table b_values keep_resid :
sh_order `mod` 2 ≠ 0 ∨ sh_order < 0 →
init data sh_order grad_table b_values keep_resid
= ([], Raise (ValueError msg_sh_order)).
Proof.
intros Hbad. unfold ODF.__init__.
destruct (Z.eqb_spec (sh_order `mod` 2) 0) as [Hev|Hodd]; [|done].
destruct (Z.ltb_spec sh_order 0); [done|]. destruct Hbad; [done|lia].
Qed.

(** *** Evaluation *)

Local Abbreviation evaluate_at :=
(ODF.evaluate_at uninit uninit_f sph_harm sqrt2 fmul fdot).
Local Abbreviation evaluate_boot :=
(ODF.evaluate_boot uninit uninit_f sph_harm sqrt2 fadd fmul fdot rand_perm).

Lemma shape_flat (a : ndarray F) :
Forall (λ d, 0 ≤ d) (shape a) →
shape (@flat F (populate uninit_f) a) = [prod_list (shape a)].
Proof.
intros Hwf. unfold flat. rewrite shape_fresh, length_elems by done.
f_equal. pose proof (prod_list_nonneg _ Hwf). lia.
Qed.

(** The basis of a query: the harmonics of the order of the model at the
  flattened angles. *)
Lemma query_basis_run sh_order (theta_e phi_e : ndarray F) :
0 ≤ sh_order → sh_order `mod` 2 = 0 →
Forall (λ d, 0 ≤ d) (shape theta_e) → shape phi_e = shape theta_e →
∃ ms ns comp,
  sph_harm_ind_list uninit sh_order = Ok (column ms, column ns) ∧
  real_sph_harm uninit_f sph_harm sqrt2 fmul
    (of_intarray (column ms)) (of_intarray (column ns))
    (@flat F (populate uninit_f) theta_e) (@flat F (populate uninit_f) phi_e)
  = ([EvSphHarm],
     Ok (fresh [((sh_order + 2) * (sh_order + 1)) `div` 2;
                prod_list (shape theta_e)] comp)).
Proof.
intros Hsh Hev Hq Hsame.
destruct (sph_harm_ind_list_columns uninit sh_order Hsh Hev)
  as (ms & ns & Hlist & Hlen & Hk & _).
destruct (basis_matrix_run ms ns (@flat F (populate uninit_f) theta_e)
            (@flat F (populate uninit_f) phi_e) (prod_list (shape theta_e)))
  as (comp & Hcomp & _).
- done.
- by apply prod_list_nonneg.
- by apply shape_flat.
- rewrite <- Hsame. apply shape_flat. by rewrite Hsame.
- exists ms, ns, comp. by rewrite <- Hk.
Qed.

Lemma broadcast_shapes_matrix_mismatch k t p :
t ≠ p → t ≠ 1 → p ≠ 1 →
broadcast_shapes [k; t] [p]
= Raise (ValueError
    "shape mismatch: objects cannot be broadcast to a single shape").
Proof. intros. broadcast_cases. Qed.

(** The angles are flattened before they are broadcast: [evaluate_at] raises
  [ValueError], before any kernel is called, for two arrays of angles with
  different numbers of elements, none of them one, also when their shapes
  broadcast, as [(3, 1)] and [(1, 4)] do. *)
Theorem evaluate_at_sizes_differ self (theta_e phi_e : ndarray F) :
0 ≤ ODF.sh_order self → ODF.sh_order self `mod` 2 = 0 →
Forall (λ d, 0 ≤ d) (shape theta_e) → Forall (λ d, 0 ≤ d) (shape phi_e) →
prod_list (shape theta_e) ≠ prod_list (shape phi_e) →
prod_list (shape theta_e) ≠ 1 → prod_list (shape phi_e) ≠ 1 →
evaluate_at self theta_e phi_e
= ([], Raise (ValueError
     "shape mismatch: objects cannot be broadcast to a single shape")).
Proof.
intros Hsh Hev Ht Hp Hne Ht1 Hp1.
destruct (sph_harm_ind_list_columns uninit _ Hsh Hev)
  as (ms & ns & Hlist & Hlen & Hk & _).
destruct (real_sph_harm_run uninit_f sph_harm sqrt2 fmul
            (of_intarray (column ms)) (of_intarray (column ns))
            (@flat F (populate uninit_f) theta_e)
            (@flat F (populate uninit_f) phi_e)) as [_ Hno].
- unfold of_intarray, column. cbn [ishape idata]. rewrite shape_fresh.
  repeat constructor; lia.
- unfold of_intarray, column. cbn [ishape idata]. rewrite shape_fresh.
  repeat constructor; lia.
- rewrite shape_flat by done. repeat constructor.
  by apply prod_list_nonneg.
- rewrite shape_flat by done. repeat constructor.
  by apply prod_list_nonneg.
- destruct (Hno (ValueError
      "shape mismatch: objects cannot be broadcast to a single shape"))
    as [Hrun _].
  { rewrite !shape_flat, index_list_common by done.
    by apply broadcast_shapes_matrix_mismatch. }
  unfold ODF.evaluate_at, F_inhabited. rewrite Hlist, M_bind_lift_Ok.
  cbv beta iota. by erewrite M_bind_Raise.
Qed.

(** [evaluate_boot] needs the residuals: on a model built without them it
  raises [TypeError], after it has computed the basis of the query and,
  without a permutation, drawn one. *)
Theorem evaluate_boot_without_residuals self (theta_e phi_e : ndarray F)
  permute :
0 ≤ ODF.sh_order self → ODF.sh_order self `mod` 2 = 0 →
Forall (λ d, 0 ≤ d) (shape theta_e) → shape phi_e = shape theta_e →
ODF._resid self = None →
∃ msg,
  evaluate_boot self theta_e phi_e permute
  = (EvSphHarm :: (if permute is None then [EvRandom] else []),
     Raise (TypeError msg)).
Proof.
intros Hsh Hev Hq Hsame Hnone.
destruct (query_basis_run _ theta_e phi_e Hsh Hev Hq Hsame)
  as (ms & ns & comp & Hlist & Hcomp).
eexists. unfold ODF.evaluate_boot, F_inhabited.
rewrite Hlist, M_bind_lift_Ok.
cbv beta iota. rewrite Hcomp, Hnone. by destruct permute.
Qed.

(** [evaluate_boot] on two arrays of angles of the same shape, with a
  permutation of the directions (given, or drawn when there is none): the
  result has the shape of the voxels followed by one axis for all the
  angles; it is not given the shape of the angles as the result of
  [evaluate_at] is. *)
Theorem evaluate_boot_shape self (theta_e phi_e : ndarray F) permute
  lead s resid lead_r g s_r s1 s2 :
let k := ((ODF.sh_order self + 2) * (ODF.sh_order self + 1)) `div` 2 in
let p := default (rand_perm (ODF.ngrad self)) permute in
0 ≤ ODF.sh_order self → ODF.sh_order self `mod` 2 = 0 →
axes (vw (ODF._coef self)) = lead ++ [(k, s)] →
ODF._resid self = Some resid →
axes (vw resid) = lead_r ++ [(g, s_r)] → fst <$> lead_r = fst <$> lead →
axes (vw (ODF.fit_matrix self)) = [(Z.of_nat (length p), s1); (k, s2)] →
Forall (λ i, - g ≤ i < g) p →
Forall (λ d, 0 ≤ d) (shape theta_e) → shape phi_e = shape theta_e →
∃ data,
  evaluate_boot self theta_e phi_e permute
  = (EvSphHarm :: (if permute is None then [EvRandom] else [])
     ++ [EvDot; EvArith; EvDot],
     Ok (fresh (ODF._getshape self ++ [prod_list (shape theta_e)]) data)).
Proof.
intros k p Hsh Hev Hcoef Hresid Hr Hlead Hfit Hp Hq Hsame.
assert (ODF._getshape self = fst <$> lead) as Hshape.
{ unfold _getshape, shape, vshape. rewrite Hcoef, fmap_app. cbn.
  apply removelast_last. }
destruct (query_basis_run _ theta_e phi_e Hsh Hev Hq Hsame)
  as (ms & ns & comp & Hlist & Hcomp).
fold k in Hcomp. set (T := prod_list (shape theta_e)) in *.
destruct (take_idx_last_run uninit_f resid lead_r g s_r p Hr Hp)
  as [permuted Hpermuted].
rewrite Hlead in Hpermuted.
destruct (np_dot_run uninit_f fdot
            (fresh ((fst <$> lead) ++ [Z.of_nat (length p)]) permuted)
            (ODF.fit_matrix self) _ (Z.of_nat (length p)) 1 s1 k s2
            (axes_fresh_snoc _ _ _) Hfit) as [correction Hcorrection].
rewrite fst_c_axes_scaled in Hcorrection.
destruct (np_arith_run uninit_f fadd (ODF._coef self)
            (fresh ((fst <$> lead) ++ [k]) correction)
            ((fst <$> lead) ++ [k])) as [coef Hcoef'].
{ rewrite shape_fresh. unfold shape, vshape. rewrite Hcoef, fmap_app.
  apply broadcast_shapes_refl. }
destruct (np_dot_fresh uninit_f fdot (fst <$> lead) k T coef comp)
  as [values Hvalues].
exists values. eapply run_eq.
- unfold ODF.evaluate_boot, F_inhabited. rewrite Hlist, M_bind_lift_Ok.
  cbv beta iota. run_step Hcomp.
  assert (match permute with
          | Some p => mret p
          | None => log EvRandom;; mret (rand_perm (ODF.ngrad self))
          end = (if permute is None then [EvRandom] else [], Ok p))
    as Hperm by (by destruct permute).
  run_step Hperm. rewrite Hresid. unfold mret at 1, M_ret.
  eapply M_bind_Ok; [reflexivity|]. cbv beta.
  rewrite Hpermuted, M_bind_lift_Ok.
  run_step Hcorrection. run_step Hcoef'. run_step Hvalues. reflexivity.
- cbn [app]. by rewrite ?app_nil_r.
- by rewrite Hshape.
Qed.

(** *** What a run logs *)

(** An event is not in a list of other events. *)
Ltac not_logged :=
let Hin := fresh "Hin" in
intros Hin;
repeat (apply elem_of_cons in Hin as [Hin|Hin]; [discriminate Hin|]);
by apply elem_of_nil in Hin.

Lemma log_bind {X Y} (P : event → Prop) (m : M X) (f : X → M Y) :
Forall P m.1 → (∀ x, Forall P (f x).1) → Forall P (m ≫= f).1.
Proof.
destruct m as [l [x|e]]; cbn; intros Hl Hf; [|done].
specialize (Hf x). destruct (f x). cbn in *. by apply Forall_app.
Qed.

Lemma log_lift {X} (P : event → Prop) (r : result X) : Forall P (lift r).1.
Proof. constructor. Qed.

Lemma log_event (P : event → Prop) ev : P ev → Forall P (log ev).1.
Proof. intros. by repeat constructor. Qed.

Lemma log_real_sph_harm (P : event → Prop) m n (theta phi : ndarray F) :
P EvSphHarm →
Forall P (real_sph_harm uninit_f sph_harm sqrt2 fmul m n theta phi).1.
Proof.
intros HP. unfold real_sph_harm.
apply log_bind; [apply log_lift|intros shp].
apply log_bind; [by apply log_event|intros _].
repeat (apply log_bind; [apply log_lift|intros ?]). constructor.
Qed.

Lemma log_np_dot (P : event → Prop) (a b : ndarray F) :
P EvDot → Forall P (np_dot uninit_f fdot a b).1.
Proof.
intros HP. unfold np_dot.
destruct (split_last _) as [[lead [n s]]|]; [|constructor].
destruct (axes (vw b)) as [|[n' s1] [|[q s2] [|]]]; try constructor.
destruct (n =? n'); [|constructor].
apply log_bind; [by apply log_event|intros _]. constructor.
Qed.

Lemma log_np_arith (P : event → Prop) f (a b : ndarray F) :
P EvArith → Forall P (np_arith uninit_f f a b).1.
Proof.
intros HP. unfold np_arith.
apply log_bind; [by apply log_event|intros _]. apply log_lift.
Qed.

(** Whatever the model and the angles, and whether they return or raise,
  the two evaluations compute no pseudo-inverse, no Legendre polynomial
  and no conversion of directions to angles: the work of the constructor
  is not done again.  [evaluate_at] draws no random permutation, and
  [evaluate_boot] draws one only when it is given none. *)
Theorem evaluate_logs self (theta_e phi_e : ndarray F) permute :
Forall (λ ev, ev ∉ [EvPinv; EvLegendre; EvArctan2; EvArccos; EvRandom])
       (evaluate_at self theta_e phi_e).1 ∧
Forall (λ ev, (ev ∉ [EvPinv; EvLegendre; EvArctan2; EvArccos]) ∧
              (ev = EvRandom → permute = None))
       (evaluate_boot self theta_e phi_e permute).1.
Proof.
split.
- unfold ODF.evaluate_at.
  apply log_bind; [apply log_lift|intros [m_list n_list]].
  apply log_bind; [apply log_real_sph_harm; not_logged|intros comp_mat].
  apply log_bind; [apply log_np_dot; not_logged|intros values].
  repeat (apply log_bind; [apply log_lift|intros ?]). constructor.
- unfold ODF.evaluate_boot.
  apply log_bind; [apply log_lift|intros [m_list n_list]].
  apply log_bind;
    [apply log_real_sph_harm; split; [not_logged|done]|intros comp_mat].
  apply log_bind; [|intros p].
  { destruct permute; [constructor|].
    apply log_bind; [apply log_event; split; [not_logged|done]|intros _].
    constructor. }
  apply log_bind; [destruct (ODF._resid self); constructor|intros resid].
  apply log_bind; [apply log_lift|intros permuted].
  apply log_bind;
    [apply log_np_dot; split; [not_logged|done]|intros correction].
  apply log_bind; [apply log_np_arith; split; [not_logged|done]|intros coef].
  apply log_bind; [apply log_np_dot; split; [not_logged|done]|intros values].
  constructor.
Qed.

End Model.

(** *** The theorems on the concrete model *)

Lemma init_invalid_order_witness :
  Examples.init Examples.data (-2) Examples.grad_table Examples.b_values false
  = ([], Raise (ValueError msg_sh_order)) ∧
  Examples.init Examples.data 3 Examples.grad_table Examples.b_values false
  = ([], Raise (ValueError msg_sh_order)).
Proof.
  split.
  - apply (init_invalid_order (λ _, 0) 0 (λ b, 0 <? b) (λ y x, y - x)
             (λ z, z) (λ m n theta phi, (1, 0)) 1 Z.sub Z.mul Z.div
             (λ k z, 1) (λ k z, 0) Examples.inner (λ r c data, Some data)).
    right. lia.
  - apply (init_invalid_order (λ _, 0) 0 (λ b, 0 <? b) (λ y x, y - x)
             (λ z, z) (λ m n theta phi, (1, 0)) 1 Z.sub Z.mul Z.div
             (λ k z, 1) (λ k z, 0) Examples.inner (λ r c data, Some data)).
    left. by vm_compute.
Defined.

Lemma evaluate_at_sizes_differ_witness :
  ODF.evaluate_at (λ _, 0) 0 (λ m n theta phi, (1, 0)) 1 Z.mul Examples.inner
    Examples.odf (fresh [3; 1] [1; 2; 3]) (fresh [1; 4] [5; 6; 7; 8])
  = ([], Raise (ValueError
       "shape mismatch: objects cannot be broadcast to a single shape")) ∧
  broadcast_shapes [3; 1] [1; 4] = Ok [3; 4].
Proof.
  split; [|reflexivity].
  apply (evaluate_at_sizes_differ (λ _, 0) 0 (λ m n theta phi, (1, 0)) 1
           Z.mul Examples.inner Examples.odf).
  - cbn. lia.
  - reflexivity.
  - forall_literal [3; 1].
  - forall_literal [1; 4].
  - by vm_compute.
  - by vm_compute.
  - by vm_compute.
Defined.

Lemma evaluate_boot_without_residuals_witness :
  ∃ msg,
    ODF.evaluate_boot (λ _, 0) 0 (λ m n theta phi, (1, 0)) 1 Z.add Z.mul
      Examples.inner (λ n, seqZ 0 n)
      (ODF.Make 0 2 (fresh [2; 1] [1; 1]) (fresh [2; 1] [5; 6])
                (fresh [2; 1] [3; 7]) None)
      (Examples.query_of 1 2 3 4) (Examples.query_of 5 6 7 8) None
    = ([EvSphHarm; EvRandom], Raise (TypeError msg)).
Proof.
  apply (evaluate_boot_without_residuals (λ _, 0) 0 (λ m n theta phi, (1, 0))
           1 Z.add Z.mul Examples.inner (λ n, seqZ 0 n)
           (ODF.Make 0 2 (fresh [2; 1] [1; 1]) (fresh [2; 1] [5; 6])
                     (fresh [2; 1] [3; 7]) None)
           (Examples.query_of 1 2 3 4) (Examples.query_of 5 6 7 8) None).
  - cbn. lia.
  - reflexivity.
  - forall_literal [2; 2].
  - reflexivity.
  - reflexivity.
Defined.

Lemma evaluate_boot_shape_witness :
  ∃ data,
    ODF.evaluate_boot (λ _, 0) 0 (λ m n theta phi, (1, 0)) 1 Z.add Z.mul
      Examples.inner (λ n, seqZ 0 n) Examples.odf
      (Examples.query_of 1 2 3 4) (Examples.query_of 5 6 7 8) (Some [1; 0])
    = ([EvSphHarm; EvDot; EvArith; EvDot], Ok (fresh [2; 4] data)).
Proof.
  destruct (evaluate_boot_shape (λ _, 0) 0 (λ m n theta phi, (1, 0)) 1
              Z.add Z.mul Examples.inner (λ n, seqZ 0 n) Examples.odf
              (Examples.query_of 1 2 3 4) (Examples.query_of 5 6 7 8)
              (Some [1; 0]) [(2, 1)] 1 (fresh [2; 2] [0; 0; 0; 0])
              [(2, 2)] 2 1 1 1) as [data Hrun].
  - cbn. lia.
  - reflexivity.
  - reflexivity.
  - reflexivity.
  - reflexivity.
  - reflexivity.
  - reflexivity.
  - cbn. repeat (apply Forall_cons_2; [lia|]). apply Forall_nil_2.
  - forall_literal [2; 2].
  - reflexivity.
  - exists data. exact Hrun.
Defined.

(** *** The entries of the basis matrix *)

Lemma fmap_constant {T U} (f : T → U) (l : list T) (x : U) :
  Forall (λ i, f i = x) l → f <$> l = replicate (length l) x.
Proof.
  intros Hall. symmetry. apply replicate_as_Forall. split.
  - by rewrite length_fmap.
  - apply Forall_fmap. eapply Forall_impl; [done|]. by intros i <-.
Qed.

Lemma bind_singleton {T U} (k : T → U) (l : list T) :
  l ≫= (λ i, [k i]) = k <$> l.
Proof. induction l as [|i l IH]; [done|]. cbn. by rewrite IH. Qed.

(** The elements of a column broadcast along a second axis of length [g],
    and of a row broadcast along a first axis of length [k]. *)
Lemma elems_broadcast_column {T} `{Inhabited T} (ms : list T) k g :
  Z.of_nat (length ms) = k → 0 ≤ g →
  elems (broadcast_to (fresh [k; 1] ms) [k; g])
  = ms ≫= replicate (Z.to_nat g).
Proof.
  intros <- Hg. unfold elems, vaddrs, broadcast_to, fresh, c_view.
  cbn [vw buf axes offset c_axes].
  change (reverse [(Z.of_nat (length ms), prod_list [1]); (1, prod_list [])])
    with [(1, 1); (Z.of_nat (length ms), 1)].
  change (reverse [Z.of_nat (length ms); g]) with [g; Z.of_nat (length ms)].
  cbn [broadcast_axes_rev]. rewrite Z.eqb_refl.
  set (s2 := if 1 =? g then (g, 1) else (g, 0)).
  change (reverse [s2; (Z.of_nat (length ms), 1)])
    with [(Z.of_nat (length ms), 1); s2].
  assert (∃ st, s2 = (g, st) ∧ (g = 1 ∨ st = 0)) as (st & -> & Hst).
  { unfold s2. destruct (Z.eqb_spec 1 g); eauto. }
  cbn [addrs]. rewrite fmap_list_bind.
  transitivity (((λ p, ms !!! Z.to_nat p) <$> seqZ 0 (Z.of_nat (length ms)))
                  ≫= replicate (Z.to_nat g)); [|by rewrite lookup_all].
  rewrite list_fmap_bind. apply list_bind_ext; [|done]. intros j.
  rewrite bind_singleton, <- list_fmap_compose, fmap_constant
    with (x := ms !!! Z.to_nat j).
  - by rewrite length_seqZ.
  - apply Forall_seqZ. intros i Hi. cbn. do 2 f_equal.
    destruct Hst as [->| ->]; [|lia]. assert (i = 0) as -> by lia. lia.
Qed.

Lemma elems_broadcast_row {T} `{Inhabited T} (a : ndarray T) k g st :
  axes (vw a) = [(g, st)] →
  elems (broadcast_to a [k; g]) = seqZ 0 k ≫= λ _, elems a.
Proof.
  intros Hax. unfold elems, vaddrs, broadcast_to. cbn [vw buf axes offset].
  rewrite Hax. change (reverse [(g, st)]) with [(g, st)].
  change (reverse [k; g]) with [g; k].
  cbn [broadcast_axes_rev]. rewrite Z.eqb_refl.
  change (reverse [(g, st); (k, 0)]) with [(k, 0); (g, st)].
  cbn [addrs]. rewrite fmap_list_bind. apply list_bind_ext; [|done].
  intros j. by rewrite Z.mul_0_r, Z.add_0_r.
Qed.

(** Rows against columns: pairing every element of one list with all the
    elements of another, as broadcasting does. *)
Lemma zip_with_blocks {A1 A2 B1 B2 C X} (R : A1 * A2 → B1 * B2 → C)
    (ts : list B1) (ps : list B2) (ms : list A1) :
  ∀ (ns : list A2) (l : list X),
  length ns = length ms → length l = length ms → length ps = length ts →
  zip_with R (zip (ms ≫= replicate (length ts)) (ns ≫= replicate (length ts)))
             (zip (l ≫= λ _, ts) (l ≫= λ _, ps))
  = zip ms ns ≫= λ mn, R mn <$> zip ts ps.
Proof.
  intros ns l Hn Hl Hp. revert ns l Hn Hl.
  induction ms as [|m ms IH]; intros [|n ns] [|x l] Hn Hl; try done.
  injection Hn as Hn. injection Hl as Hl.
  cbn [mbind list_bind zip zip_with].
  rewrite !zip_with_app by (rewrite ?length_zip_with, ?length_replicate; lia).
  rewrite IH by done. f_equal.
  rewrite zip_with_replicate. apply zip_with_replicate_l.
  rewrite length_zip_with. lia.
Qed.

(** An entry of a list of blocks of the same length. *)
Lemma lookup_bind_blocks {A Q C} `{Inhabited A, Inhabited Q, Inhabited C}
    (h : A → Q → C) (qs : list Q) (l : list A) : ∀ (i c : nat),
  (i < length l)%nat → (c < length qs)%nat →
  (l ≫= λ a, h a <$> qs) !!! (i * length qs + c)%nat = h (l !!! i) (qs !!! c).
Proof.
  induction l as [|a l IH]; intros i c Hi Hc; [cbn in Hi; lia|].
  cbn [mbind list_bind]. destruct i as [|i].
  - rewrite lookup_total_app_l by (rewrite length_fmap; lia).
    change (0 * length qs + c)%nat with c.
    by rewrite (list_lookup_total_fmap (h a) qs c).
  - rewrite lookup_total_app_r by (rewrite length_fmap; lia).
    rewrite length_fmap.
    replace (S i * length qs + c - length qs)%nat
      with (i * length qs + c)%nat by lia.
    cbn [length] in Hi. rewrite IH by lia. done.
Qed.

Lemma sph_harm_ind_list_pairs uninit sh_order ms ns :
  0 ≤ sh_order → sh_order `mod` 2 = 0 →
  sph_harm_ind_list uninit sh_order = Ok (column ms, column ns) →
  zip ms ns = indexList_spec sh_order.
Proof.
  intros Hsh Hev Hrun. destruct (even_half _ Hsh Hev) as [j ->].
  destruct (sph_harm_ind_list_run uninit j) as (Hrun' & _ & Hns).
  rewrite Hrun' in Hrun.
  assert (∀ a b : intarray, Ok (a, b) = Ok (column ms, column ns) →
            idata a = ms ∧ idata b = ns) as Hdata
    by (by intros a b [= -> ->]).
  destruct (Hdata _ _ Hrun) as [<- <-]. cbn [column idata].
  by rewrite zip_bind_degrees, <- indexList_spec_even.
Qed.

Section Basis.
Context {F : Type}.
Variable uninit : nat → Z.
Variable uninit_f : F.
Variable sph_harm : Z → Z → F → F → F * F.
Variable sqrt2 : F.
Variable fmul : F → F → F.
Variable fdot : list F → list F → F.

Local Abbreviation elems_f := (@elems F (populate uninit_f)).
Local Abbreviation harmonic :=
(λ (mn : Z * Z) (tp : F * F),
   real_harm sph_harm sqrt2 fmul mn.1 mn.2 tp.1 tp.2).

Lemma basis_matrix_entries ms ns (theta phi : ndarray F) g st sp :
length ns = length ms → 0 ≤ g →
axes (vw theta) = [(g, st)] → axes (vw phi) = [(g, sp)] →
real_sph_harm uninit_f sph_harm sqrt2 fmul
  (of_intarray (column ms)) (of_intarray (column ns)) theta phi
= ([EvSphHarm],
   Ok (fresh [Z.of_nat (length ms); g]
         (zip ms ns ≫= λ mn,
            harmonic mn <$> zip (elems_f theta) (elems_f phi)))).
Proof.
intros Hlen Hg Ht Hp.
assert (shape theta = [g]) as Hst by (unfold shape, vshape; by rewrite Ht).
assert (shape phi = [g]) as Hsp by (unfold shape, vshape; by rewrite Hp).
assert (Forall (λ d, 0 ≤ d) [g]) as Hnn by (by repeat constructor).
assert (length (elems_f theta) = Z.to_nat g) as Hlt.
{ rewrite length_elems by (by rewrite Hst). rewrite Hst.
  unfold prod_list. cbn. f_equal. lia. }
assert (length (elems_f phi) = Z.to_nat g) as Hlp.
{ rewrite length_elems by (by rewrite Hsp). rewrite Hsp.
  unfold prod_list. cbn. f_equal. lia. }
destruct (real_sph_harm_run uninit_f sph_harm sqrt2 fmul
            (of_intarray (column ms)) (of_intarray (column ns)) theta phi)
  as [Hok _].
- unfold of_intarray, column. cbn [ishape idata]. rewrite shape_fresh.
  repeat constructor; lia.
- unfold of_intarray, column. cbn [ishape idata]. rewrite shape_fresh.
  repeat constructor; lia.
- by rewrite Hst.
- by rewrite Hsp.
- destruct (Hok [Z.of_nat (length ms); g]) as [Hrun _].
  { rewrite Hst, Hsp, index_list_common by done.
    apply broadcast_shapes_matrix_row. }
  rewrite Hrun. do 3 f_equal.
  change (atleast_1d (of_intarray (column ms)))
    with (fresh [Z.of_nat (length ms); 1] ms).
  unfold of_intarray, column. cbn [ishape idata]. rewrite Hlen.
  rewrite !elems_broadcast_column by (done || lia).
  rewrite (elems_broadcast_row theta _ g st),
          (elems_broadcast_row phi _ g sp) by done.
  rewrite <- Hlt.
  apply (zip_with_blocks harmonic); [done| |lia].
  rewrite length_seqZ. lia.
Qed.

(** [np.dot] of an array of vectors with a fresh matrix: for each voxel, in
  scan order, the inner products of its vector with the columns. *)
Lemma np_dot_values (a : ndarray F) (E : list F) lead n s q :
axes (vw a) = lead ++ [(n, s)] →
np_dot uninit_f fdot a (fresh [n; q] E)
= ([EvDot],
   Ok (fresh ((fst <$> lead) ++ [q])
         (base ← addrs lead (offset (vw a));
          col ← seqZ 0 q;
          [fdot (elems_f (NdArray (buf a) (View base [(n, s)])))
                (elems_f (NdArray E (View col [(n, q)])))]))).
Proof.
intros Ha. unfold np_dot, F_inhabited. rewrite Ha, split_last_snoc.
cbn [fresh c_view vw axes c_axes buf offset]. rewrite Z.eqb_refl.
unfold log. cbn [mbind M_bind mret M_ret app]. do 3 f_equal.
apply list_bind_ext; [|done]. intros base.
apply list_bind_ext; [|done]. intros col.
unfold elems, vaddrs. cbn [vw buf axes offset addrs].
rewrite !bind_singleton, <- !list_fmap_compose. do 2 f_equal.
apply list_fmap_ext. intros _ i _. cbn. f_equal. unfold prod_list. cbn.
lia.
Qed.

(** A column of a row-major matrix whose rows are the values of [h a] on a
  list of points. *)
Lemma column_of_rows {A Q} `{Inhabited A, Inhabited Q} (h : A → Q → F)
  (l : list A) (qs : list Q) (col : Z) :
0 ≤ col < Z.of_nat (length qs) →
elems_f (NdArray (l ≫= λ a, h a <$> qs)
                 (View col [(Z.of_nat (length l), Z.of_nat (length qs))]))
= (λ a, h a (qs !!! Z.to_nat col)) <$> l.
Proof.
intros Hcol. unfold elems, vaddrs. cbn [vw buf axes offset addrs].
rewrite bind_singleton, <- list_fmap_compose.
transitivity ((λ a, h a (qs !!! Z.to_nat col))
                <$> ((λ p, l !!! Z.to_nat p)
                       <$> seqZ 0 (Z.of_nat (length l))));
  [|by rewrite lookup_all].
rewrite <- list_fmap_compose.
apply Forall_fmap_ext, Forall_seqZ. intros i Hi. cbn.
replace (Z.to_nat (col + i * Z.of_nat (length qs)))
  with (Z.to_nat i * length qs + Z.to_nat col)%nat by lia.
apply (@lookup_bind_blocks A Q F _ _ (populate uninit_f)); lia.
Qed.

Lemma bind_columns {Q} `{Inhabited Q} (G : list F → F)
  (col_of : Z → list F) (row_of : Q → list F) (qs : list Q) :
(∀ col, 0 ≤ col < Z.of_nat (length qs) →
        col_of col = row_of (qs !!! Z.to_nat col)) →
(seqZ 0 (Z.of_nat (length qs)) ≫= λ col, [G (col_of col)])
= qs ≫= λ q, [G (row_of q)].
Proof.
intros Hcol. rewrite !bind_singleton.
transitivity ((λ q, G (row_of q))
                <$> ((λ p, qs !!! Z.to_nat p)
                       <$> seqZ 0 (Z.of_nat (length qs))));
  [|by rewrite lookup_all].
rewrite <- list_fmap_compose. apply Forall_fmap_ext, Forall_seqZ.
intros col Hc. cbn. rewrite Hcol by lia. done.
Qed.

(** The run of [evaluate_at] on angles of one shape. *)
Lemma evaluate_at_run self (theta_e phi_e : ndarray F) lead s :
let k := ((ODF.sh_order self + 2) * (ODF.sh_order self + 1)) `div` 2 in
0 ≤ ODF.sh_order self → ODF.sh_order self `mod` 2 = 0 →
axes (vw (ODF._coef self)) = lead ++ [(k, s)] →
Forall (λ ds, 0 ≤ ds.1) lead →
Forall (λ d, 0 ≤ d) (shape theta_e) → shape phi_e = shape theta_e →
ODF._getshape self = fst <$> lead ∧
ODF.evaluate_at uninit uninit_f sph_harm sqrt2 fmul fdot self theta_e phi_e
= ([EvSphHarm; EvDot],
   Ok (fresh (ODF._getshape self ++ shape theta_e)
         (base ← addrs lead (offset (vw (ODF._coef self)));
          q ← zip (elems_f theta_e) (elems_f phi_e);
          [fdot (elems_f (NdArray (buf (ODF._coef self))
                                  (View base [(k, s)])))
                ((λ mn, harmonic mn q)
                   <$> indexList_spec (ODF.sh_order self))]))).
Proof.
intros k Hsh Hev Hcoef Hlead Hq Hsame.
assert (ODF._getshape self = fst <$> lead) as Hshape.
{ unfold _getshape, shape, vshape. rewrite Hcoef, fmap_app. cbn.
  apply removelast_last. }
split; [done|].
destruct (sph_harm_ind_list_columns uninit _ Hsh Hev)
  as (ms & ns & Hlist & Hlen & Hk & _).
pose proof (sph_harm_ind_list_pairs _ _ _ _ Hsh Hev Hlist) as Hpairs.
fold k in Hk.
set (ts := elems_f theta_e). set (ps := elems_f phi_e).
set (g := Z.of_nat (length ts)).
assert (g = prod_list (shape theta_e)) as Hg.
{ unfold g, ts. rewrite length_elems by done.
  pose proof (prod_list_nonneg _ Hq). lia. }
assert (length ps = length ts) as Hps.
{ unfold ps, ts. rewrite !length_elems by (by rewrite ?Hsame).
  by rewrite Hsame. }
assert (∀ a : ndarray F,
          Z.of_nat (length (elems_f a)) = g →
          axes (vw (@flat F (populate uninit_f) a)) = [(g, 1)] ∧
          elems_f (@flat F (populate uninit_f) a) = elems_f a) as Hflat.
{ intros a Ha. unfold flat. rewrite Ha. split; [done|].
  apply elems_fresh; [repeat constructor; lia|].
  unfold prod_list. cbn. lia. }
destruct (Hflat theta_e eq_refl) as [Hat Het].
destruct (Hflat phi_e) as [Hap Hep]; [unfold g; fold ps; lia|].
pose proof (basis_matrix_entries ms ns _ _ g 1 1 Hlen ltac:(lia) Hat Hap)
  as Hcomp.
rewrite Het, Hep, Hpairs, Hk in Hcomp. fold ts ps in Hcomp.
set (E := indexList_spec (ODF.sh_order self)
            ≫= λ mn, harmonic mn <$> zip ts ps) in *.
pose proof (np_dot_values (ODF._coef self) E lead k s g Hcoef) as Hvalues.
eapply run_eq.
- unfold ODF.evaluate_at, F_inhabited. rewrite Hlist, M_bind_lift_Ok.
  cbv beta iota. run_step Hcomp. run_step Hvalues.
  rewrite Hsame, broadcast_shapes_refl, M_bind_lift_Ok, Hshape.
  unfold fresh. cbn [vw buf]. rewrite set_shape_fresh.
  2:{ apply Forall_app. split; [by apply Forall_fmap|].
      repeat constructor. lia. }
  2:{ apply Forall_app. split; [|done]. by apply Forall_fmap. }
  rewrite !prod_list_app, <- Hg.
  replace (prod_list [g]) with g by (unfold prod_list; cbn; lia).
  rewrite Z.eqb_refl, M_bind_lift_Ok. reflexivity.
- reflexivity.
- rewrite Hshape. do 2 f_equal. unfold fresh, c_view. f_equal.
  apply list_bind_ext; [|done]. intros base.
  assert (Z.of_nat (length (zip ts ps)) = g) as Hzip
    by (rewrite length_zip_with; lia).
  rewrite <- Hzip.
  apply (@bind_columns (F * F) (populate (uninit_f, uninit_f))
           (fdot (elems_f (NdArray (buf (ODF._coef self))
                                   (View base [(k, s)]))))
           (λ col, elems_f (NdArray E (View col [(k, Z.of_nat (length (zip ts ps)))])))
           (λ q, (λ mn, harmonic mn q) <$> indexList_spec (ODF.sh_order self))).
  intros col Hcol. unfold E.
  replace k with (Z.of_nat (length (indexList_spec (ODF.sh_order self)))).
  + by apply (@column_of_rows (Z * Z) (F * F) _
                (populate (uninit_f, uninit_f)) harmonic).
  + by rewrite <- Hpairs, length_zip_with, Hlen, Nat.min_id.
Qed.

(** [evaluate_at] on two arrays of angles of the same shape: the result has
  the shape of the voxels of the model followed by the shape of the
  angles, and its entry for a voxel and a direction is the inner product
  of the coefficients of the voxel with the real harmonics of the index
  list of the order of the model at the direction. *)
Theorem evaluate_at_values self (theta_e phi_e : ndarray F) lead s :
let k := ((ODF.sh_order self + 2) * (ODF.sh_order self + 1)) `div` 2 in
0 ≤ ODF.sh_order self → ODF.sh_order self `mod` 2 = 0 →
axes (vw (ODF._coef self)) = lead ++ [(k, s)] →
Forall (λ ds, 0 ≤ ds.1) lead →
Forall (λ d, 0 ≤ d) (shape theta_e) → shape phi_e = shape theta_e →
ODF._getshape self = fst <$> lead ∧
ODF.evaluate_at uninit uninit_f sph_harm sqrt2 fmul fdot self theta_e phi_e
= ([EvSphHarm; EvDot],
   Ok (fresh (ODF._getshape self ++ shape theta_e)
         (base ← addrs lead (offset (vw (ODF._coef self)));
          q ← zip (elems_f theta_e) (elems_f phi_e);
          [fdot (elems_f (NdArray (buf (ODF._coef self))
                                  (View base [(k, s)])))
                ((λ mn, harmonic mn q)
                   <$> indexList_spec (ODF.sh_order self))]))).
Proof. exact (evaluate_at_run self theta_e phi_e lead s). Qed.

End Basis.

Lemma evaluate_at_values_witness :
  ODF.evaluate_at (λ _, 0) 0 (λ m n theta phi, (theta + phi, 0)) 1 Z.mul
    Examples.inner Examples.odf (Examples.query_of 1 2 3 4)
    (Examples.query_of 5 6 7 8)
  = ([EvSphHarm; EvDot],
     Ok (fresh [2; 2; 2] [18; 24; 30; 36; 42; 56; 70; 84])).
Proof.
  refine (proj2 (evaluate_at_values (λ _, 0) 0
            (λ m n theta phi, (theta + phi, 0)) 1 Z.mul Examples.inner
            Examples.odf (Examples.query_of 1 2 3 4)
            (Examples.query_of 5 6 7 8) [(2, 1)] 1 _ _ _ _ _ _)).
  - cbn. lia.
  - reflexivity.
  - reflexivity.
  - forall_literal [(2, 1)].
  - forall_literal [2; 2].
  - reflexivity.
Defined.

(** *** Indexing and the scan order

    The elements [a[index]] visits are those that the same index visits in
    a fresh copy of [a]. *)

Lemma addrs_shift ax : ∀ off δ,
  addrs ax (off + δ) = (λ p, p + δ) <$> addrs ax off.
Proof.
  induction ax as [|[d s] ax IH]; intros off δ; [done|].
  cbn [addrs]. rewrite fmap_list_bind. apply list_bind_ext; [|done].
  intros j. rewrite <- IH. f_equal. lia.
Qed.

Lemma lookup_total_bind_blocks {A B} `{Inhabited A, Inhabited B}
    (f : A → list B) (P : nat) (l : list A) :
  (∀ a, length (f a) = P) →
  ∀ i n, (i < length l)%nat → (n < P)%nat →
  (l ≫= f) !!! (i * P + n)%nat = f (l !!! i) !!! n.
Proof.
  intros Hlen. induction l as [|a l IH]; intros i n Hi Hn; [cbn in Hi; lia|].
  cbn [mbind list_bind]. destruct i as [|i].
  - rewrite lookup_total_app_l by (rewrite Hlen; lia). done.
  - rewrite lookup_total_app_r by (rewrite Hlen; lia). rewrite Hlen.
    replace (S i * P + n - P)%nat with (i * P + n)%nat by lia.
    cbn [length] in Hi. by rewrite IH by lia.
Qed.

(** Row [r] of the positions of a view. *)
Lemma addrs_row d s rest off r n :
  Forall (λ ds, 0 ≤ ds.1) rest → 0 ≤ r < d →
  0 ≤ n < prod_list (fst <$> rest) →
  addrs ((d, s) :: rest) off !!! Z.to_nat (n + r * prod_list (fst <$> rest))
  = addrs rest (off + r * s) !!! Z.to_nat n.
Proof.
  intros Hwf Hr Hn. cbn [addrs].
  set (P := prod_list (fst <$> rest)) in *.
  replace (Z.to_nat (n + r * P))
    with (Z.to_nat r * Z.to_nat P + Z.to_nat n)%nat by lia.
  rewrite (lookup_total_bind_blocks _ (Z.to_nat P)).
  - assert (seqZ 0 d !!! Z.to_nat r = r) as ->; [|done].
    apply list_lookup_total_correct. rewrite lookup_seqZ_lt by lia.
    f_equal. lia.
  - intros j. pose proof (length_addrs rest (off + j * s) Hwf). fold P in H.
    lia.
  - rewrite length_seqZ. lia.
  - lia.
Qed.

Lemma index_axes_unshift index ax off δ v :
  index_axes index ax (off + δ) = Ok v →
  ∃ w, index_axes index ax off = Ok w ∧ v = shift_view δ w.
Proof.
  rewrite index_axes_shift.
  destruct (index_axes index ax off) as [w|]; [|done].
  intros [= <-]. by exists w.
Qed.

Lemma vaddrs_shift_view δ w :
  vaddrs (shift_view δ w) = (λ p, p + δ) <$> vaddrs w.
Proof. unfold vaddrs, shift_view. cbn [axes offset]. apply addrs_shift. Qed.

Lemma index_axes_positions index : ∀ lead off v v2,
  Forall (λ ds, 0 ≤ ds.1) lead →
  index_axes index lead off = Ok v →
  index_axes index (c_axes (fst <$> lead)) 0 = Ok v2 →
  vaddrs v = (λ n, addrs lead off !!! Z.to_nat n) <$> vaddrs v2.
Proof.
  induction index as [|it index IH]; intros lead off v v2 Hwf Hv Hv2.
  { injection Hv as <-. injection Hv2 as <-. unfold vaddrs. cbn [axes offset].
    rewrite addrs_c_axes by (by apply Forall_fmap).
    rewrite <- (length_addrs lead off Hwf). by rewrite lookup_all. }
  destruct lead as [|[d s] rest]; [done|].
  apply Forall_cons in Hwf as [Hd Hwf]. cbn in Hd.
  cbn [fmap list_fmap fst c_axes] in Hv2.
  set (P := prod_list (fst <$> rest)) in *.
  assert (Forall (λ ds, 0 ≤ ds.1) (c_axes (fst <$> rest))) as Hwfc.
  { apply wf_array_c_view. by apply Forall_fmap. }
  assert (∀ r w vr, 0 ≤ r < d →
            index_axes index rest (off + r * s) = Ok vr →
            index_axes index (c_axes (fst <$> rest)) 0 = Ok w →
            vaddrs vr
            = (λ n, addrs ((d, s) :: rest) off !!! Z.to_nat n)
                <$> ((λ p, p + r * P) <$> vaddrs w)) as Hrow.
  { intros r w vr Hr Hvr Hw. rewrite (IH _ _ _ _ Hwf Hvr Hw).
    rewrite <- list_fmap_compose. apply Forall_fmap_ext, Forall_forall.
    intros n Hn. cbn. symmetry. apply addrs_row; [done..|].
    destruct (index_axes_addrs _ _ _ _ Hwfc Hw) as [_ Hsub].
    apply Hsub in Hn. rewrite addrs_c_axes in Hn by (by apply Forall_fmap).
    apply elem_of_seqZ in Hn. fold P in Hn. lia. }
  destruct it as [i|a b c|]; cbn [index_axes] in Hv, Hv2; [| |done].
  - set (i' := if i <? 0 then i + d else i) in *.
    destruct (Z.leb_spec 0 i'); [|done]. destruct (Z.ltb_spec i' d); [|done].
    cbn [andb] in Hv, Hv2.
    apply index_axes_unshift in Hv2 as (w & Hw & ->).
    rewrite vaddrs_shift_view. by apply Hrow.
  - destruct (slice_adjust d a b c) as [[[start step] cnt]|] eqn:Hsl; [|done].
    rewrite bind_Ok in Hv, Hv2.
    apply bind_result_Ok in Hv as (v1 & Hv1 & [= <-]).
    apply bind_result_Ok in Hv2 as (w1 & Hw1 & [= <-]).
    apply index_axes_unshift in Hw1 as (w & Hw & ->).
    destruct (slice_adjust_range _ _ _ _ _ _ _ Hd Hsl) as (Hcnt & _ & Hin).
    unfold vaddrs. cbn [axes offset addrs shift_view].
    rewrite fmap_list_bind. apply Forall_bind_ext, Forall_seqZ.
    intros j Hj. cbn.
    assert (index_axes index rest (off + (start + j * step) * s)
            = Ok (shift_view (j * (s * step)) v1)) as Hvr.
    { replace (off + (start + j * step) * s)
        with (off + start * s + j * (s * step)) by lia.
      by rewrite index_axes_shift, Hv1. }
    pose proof (Hrow _ _ _ (Hin j ltac:(lia)) Hvr Hw) as Hr.
    unfold vaddrs at 1 in Hr. cbn [shift_view axes offset] in Hr.
    rewrite Hr. f_equal. unfold vaddrs.
    replace (offset w + start * P + j * (P * step))
      with (offset w + (start + j * step) * P) by lia.
    by rewrite addrs_shift.
Qed.

(** *** Leading axes of a fresh array *)

Lemma c_axes_app l q :
  c_axes (l ++ q)
  = ((λ ds, (ds.1, ds.2 * prod_list q)) <$> c_axes l) ++ c_axes q.
Proof.
  induction l as [|d l IH]; [done|]. cbn [app c_axes fmap list_fmap fst snd].
  by rewrite IH, prod_list_app.
Qed.

Lemma addrs_scale (T : Z) ax : ∀ off,
  addrs ((λ ds, (ds.1, ds.2 * T)) <$> ax) (off * T)
  = (λ n, n * T) <$> addrs ax off.
Proof.
  induction ax as [|[d s] ax IH]; intros off; [done|].
  cbn [fmap list_fmap addrs fst snd]. rewrite fmap_list_bind.
  apply list_bind_ext; [|done]. intros j. rewrite <- IH. f_equal. lia.
Qed.

Lemma index_axes_scale (T : Z) index : ∀ ax off,
  index_axes index ((λ ds, (ds.1, ds.2 * T)) <$> ax) (off * T)
  = (λ v, View (offset v * T) ((λ ds, (ds.1, ds.2 * T)) <$> axes v))
      <$> index_axes index ax off.
Proof.
  induction index as [|it index IH]; intros ax off; [done|].
  destruct ax as [|[d s] ax]; [done|].
  cbn [fmap list_fmap fst snd]. destruct it as [i|a b c|]; cbn [index_axes].
  - destruct (_ && _); [|done].
    replace (off * T + (if i <? 0 then i + d else i) * (s * T))
      with ((off + (if i <? 0 then i + d else i) * s) * T) by lia.
    apply IH.
  - destruct (slice_adjust d a b c) as [[[start step] n]|e]; [|done].
    rewrite !bind_Ok.
    replace (off * T + start * (s * T)) with ((off + start * s) * T) by lia.
    rewrite IH. destruct (index_axes index ax (off + start * s)) as [v|];
      [|done].
    cbn. do 4 f_equal. ring.
  - done.
Qed.

(** A block of a list of blocks of the same length. *)
Lemma block_of_bind {A B} `{Inhabited A, Inhabited B} (f : A → list B)
    (P : Z) (l : list A) (i : Z) :
  (∀ a, Z.of_nat (length (f a)) = P) → 0 ≤ i < Z.of_nat (length l) →
  (λ p, (l ≫= f) !!! Z.to_nat p) <$> seqZ (i * P) P = f (l !!! Z.to_nat i).
Proof.
  intros Hlen Hi.
  transitivity ((λ p, f (l !!! Z.to_nat i) !!! Z.to_nat p) <$> seqZ 0 P).
  - rewrite <- (Z.add_0_r (i * P)) at 1. rewrite <- fmap_add_seqZ.
    rewrite <- list_fmap_compose. apply Forall_fmap_ext, Forall_seqZ.
    intros n Hn. cbn.
    replace (Z.to_nat (i * P + n))
      with (Z.to_nat i * Z.to_nat P + Z.to_nat n)%nat by lia.
    apply lookup_total_bind_blocks; [|lia..].
    intros a. specialize (Hlen a). lia.
  - rewrite <- (Hlen (l !!! Z.to_nat i)). apply lookup_all.
Qed.

(** An index of the leading axes of an array, with the full slices that an
    ellipsis in it needs for the [n] trailing axes. *)
Lemma view_getitem_trailing extra : ∀ off lead index,
  Forall (λ ds, 0 ≤ ds.1) extra → (length index ≤ length lead)%nat →
  view_getitem (View off (lead ++ extra))
    (if existsb is_Ellipsis index
     then index ++ replicate (length extra) full_slice else index)
  = (λ v, View (offset v) (axes v ++ extra))
      <$> view_getitem (View off lead) index.
Proof.
  induction extra as [|[d s] extra IH] using rev_ind;
    intros off lead index Hwf Hlen.
  { change (replicate (length (@nil (Z * Z))) full_slice) with (@nil item).
    rewrite !app_nil_r.
    destruct (existsb is_Ellipsis index);
      destruct (view_getitem _ index) as [[o ax]|]; try done;
      cbn; by rewrite app_nil_r. }
  apply Forall_app in Hwf as [Hwf [Hd _]%Forall_cons]. cbn in Hd.
  rewrite length_app. cbn [length]. rewrite Nat.add_1_r, replicate_S_end.
  rewrite !app_assoc.
  destruct (existsb is_Ellipsis index) eqn:He.
  - pose proof (view_getitem_voxels off (lead ++ extra) d s
                  (index ++ replicate (length extra) full_slice) Hd) as Hv.
    rewrite existsb_app, He in Hv. cbn [orb] in Hv.
    rewrite Hv by (rewrite !length_app, length_replicate; lia).
    specialize (IH off lead index Hwf Hlen). rewrite He in IH. rewrite IH.
    destruct (view_getitem (View off lead) index) as [[o ax]|];
      [|reflexivity].
    cbn. unfold add_axis. cbn. by rewrite <- app_assoc.
  - pose proof (view_getitem_voxels off (lead ++ extra) d s index Hd) as Hv.
    rewrite He in Hv. rewrite Hv by (rewrite length_app; lia).
    specialize (IH off lead index Hwf Hlen). rewrite He in IH. rewrite IH.
    destruct (view_getitem (View off lead) index) as [[o ax]|];
      [|reflexivity].
    cbn. unfold add_axis. cbn. by rewrite <- app_assoc.
Qed.

Lemma view_getitem_scale (T : Z) index off ax :
  view_getitem (View (off * T) ((λ ds, (ds.1, ds.2 * T)) <$> ax)) index
  = (λ v, View (offset v * T) ((λ ds, (ds.1, ds.2 * T)) <$> axes v))
      <$> view_getitem (View off ax) index.
Proof.
  unfold view_getitem. cbn [axes offset]. rewrite length_fmap.
  destruct (expand_index _ index) as [index'|]; [|done].
  rewrite !bind_Ok. apply index_axes_scale.
Qed.

Lemma view_getitem_positions index lead off v v2 :
  Forall (λ ds, 0 ≤ ds.1) lead →
  view_getitem (View off lead) index = Ok v →
  view_getitem (c_view (fst <$> lead)) index = Ok v2 →
  vaddrs v = (λ n, addrs lead off !!! Z.to_nat n) <$> vaddrs v2.
Proof.
  intros Hwf. unfold view_getitem, c_view. cbn [axes offset].
  assert (length (c_axes (fst <$> lead)) = length lead) as ->.
  { by rewrite <- (length_fmap fst), vshape_c_axes, length_fmap. }
  destruct (expand_index _ index) as [index'|]; [|done].
  rewrite !bind_Ok. by apply index_axes_positions.
Qed.

Lemma length_c_axes shp : length (c_axes shp) = length shp.
Proof. by rewrite <- (length_fmap fst), vshape_c_axes. Qed.

(** Indexing the leading axes of a fresh array that holds one block of
    values for each position of a view: the blocks of the positions that the
    index selects in the view, in scan order. *)
Lemma getitem_fresh_blocks {X} `{Inhabited X} (Gv : Z → list X)
    lead off Q index v' :
  Forall (λ ds, 0 ≤ ds.1) lead → Forall (λ d, 0 ≤ d) Q →
  (∀ b, Z.of_nat (length (Gv b)) = prod_list Q) →
  (length index ≤ length lead)%nat →
  view_getitem (View off lead) index = Ok v' →
  ∃ sliced,
    getitem (fresh ((fst <$> lead) ++ Q) (addrs lead off ≫= Gv))
      (if existsb is_Ellipsis index
       then index ++ replicate (length Q) full_slice else index)
    = Ok sliced ∧
    shape sliced = vshape v' ++ Q ∧
    elems sliced = vaddrs v' ≫= Gv.
Proof.
  intros Hwf HQ HG Hlen Hv'. set (T := prod_list Q) in *.
  set (L := fst <$> lead).
  assert (Forall (λ d, 0 ≤ d) L) as HL by (by apply Forall_fmap).
  pose proof (view_getitem_shape (View off lead) (c_view L) index) as Hsh.
  rewrite Hv' in Hsh.
  destruct (view_getitem (c_view L) index) as [v2|] eqn:Hv2.
  2:{ exfalso. unfold vshape, c_view, L in Hsh. cbn [axes] in Hsh.
      rewrite vshape_c_axes in Hsh. by specialize (Hsh eq_refl). }
  assert (vshape v' = vshape v2) as Hshape.
  { unfold vshape at 1 2, c_view, L in Hsh. cbn [axes] in Hsh.
    rewrite vshape_c_axes in Hsh. specialize (Hsh eq_refl).
    by injection Hsh. }
  pose proof (view_getitem_positions _ _ _ _ _ Hwf Hv' Hv2) as Hpos.
  destruct (view_getitem_wf _ _ _ (wf_array_c_view L HL) Hv2) as [_ Hsub].
  unfold vaddrs at 2, c_view in Hsub. cbn [axes offset] in Hsub.
  rewrite addrs_c_axes in Hsub by done.
  pose proof (length_addrs lead off Hwf) as HlenA. fold L in HlenA.
  unfold getitem, fresh, c_view. cbn [vw buf]. rewrite c_axes_app. fold T.
  rewrite <- (length_c_axes Q). change 0 with (0 * T).
  rewrite view_getitem_trailing.
  2:{ apply wf_array_c_view. done. }
  2:{ rewrite length_fmap, length_c_axes. unfold L. by rewrite length_fmap. }
  rewrite view_getitem_scale. unfold c_view in Hv2. rewrite Hv2.
  cbn [fmap result_fmap]. rewrite bind_Ok. eexists. split; [done|]. split.
  - unfold shape. cbn [vw]. rewrite Hshape. unfold vshape. cbn [axes].
    by rewrite fmap_app, <- list_fmap_compose, vshape_c_axes.
  - unfold elems. cbn [vw buf]. unfold vaddrs at 1. cbn [axes offset].
    rewrite addrs_app, addrs_scale, list_fmap_bind, fmap_list_bind, Hpos.
    rewrite list_fmap_bind. apply Forall_bind_ext, Forall_forall.
    intros n Hn. cbn. apply Hsub, elem_of_seqZ in Hn.
    rewrite addrs_c_axes by done. fold T.
    apply (block_of_bind Gv T); [done|lia].
Qed.

Lemma view_getitem_wf_view v index v' :
  wf_view v → view_getitem v index = Ok v' → wf_view v'.
Proof.
  intros Hwf. unfold view_getitem.
  destruct (expand_index _ index) as [index'|]; [|done]. rewrite bind_Ok.
  intros Hv. by apply index_axes_addrs in Hv as [? _].
Qed.

(** *** Evaluating a slice of a model *)

Section Slices.
Context {F : Type}.
Variable uninit : nat → Z.
Variable uninit_f : F.
Variable sph_harm : Z → Z → F → F → F * F.
Variable sqrt2 : F.
Variable fmul : F → F → F.
Variable fdot : list F → list F → F.

Local Abbreviation elems_f := (@elems F (populate uninit_f)).
Local Abbreviation evaluate_at :=
(ODF.evaluate_at uninit uninit_f sph_harm sqrt2 fmul fdot).

(** Evaluation commutes with indexing: evaluating the model [self[index]] at
  angles gives the array that indexing the evaluation of [self] at these
  angles gives, with the same index (followed, when it has an ellipsis, by
  a full slice for each axis of the angles): the same shape and the same
  entries. *)
Theorem evaluate_at_getitem self index new (theta_e phi_e : ndarray F)
  lead s :
let k := ((ODF.sh_order self + 2) * (ODF.sh_order self + 1)) `div` 2 in
let items := index_items index in
0 ≤ ODF.sh_order self → ODF.sh_order self `mod` 2 = 0 →
axes (vw (ODF._coef self)) = lead ++ [(k, s)] →
Forall (λ ds, 0 ≤ ds.1) lead →
Forall (λ d, 0 ≤ d) (shape theta_e) → shape phi_e = shape theta_e →
ODF.__getitem__ self index = Ok new →
∃ whole part sliced,
  evaluate_at self theta_e phi_e = ([EvSphHarm; EvDot], Ok whole) ∧
  evaluate_at new theta_e phi_e = ([EvSphHarm; EvDot], Ok part) ∧
  getitem whole
    (if existsb is_Ellipsis items
     then items ++ replicate (length (shape theta_e)) full_slice
     else items) = Ok sliced ∧
  shape sliced = shape part ∧
  elems_f sliced = elems_f part.
Proof.
intros k items Hsh Hev Hcoef Hlead Hq Hsame Hget.
assert (0 ≤ k) as Hk by (apply Z.div_pos; nia).
(* the index, on the coefficients *)
unfold ODF.__getitem__ in Hget. fold items in Hget.
destruct (Z.gtb_spec (Z.of_nat (length items)) (ODF._getndim self))
  as [|Hlen]; [done|].
unfold ODF._getndim, ndim in Hlen. rewrite Hcoef, length_app in Hlen.
cbn [length] in Hlen.
apply bind_result_Ok in Hget as (coef' & Hcoef' & Hget).
apply bind_result_Ok in Hget as (resid' & _ & [= <-]).
unfold getitem in Hcoef'.
apply bind_result_Ok in Hcoef' as (vc & Hvc & [= <-]).
destruct (ODF._coef self) as [cbuf [off cax]] eqn:Hself.
cbn [vw axes buf offset] in *. subst cax.
rewrite view_getitem_voxels in Hvc by (done || lia).
destruct (view_getitem (View off lead) items) as [v'|] eqn:Hv'; [|done].
injection Hvc as <-.
pose proof (view_getitem_wf_view (View off lead) _ _ Hlead Hv') as Hwf'.
(* the two evaluations *)
destruct (evaluate_at_run uninit uninit_f sph_harm sqrt2 fmul fdot self
            theta_e phi_e lead s Hsh Hev) as [Hshape Hwhole];
  [by rewrite Hself|done..|].
set (new := Make (ODF.sh_order self) (ODF.ngrad self) (ODF.fit_matrix self)
                 (ODF.b0 self) (NdArray cbuf (add_axis (k, s) v')) resid').
destruct (evaluate_at_run uninit uninit_f sph_harm sqrt2 fmul fdot new
            theta_e phi_e (axes v') s Hsh Hev) as [Hshape' Hpart];
  [done..|].
rewrite Hself in Hwhole. cbn [vw buf offset] in Hwhole.
cbn [new ODF._coef ODF.sh_order vw buf offset add_axis] in Hpart.
fold k in Hwhole, Hpart.
set (Gv := λ base : Z,
       zip (elems_f theta_e) (elems_f phi_e) ≫= λ q,
         [fdot (elems_f (NdArray cbuf (View base [(k, s)])))
               ((λ mn, real_harm sph_harm sqrt2 fmul mn.1 mn.2 q.1 q.2)
                  <$> indexList_spec (ODF.sh_order self))]) in *.
assert (∀ b, Z.of_nat (length (Gv b)) = prod_list (shape theta_e)) as HG.
{ intros b. unfold Gv. rewrite bind_singleton, length_fmap, length_zip_with.
  rewrite !length_elems by (by rewrite ?Hsame). rewrite Hsame.
  pose proof (prod_list_nonneg _ Hq). lia. }
destruct (getitem_fresh_blocks (H := populate uninit_f) Gv lead off
            (shape theta_e) items v' Hlead Hq HG ltac:(lia) Hv')
  as (sliced & Hsliced & Hshs & Hels).
rewrite Hshape in Hwhole. rewrite Hshape' in Hpart.
eexists _, _, sliced. split; [exact Hwhole|]. split; [exact Hpart|].
split; [exact Hsliced|]. split.
- by rewrite shape_fresh.
- rewrite Hels. symmetry. apply elems_fresh.
  + apply Forall_app. split; [by apply Forall_fmap|done].
  + rewrite prod_list_app.
    rewrite (length_bind_const _ _ (Z.to_nat (prod_list (shape theta_e)))).
    * pose proof (length_addrs (axes v') (offset v') Hwf') as Hla.
      pose proof (prod_list_nonneg _ Hq).
      unfold vaddrs. rewrite Nat2Z.inj_mul, Hla, Z2Nat.id by done.
      done.
    * intros b. specialize (HG b). lia.
Qed.

End Slices.

Lemma evaluate_at_getitem_witness :
  ∃ new whole part sliced,
    ODF.__getitem__ Examples.odf (Single (Slice (Some 1) None None)) = Ok new ∧
    ODF.evaluate_at (λ _, 0) 0 (λ m n theta phi, (theta + phi, 0)) 1 Z.mul
      Examples.inner Examples.odf (Examples.query_of 1 2 3 4)
      (Examples.query_of 5 6 7 8) = ([EvSphHarm; EvDot], Ok whole) ∧
    ODF.evaluate_at (λ _, 0) 0 (λ m n theta phi, (theta + phi, 0)) 1 Z.mul
      Examples.inner new (Examples.query_of 1 2 3 4)
      (Examples.query_of 5 6 7 8) = ([EvSphHarm; EvDot], Ok part) ∧
    getitem whole [Slice (Some 1) None None] = Ok sliced ∧
    shape sliced = shape part ∧
    @elems Z (populate 0) sliced = @elems Z (populate 0) part.
Proof.
  assert (∃ new, ODF.__getitem__ Examples.odf
                   (Single (Slice (Some 1) None None)) = Ok new)
    as [new Hnew] by (eexists; reflexivity).
  destruct (evaluate_at_getitem (λ _, 0) 0
              (λ m n theta phi, (theta + phi, 0)) 1 Z.mul Examples.inner
              Examples.odf (Single (Slice (Some 1) None None)) new
              (Examples.query_of 1 2 3 4) (Examples.query_of 5 6 7 8)
              [(2, 1)] 1) as (whole & part & sliced & H).
  - cbn. lia.
  - reflexivity.
  - reflexivity.
  - forall_literal [(2, 1)].
  - forall_literal [2; 2].
  - reflexivity.
  - exact Hnew.
  - exists new, whole, part, sliced. split; [exact Hnew|exact H].
Defined.

(** *** The fit of the constructor *)

Section Fit.
Context {F : Type}.
Variable uninit : nat → Z.
Variable uninit_f : F.
Variable fpos : F → bool.
Variable arctan2 : F → F → F.
Variable arccos : F → F.
Variable sph_harm : Z → Z → F → F → F * F.
Variable sqrt2 : F.
Variables fsub fmul fdiv : F → F → F.
Variables legendre_P legendre_dP : Z → Z → F.
Variable fdot : list F → list F → F.
Variable pinv : Z → Z → list F → option (list F).

Local Abbreviation elems_f := (@elems F (populate uninit_f)).
Local Abbreviation harmonic :=
(λ (mn : Z * Z) (tp : F * F),
   real_harm sph_harm sqrt2 fmul mn.1 mn.2 tp.1 tp.2).
Local Abbreviation init :=
(ODF.__init__ uninit uninit_f fpos arctan2 arccos sph_harm sqrt2
              fsub fmul fdiv legendre_P legendre_dP fdot pinv).

Lemma select_fmap {T U} (f : T → U) (mask : list bool) : ∀ l,
select mask (f <$> l) = f <$> select mask l.
Proof.
induction mask as [|b mask IH]; intros [|x l]; try done.
cbn [fmap list_fmap select]. destruct b; cbn; by rewrite IH.
Qed.

(** With an even, non-negative order, a [3 x n] gradient table, [n]
  b-values, data whose last axis has length [n] and at least as many
  diffusion-weighted directions as coefficients, the constructor computes
  the basis matrix and its pseudo-inverse.  The basis matrix has one row
  for each pair of the index list of the order and one column for each
  diffusion-weighted direction [(x, y, z)]: the real harmonic of the pair
  at the angles [arctan2 y x] and [arccos z].  When the pseudo-inverse does
  not converge the constructor raises [LinAlgError]; otherwise it returns
  a model: a fit matrix of one row for each direction and one column for
  each coefficient, coefficients for the voxels of the data, the signal
  without weighting, and residuals if and only if they were asked for.
  The pseudo-inverse and the Legendre polynomials are computed once. *)
Theorem init_fits data sh_order grad_table b_values keep_resid
  lead s0 s1 sb sd n :
0 ≤ sh_order → sh_order `mod` 2 = 0 →
axes (vw grad_table) = [(3, s0); (n, s1)] →
axes (vw b_values) = [(n, sb)] → 0 ≤ n →
axes (vw data) = lead ++ [(n, sd)] →
let dwi := fpos <$> elems_f b_values in
let g := Z.of_nat (count_true dwi) in
let k := ((sh_order + 2) * (sh_order + 1)) `div` 2 in
let component i :=
  select dwi (elems_f (NdArray (buf grad_table)
                         (View (offset (vw grad_table) + i * s0)
                               [(n, s1)]))) in
let thetas := zip_with arctan2 (component 1) (component 0) in
let phis := arccos <$> component 2 in
let basis :=
  indexList_spec sh_order ≫= λ mn, harmonic mn <$> zip thetas phis in
k ≤ g →
Z.of_nat (length basis) = k * g ∧
(pinv k g basis = None →
 init data sh_order grad_table b_values keep_resid
 = ([EvArctan2; EvArccos; EvSphHarm; EvPinv],
    Raise (LinAlgError "SVD did not converge"))) ∧
(∀ inv, pinv k g basis = Some inv →
 ∃ self,
   init data sh_order grad_table b_values keep_resid
   = ([EvArctan2; EvArccos; EvSphHarm; EvPinv; EvLegendre; EvArith; EvDot]
      ++ (if keep_resid then [EvArith; EvDot; EvArith] else []), Ok self) ∧
   ODF.sh_order self = sh_order ∧ ODF.ngrad self = g ∧
   shape (ODF.fit_matrix self) = [g; k] ∧
   shape (ODF.b0 self) = (fst <$> lead) ++ [n - g] ∧
   shape (ODF._coef self) = (fst <$> lead) ++ [k] ∧
   ODF._getshape self = fst <$> lead ∧
   match ODF._resid self with
   | Some r => keep_resid = true ∧ shape r = (fst <$> lead) ++ [g]
   | None => keep_resid = false
   end).
Proof.
intros Hsh Hev Hgrad Hb Hn Hdata dwi g k component thetas phis basis Hkg.
assert (Z.of_nat (length dwi) = n) as Hdwi.
{ unfold dwi. rewrite length_fmap. by eapply length_elems_1d. }
set (row i := NdArray (buf grad_table)
                (View (offset (vw grad_table) + i * s0) [(n, s1)])).
assert (∀ i, take_mask_first uninit_f (row i) dwi
             = Ok (fresh [g] (component i))) as Hrow.
{ intros i. unfold take_mask_first, row. cbn [vw axes offset buf].
  rewrite Hdwi, Z.eqb_refl. cbn [mret result_ret fmap list_fmap addrs].
  fold g. rewrite bind_singleton. do 2 f_equal.
  unfold component, where_true, elems, vaddrs. cbn [vw buf axes offset].
  rewrite addrs_one_axis, <- list_fmap_compose, <- select_fmap.
  by rewrite Hdwi. }
pose proof (Hrow 1) as Hgy. pose proof (Hrow 0) as Hgx.
pose proof (Hrow 2) as Hgz.
assert (∀ i, Z.of_nat (length (component i)) = g) as Hclen.
{ intros i. unfold component. rewrite length_select; [done|].
  rewrite length_elems by (cbn; by repeat constructor).
  unfold shape, vshape, prod_list. cbn. lia. }
assert (0 ≤ g) as Hg0 by (unfold g; lia).
assert (Forall (λ d, 0 ≤ d) [g]) as Hnng by (by repeat constructor).
assert (∀ l : list F, Z.of_nat (length l) = g →
          elems_f (broadcast_to (fresh [g] l) [g]) = l) as Hb1.
{ intros l Hl. transitivity (elems_f (fresh [g] l)).
  - unfold broadcast_to, fresh, c_view. cbn [vw buf axes offset c_axes].
    change (reverse [(g, prod_list [])]) with [(g, prod_list [])].
    change (reverse [g]) with [g]. cbn [broadcast_axes_rev].
    by rewrite Z.eqb_refl.
  - apply elems_fresh; [done|]. unfold prod_list. cbn. lia. }
assert (np_arctan2 uninit_f arctan2 (fresh [g] (component 1))
                   (fresh [g] (component 0))
        = ([EvArctan2], Ok (fresh [g] thetas))) as Htheta.
{ unfold np_arctan2, map2_arrays, F_inhabited. rewrite !shape_fresh.
  rewrite broadcast_shapes_refl, bind_Ok, !Hb1 by done. done. }
assert (np_arccos uninit_f arccos (fresh [g] (component 2))
        = ([EvArccos], Ok (fresh [g] phis))) as Hphi.
{ unfold np_arccos, map_array, F_inhabited. rewrite shape_fresh.
  rewrite elems_fresh; [done|done|]. rewrite Hclen. unfold prod_list.
  cbn. lia. }
assert (Z.of_nat (length thetas) = g) as Htl.
{ unfold thetas. rewrite length_zip_with. pose proof (Hclen 1).
  pose proof (Hclen 0). lia. }
assert (Z.of_nat (length phis) = g) as Hpl.
{ unfold phis. by rewrite length_fmap. }
destruct (sph_harm_ind_list_columns uninit sh_order Hsh Hev)
  as (ms & ns & Hlist & Hlen & Hk & Hns).
fold k in Hk.
assert (0 ≤ k) as Hk0 by lia.
pose proof (sph_harm_ind_list_pairs uninit sh_order ms ns Hsh Hev Hlist)
  as Hpairs.
pose proof (basis_matrix_entries uninit_f sph_harm sqrt2 fmul ms ns
              (fresh [g] thetas) (fresh [g] phis) g 1 1 Hlen Hg0
              eq_refl eq_refl) as Hcomp.
rewrite !elems_fresh, Hpairs, Hk in Hcomp;
  [|done|unfold prod_list; cbn; lia|done|unfold prod_list; cbn; lia].
fold basis in Hcomp. set (comp := basis) in *.
assert (Z.of_nat (length comp) = k * g) as Hsize.
{ unfold comp, basis.
  rewrite (length_bind_const _ _ (Z.to_nat g)).
  - rewrite <- Hpairs, length_zip_with, Hlen, Nat.min_id. lia.
  - intros mn. rewrite length_fmap, length_zip_with. lia. }
pose proof (np_pinv_run uninit_f pinv (fresh [k; g] comp) k (g * 1) g 1
              eq_refl) as Hfit.
rewrite elems_fresh in Hfit.
2:{ repeat constructor; lia. }
2:{ rewrite Hsize. unfold prod_list. cbn. lia. }
split; [done|]. split.
- intros Hnone. rewrite Hnone in Hfit. eapply run_eq.
  + unfold ODF.__init__, F_inhabited.
    rewrite Hev. destruct (Z.ltb_spec sh_order 0); [lia|].
    cbn [Z.eqb negb orb]. fold dwi g.
    rewrite !(getitem_row _ 3 s0 n s1) by (done || lia). rewrite !bind_Ok.
    fold (row 1) (row 0) (row 2). fold component dwi g in Hgy, Hgx, Hgz.
    rewrite Hgy, Hgx, Hgz, Hlist.
    rewrite !M_bind_lift_Ok.
    run_step Htheta. rewrite M_bind_lift_Ok. run_step Hphi.
    rewrite M_bind_lift_Ok. cbv beta iota.
    assert ((isize (column ms) >? g) = false) as ->.
    { unfold isize, column. cbn [idata]. rewrite Hk.
      by destruct (Z.gtb_spec k g); [lia|]. }
    run_step Hcomp. apply M_bind_Raise. exact Hfit.
  + reflexivity.
  + reflexivity.
- intros fit Hsome. rewrite Hsome in Hfit.
  set (legendre0 := (λ i, legendre_P i 0) <$> seqZ 0 (sh_order + 1)).
  destruct (mapM_py_index legendre0 ns) as (funk & Hfunk & _).
  { eapply Forall_impl; [done|]. intros x. cbn. unfold legendre0.
    rewrite length_fmap, length_seqZ. lia. }
  destruct (np_imul_run uninit_f fmul (fresh [g; k] fit) (transpose (fresh [k; 1] funk)))
    as [fit' Hfit'].
  { rewrite shape_fresh. apply broadcast_shapes_matrix_top. }
  rewrite shape_fresh in Hfit'.
  destruct (take_mask_last_run uninit_f data lead n sd (negb <$> dwi) Hdata)
    as [b0 Hb0]; [by rewrite length_fmap|].
  destruct (take_mask_last_run uninit_f data lead n sd dwi Hdata Hdwi)
    as [dw Hdw].
  fold g in Hdw.
  destruct (np_dot_fresh uninit_f fdot (fst <$> lead) g k dw fit')
    as [coef Hcoef].
  destruct (np_arith_run uninit_f fdiv (fresh [k; g] comp) (fresh [k; 1] funk)
              [k; g]) as [unfit Hunfit].
  { rewrite !shape_fresh. apply broadcast_shapes_matrix_column. }
  destruct (np_dot_fresh uninit_f fdot (fst <$> lead) k g coef unfit)
    as [fitted Hfitted].
  destruct (np_arith_run uninit_f fsub (fresh ((fst <$> lead) ++ [g]) dw)
              (fresh ((fst <$> lead) ++ [g]) fitted) ((fst <$> lead) ++ [g]))
    as [resid Hresid].
  { rewrite !shape_fresh. apply broadcast_shapes_refl. }
  exists (Make sh_order g (fresh [g; k] fit')
            (fresh ((fst <$> lead) ++ [Z.of_nat (count_true (negb <$> dwi))]) b0)
            (fresh ((fst <$> lead) ++ [k]) coef)
            (if keep_resid then Some (fresh ((fst <$> lead) ++ [g]) resid)
             else None)).
  split.
  + eapply run_eq.
    * unfold ODF.__init__, F_inhabited.
      rewrite Hev. destruct (Z.ltb_spec sh_order 0); [lia|].
      cbn [Z.eqb negb orb]. fold dwi g.
      rewrite !(getitem_row _ 3 s0 n s1) by (done || lia). rewrite !bind_Ok.
      fold (row 1) (row 0) (row 2). fold component dwi g in Hgy, Hgx, Hgz.
    rewrite Hgy, Hgx, Hgz, Hlist.
      rewrite !M_bind_lift_Ok.
      run_step Htheta. rewrite M_bind_lift_Ok. run_step Hphi.
      rewrite M_bind_lift_Ok. cbv beta iota.
      assert ((isize (column ms) >? g) = false) as ->.
      { unfold isize, column. cbn [idata]. rewrite Hk.
        by destruct (Z.gtb_spec k g); [lia|]. }
      run_step Hcomp. run_step Hfit.
      assert (lpn legendre_P legendre_dP sh_order 0
              = ([EvLegendre],
                 Ok (fresh [sh_order + 1] legendre0,
                     fresh [sh_order + 1]
                       ((λ i, legendre_dP i 0) <$> seqZ 0 (sh_order + 1)))))
        as Hlpn by done.
      run_step Hlpn. cbv beta iota.
      rewrite elems_fresh.
      2:{ repeat constructor. lia. }
      2:{ unfold legendre0, prod_list. rewrite length_fmap, length_seqZ.
          cbn. lia. }
      cbn [column ishape idata]. rewrite Hfunk, Hlen, Hk.
      cbn [fmap result_fmap]. rewrite M_bind_lift_Ok.
      run_step Hfit'. rewrite Hb0, M_bind_lift_Ok, Hdw, M_bind_lift_Ok.
      run_step Hcoef.
      match goal with
      | |- (if keep_resid then ?a else ?b) ≫= _ = _ =>
          assert ((if keep_resid then a else b)
                  = (if keep_resid then [EvArith; EvDot; EvArith] else [],
                     Ok (if keep_resid
                         then Some (fresh ((fst <$> lead) ++ [g]) resid)
                         else None))) as Hres
      end.
      { destruct keep_resid; [|done]. eapply run_eq.
        - run_step Hunfit. rewrite M_bind_lift_Ok. run_step Hfitted.
          run_step Hresid. reflexivity.
        - reflexivity.
        - reflexivity. }
      run_step Hres. reflexivity.
    * cbn [app]. by rewrite app_nil_r.
    * reflexivity.
  + cbn [ODF.sh_order ODF.ngrad ODF.fit_matrix ODF.b0 ODF._coef ODF._resid].
    unfold _getshape. cbn [ODF._coef]. rewrite !shape_fresh.
    split_and!; [done..| | | |].
    * do 2 f_equal. pose proof (count_true_negb dwi). unfold g. lia.
    * done.
    * apply removelast_last.
    * destruct keep_resid; [|done]. by rewrite shape_fresh.
Qed.

End Fit.

Lemma init_fits_witness :
  0 ≤ 0 ∧ 0 `mod` 2 = 0 ∧
  axes (vw Examples.grad_table) = [(3, 3); (3, 1)] ∧
  axes (vw Examples.b_values) = [(3, 1)] ∧
  axes (vw Examples.data) = [(2, 3)] ++ [(3, 1)] ∧
  ((0 + 2) * (0 + 1)) `div` 2
  ≤ Z.of_nat (count_true ((λ b, 0 <? b)
                <$> @elems Z (populate 0) Examples.b_values)) ∧
  (∃ self,
     Examples.init Examples.data 0 Examples.grad_table Examples.b_values true
     = ([EvArctan2; EvArccos; EvSphHarm; EvPinv; EvLegendre; EvArith; EvDot;
         EvArith; EvDot; EvArith], Ok self) ∧
     shape (ODF.fit_matrix self) = [2; 1] ∧
     shape (ODF.b0 self) = [2; 1] ∧
     shape (ODF._coef self) = [2; 1] ∧
     ODF._getshape self = [2]) ∧
  ODF.__init__ (λ _, 0) 0 (λ b, 0 <? b) (λ y x, y - x) (λ z, z)
    (λ m n theta phi, (1, 0)) 1 Z.sub Z.mul Z.div (λ k z, 1) (λ k z, 0)
    Examples.inner (λ r c data, None)
    Examples.data 0 Examples.grad_table Examples.b_values true
  = ([EvArctan2; EvArccos; EvSphHarm; EvPinv],
     Raise (LinAlgError "SVD did not converge")).
Proof.
  assert (((0 + 2) * (0 + 1)) `div` 2
          ≤ Z.of_nat (count_true ((λ b, 0 <? b)
                        <$> @elems Z (populate 0) Examples.b_values)))
    as Hkg by (by vm_compute).
  split; [lia|]. split; [reflexivity|]. split; [reflexivity|].
  split; [reflexivity|]. split; [reflexivity|]. split; [exact Hkg|].
  split.
  - destruct (init_fits (λ _, 0) 0 (λ b, 0 <? b) (λ y x, y - x) (λ z, z)
                (λ m n theta phi, (1, 0)) 1 Z.sub Z.mul Z.div
                (λ k z, 1) (λ k z, 0) Examples.inner (λ r c data, Some data)
                Examples.data 0 Examples.grad_table Examples.b_values true
                [(2, 3)] 3 1 1 1 3 ltac:(lia) eq_refl eq_refl eq_refl
                ltac:(lia) eq_refl Hkg)
      as (_ & _ & Hsome).
    destruct (Hsome _ eq_refl)
      as (self & Hrun & _ & _ & Hfit & Hb0 & Hcoef & Hshape & _).
    exists self. split; [exact Hrun|]. split; [exact Hfit|].
    split; [exact Hb0|]. split; [exact Hcoef|exact Hshape].
  - destruct (init_fits (λ _, 0) 0 (λ b, 0 <? b) (λ y x, y - x) (λ z, z)
                (λ m n theta phi, (1, 0)) 1 Z.sub Z.mul Z.div
                (λ k z, 1) (λ k z, 0) Examples.inner (λ r c data, None)
                Examples.data 0 Examples.grad_table Examples.b_values true
                [(2, 3)] 3 1 1 1 3 ltac:(lia) eq_refl eq_refl eq_refl
                ltac:(lia) eq_refl Hkg)
      as (_ & Hnone & _).
    exact (Hnone eq_refl).
Defined.

End ModelLaws.
